(** * Zero-Touch ingestion pipeline: a shallow embedding of the API core

    The development follows the JavaScript sources:
    - [Classifier]      services/nlp-classifier.js  (classifyLead, analyzeSentiment
                                                     and the validators)
    - [Webhook]         routes/webhook.js           (POST /ingest, detectChannel, the
                                                     extractors, calculatePriority)
    - [EventBus]        services/event-bus.js       (emit, subscribe, the history)
    - [Providers]       providers/index.js          (ProviderRegistry, getProvider,
                                                     getDefaultProvider)
    - [ProviderManager] services/provider-manager.js (initialize, get, getAllOfType,
                                                     setDefault, runHealthChecks,
                                                     getHealthStatus)
    - [Database]        services/database.js        (transaction)
    - [Leads]           routes/leads.js             (PATCH /:id/status, the statement
                                                     of GET /)

    [JS] holds the part of the language runtime those files rely on:
    values, truthiness, [||], property reads, [ToString], [parseInt],
    [parseFloat], [Math.min], [Math.max] and completions (return or throw). *)

From Stdlib Require Import ZArith List String Ascii Bool Lia DecimalString.
From stdpp Require Import base strings list gmap.
Import ListNotations.

#[local] Open Scope string_scope.
#[local] Open Scope Z_scope.

(* ================================================================== *)
(** * The JavaScript runtime fragment *)
(* ================================================================== *)

Module JS.

(** ** Numbers

    A double is [NaN], an infinity or a finite value.  A finite value is
    kept as the decimal [m * 10^e] that [Number::toString] prints for it
    (its shortest round-trip decimal, an integer with exponent 0), so
    that printing is definable and comparison is exact: the order of
    these decimals is the order of the doubles.  The code under study
    only prints, parses, compares and selects such numbers; its one
    subtraction is between two integer clock readings and is done on
    [Z].  So the only rounding is that of a parsed decimal.  Signed zero
    is not distinguished: both zeros are falsy and print as "0". *)
Inductive number : Type :=
| NaN
| Inf (negative : bool)
| Fin (m e : Z).

(** [m1 * 10^e1] against [m2 * 10^e2], after scaling both to the smaller
    exponent. *)
Definition fin_compare (m1 e1 m2 e2 : Z) : comparison :=
  let k := Z.min e1 e2 in
  (m1 * 10 ^ (e1 - k) ?= m2 * 10 ^ (e2 - k)).

(** Numeric order; [None] when an operand is [NaN]. *)
Definition cmp (a b : number) : option comparison :=
  match a, b with
  | NaN, _ | _, NaN => None
  | Inf true, Inf true => Some Eq
  | Inf false, Inf false => Some Eq
  | Inf true, _ => Some Lt
  | _, Inf true => Some Gt
  | Inf false, _ => Some Gt
  | _, Inf false => Some Lt
  | Fin m1 e1, Fin m2 e2 => Some (fin_compare m1 e1 m2 e2)
  end.

(** The relational operators [<], [<=], [>], [>=]: false on [NaN]. *)
Definition lt (a b : number) : bool :=
  match cmp a b with Some Lt => true | _ => false end.
Definition le (a b : number) : bool :=
  match cmp a b with Some Lt | Some Eq => true | _ => false end.
Definition gt (a b : number) : bool := lt b a.
Definition ge (a b : number) : bool := le b a.

(** [Math.max(a, b)] and [Math.min(a, b)]: [NaN] if either is [NaN]. *)
Definition Math_max (a b : number) : number :=
  match a, b with
  | NaN, _ | _, NaN => NaN
  | _, _ => if lt a b then b else a
  end.

Definition Math_min (a b : number) : number :=
  match a, b with
  | NaN, _ | _, NaN => NaN
  | _, _ => if lt b a then b else a
  end.

(** [ToBoolean] on a number: [NaN] and zero are falsy. *)
Definition truthy_number (n : number) : bool :=
  match n with
  | NaN => false
  | Inf _ => true
  | Fin m _ => negb (m =? 0)
  end.

(** [a || b] on numbers. *)
Definition number_or (a b : number) : number :=
  if truthy_number a then a else b.

(** *** Rounding to a double *)

(** [n / d] rounded to the nearest integer, a tie going to the even
    neighbour. *)
Definition round_half_even (n d : Z) : Z :=
  let q := n / d in
  match 2 * (n mod d) ?= d with
  | Lt => q
  | Gt => q + 1
  | Eq => if Z.even q then q else q + 1
  end.

(** The fraction [n / (d * b^x)], for an exponent [x] of either sign. *)
Definition scaled (b n d x : Z) : Z * Z :=
  if 0 <=? x then (n, d * b ^ x) else (n * b ^ (- x), d).

(** The double nearest to the positive fraction [n / d]: a significand
    [k] and an exponent [q], for the value [k * 2^q], with
    [2^52 <= k < 2^53] for a normal number and [q = -1074] for a
    subnormal one or zero; nothing when the rounding overflows. *)
Definition nearest_double (n d : Z) : option (Z * Z) :=
  let p0 := Z.log2 n - Z.log2 d in
  let '(n0, d0) := scaled 2 n d p0 in
  let p := if n0 <? d0 then p0 - 1 else p0 in
  let q := Z.max (p - 52) (-1074) in
  let '(n1, d1) := scaled 2 n d q in
  let k := round_half_even n1 d1 in
  let '(k, q) := if k =? 2 ^ 53 then (2 ^ 52, q + 1) else (k, q) in
  if 971 <? q then None else Some (k, q).

(** The largest [x >= 0] with [d * 10^x <= n], for [d <= n]; the
    smallest [x >= 1] with [d <= n * 10^x], for [n < d]. *)
Fixpoint magnitude_up (fuel : nat) (n d x : Z) : Z :=
  match fuel with
  | O => x
  | S fuel' => if n <? d * 10 ^ (x + 1) then x else magnitude_up fuel' n d (x + 1)
  end.

Fixpoint magnitude_down (fuel : nat) (n d x : Z) : Z :=
  match fuel with
  | O => x
  | S fuel' => if d <=? n * 10 ^ x then x else magnitude_down fuel' n d (x + 1)
  end.

(** The decimal exponent of the positive fraction [n / d]: the [x] with
    [10^x <= n / d < 10^(x+1)]. *)
Definition magnitude (n d : Z) : Z :=
  if d <=? n then magnitude_up (Z.to_nat (Z.log2 n)) n d 0
  else - magnitude_down (Z.to_nat (Z.log2 d)) n d 1.

(** Whether the decimal [s * 10^x] reads as the double [(k, q)]. *)
Definition reads_as (s x k q : Z) : bool :=
  let '(n, d) := scaled 10 s 1 (- x) in
  match nearest_double n d with
  | Some (k', q') => (k' =? k) && (q' =? q)
  | None => false
  end.

(** The shortest decimal that reads as the double [(k, q)], whose value
    is [n / d] and whose decimal exponent is [E]: digits [s] and
    exponent [x], for [s * 10^x].  With [j] digits the candidates are
    the two neighbours of [n / d] at that precision; when both read as
    the double, the nearer one is taken.  Seventeen digits always
    suffice. *)
Fixpoint shortest (fuel : nat) (j n d E k q : Z) : Z * Z :=
  let x := E - j + 1 in
  let '(tn, td) := scaled 10 n d x in
  let below := tn / td in
  if tn mod td =? 0 then (below, x)
  else
    match fuel with
    | O => (round_half_even tn td, x)
    | S fuel' =>
        match reads_as below x k q, reads_as (below + 1) x k q with
        | true, true => (round_half_even tn td, x)
        | true, false => (below, x)
        | false, true => (below + 1, x)
        | false, false => shortest fuel' (j + 1) n d E k q
        end
    end.

(** The number for [m * 10^e]: rounded to a double, and kept as the
    shortest decimal that reads as that double, without a trailing zero
    (a single digit rounded up to 10 is 1 at the next exponent) and, for
    an integer, with exponent 0.  Magnitudes from [2^1024 - 2^970] on
    overflow to an infinity, magnitudes up to [2^-1075] underflow to
    zero. *)
Definition to_double (m e : Z) : number :=
  if m =? 0 then Fin 0 0
  else
    let '(n, d) := scaled 10 (Z.abs m) 1 (- e) in
    match nearest_double n d with
    | None => Inf (m <? 0)
    | Some (k, q) =>
        if k =? 0 then Fin 0 0
        else
          let '(vn, vd) := scaled 2 k 1 (- q) in
          let '(s, x) := shortest 16 1 vn vd (magnitude vn vd) k q in
          let '(s, x) := if s mod 10 =? 0 then (s / 10, x + 1) else (s, x) in
          let s := if m <? 0 then - s else s in
          if 0 <=? x then Fin (s * 10 ^ x) 0 else Fin s x
    end.

(** ** Number::toString (radix 10) *)

Definition digits (z : Z) : string :=
  NilZero.string_of_uint (N.to_uint (Z.to_N z)).

Fixpoint zeros (n : nat) : string :=
  match n with
  | O => ""
  | S n' => String "0" (zeros n')
  end.

(** Number of trailing "0" characters, and the string without them. *)
Fixpoint strip_zeros (s : string) : string * nat :=
  match s with
  | EmptyString => ("", O)
  | String c r =>
      let '(r', n) := strip_zeros r in
      match r' with
      | EmptyString => if Ascii.eqb c "0" then ("", S n) else (String c "", n)
      | _ => (String c r', n)
      end
  end.

Definition exponent_part (x : Z) : string :=
  String "e" ((if x <? 0 then "-" else "+") ++ digits (Z.abs x)).

Definition Number_toString (x : number) : string :=
  match x with
  | NaN => "NaN"
  | Inf false => "Infinity"
  | Inf true => "-Infinity"
  | Fin m e =>
      if m =? 0 then "0" else
      let '(s, z) := strip_zeros (digits (Z.abs m)) in
      let k := String.length s in
      let n := e + Z.of_nat z + Z.of_nat k in
      (if m <? 0 then "-" else "") ++
      (if (Z.of_nat k <=? n) && (n <=? 21) then
         s ++ zeros (Z.to_nat (n - Z.of_nat k))
       else if (0 <? n) && (n <=? 21) then
         substring 0 (Z.to_nat n) s ++ "." ++
         substring (Z.to_nat n) (k - Z.to_nat n) s
       else if (-6 <? n) && (n <=? 0) then
         "0." ++ zeros (Z.to_nat (- n)) ++ s
       else
         match s with
         | String d EmptyString => String d (exponent_part (n - 1))
         | String d r => String d ("." ++ r ++ exponent_part (n - 1))
         | EmptyString => ""
         end)
  end.

(** ** Values *)

(** The values that [JSON.parse] produces, plus [undefined] for a missing
    property.  An object is its own properties in insertion order. *)
#[warnings="-register-all"]
Inductive value : Type :=
| Undefined
| Null
| Bool (b : bool)
| Num (n : number)
| Str (s : string)
| Arr (items : list value)
| Obj (fields : list (string * value)).

(** [ToBoolean]. *)
Definition truthy (v : value) : bool :=
  match v with
  | Undefined | Null => false
  | Bool b => b
  | Num n => truthy_number n
  | Str s => negb (String.eqb s "")
  | Arr _ | Obj _ => true
  end.

(** [a || b]. *)
Definition or_else (a b : value) : value :=
  if truthy a then a else b.

(** Own-property lookup in an object literal. *)
Fixpoint own (fields : list (string * value)) (k : string) : option value :=
  match fields with
  | [] => None
  | (k', v) :: rest => if String.eqb k' k then Some v else own rest k
  end.

(** Completions: a computation returns a value or throws.  What is
    thrown is an [Error] object, of which only the message is read: the
    language itself (a property read on [null], [JSON.parse]), the
    client libraries and the database driver throw nothing else.  The
    callbacks handed to the event bus may throw any value; [EventBus]
    has a type of its own for that. *)
Record error : Type := Error { message : string }.

Inductive completion (A : Type) : Type :=
| Return (a : A)
| Throw (e : error).
Arguments Return {A} a.
Arguments Throw {A} e.

Definition bind {A B} (c : completion A) (k : A -> completion B) : completion B :=
  match c with
  | Return a => k a
  | Throw e => Throw e
  end.

Definition returns {A} (c : completion A) : bool :=
  match c with
  | Return _ => true
  | Throw _ => false
  end.

Notation "x <- c ;; k" := (bind c (fun x => k))
  (at level 100, c at next level, right associativity).

(** [try { body } catch (error) { handler }]. *)
Definition try_catch {A} (body : completion A) (handler : error -> A) : A :=
  match body with
  | Return a => a
  | Throw e => handler e
  end.

(** [new TypeError(msg)]: only the message of an error is read. *)
Definition TypeError (msg : string) : error := Error msg.

(** [v.k] for a property name [k] that no built-in prototype defines
    (every name the sources read is of that kind): the own property of
    an object, [undefined] on any other non-nullish value, and a
    [TypeError] on [null] and [undefined]. *)
Definition get (v : value) (k : string) : completion value :=
  match v with
  | Undefined => Throw (TypeError ("Cannot read properties of undefined (reading '" ++ k ++ "')"))
  | Null => Throw (TypeError ("Cannot read properties of null (reading '" ++ k ++ "')"))
  | Obj fields => Return (default Undefined (own fields k))
  | _ => Return Undefined
  end.

(** [v[0]] on a value: the first element of an array, the first
    character of a string, [undefined] where there is none. *)
Definition first (v : value) : completion value :=
  match v with
  | Undefined => Throw (TypeError "Cannot read properties of undefined (reading '0')")
  | Null => Throw (TypeError "Cannot read properties of null (reading '0')")
  | Arr (x :: _) => Return x
  | Str (String c _) => Return (Str (String c ""))
  | _ => Return Undefined
  end.

(** [v?.k]. *)
Definition get_opt (v : value) (k : string) : value :=
  match v with
  | Obj fields => default Undefined (own fields k)
  | _ => Undefined
  end.

(** [Object.keys(v).length] for a non-nullish [v]: own enumerable string
    keys, that is the fields of an object, the indices of an array or of
    a string, and nothing for a number or a boolean.  (A string is
    counted in bytes here and in code units there; the sources only test
    the count against zero.) *)
Definition keys_length (v : value) : nat :=
  match v with
  | Obj fields => List.length fields
  | Arr items => List.length items
  | Str s => String.length s
  | _ => O
  end.

(** [ToString].  An array joins the strings of its elements with ",",
    [null] and [undefined] elements giving the empty string.  A plain
    object gives "[object Object]", unless it has an own property
    "toString": a parsed JSON value is never callable, so
    [OrdinaryToPrimitive] finds no usable method and throws. *)
Fixpoint ToString (v : value) : completion string :=
  match v with
  | Undefined => Return "undefined"
  | Null => Return "null"
  | Bool true => Return "true"
  | Bool false => Return "false"
  | Num n => Return (Number_toString n)
  | Str s => Return s
  | Arr items =>
      (fix join (l : list value) : completion string :=
         match l with
         | [] => Return ""
         | x :: rest =>
             bind (match x with
                   | Undefined | Null => Return ""
                   | _ => ToString x
                   end) (fun sx =>
             match rest with
             | [] => Return sx
             | _ => bind (join rest) (fun sr => Return (sx ++ "," ++ sr))
             end)
         end) items
  | Obj fields =>
      match own fields "toString" with
      | Some _ => Throw (TypeError "Cannot convert object to primitive value")
      | None => Return "[object Object]"
      end
  end.

(** ** Strings *)

(** [s.startsWith(p)]. *)
Fixpoint startsWith (s p : string) {struct p} : bool :=
  match p with
  | EmptyString => true
  | String a p' =>
      match s with
      | EmptyString => false
      | String b s' => Ascii.eqb a b && startsWith s' p'
      end
  end.

(** ** String to number *)

(** White space and line terminators, which [parseInt] and [parseFloat]
    skip.  A string holds the UTF-8 encoding of its characters: the
    ASCII ones (tab, line feed, vertical tab, form feed, carriage
    return, space) are one byte, U+00A0 is two, and U+1680,
    U+2000 to U+200A, U+2028, U+2029, U+202F, U+205F, U+3000 and U+FEFF
    are three. *)
Definition is_space (c : ascii) : bool :=
  let n := nat_of_ascii c in
  (Nat.eqb n 32 || (Nat.leb 9 n && Nat.leb n 13))%bool.

Definition is_space2 (c1 c2 : ascii) : bool :=
  (Nat.eqb (nat_of_ascii c1) 194 && Nat.eqb (nat_of_ascii c2) 160)%bool.

Definition is_space3 (c1 c2 c3 : ascii) : bool :=
  let n1 := nat_of_ascii c1 in
  let n2 := nat_of_ascii c2 in
  let n3 := nat_of_ascii c3 in
  (Nat.eqb n1 225 && Nat.eqb n2 154 && Nat.eqb n3 128
   || Nat.eqb n1 226 && Nat.eqb n2 128
      && (Nat.leb 128 n3 && Nat.leb n3 138
          || Nat.eqb n3 168 || Nat.eqb n3 169 || Nat.eqb n3 175)
   || Nat.eqb n1 226 && Nat.eqb n2 129 && Nat.eqb n3 159
   || Nat.eqb n1 227 && Nat.eqb n2 128 && Nat.eqb n3 128
   || Nat.eqb n1 239 && Nat.eqb n2 187 && Nat.eqb n3 191)%bool.

Fixpoint trim_start (s : string) : string :=
  match s with
  | String c1 r1 =>
      if is_space c1 then trim_start r1
      else
        match r1 with
        | String c2 r2 =>
            if is_space2 c1 c2 then trim_start r2
            else
              match r2 with
              | String c3 r3 => if is_space3 c1 c2 c3 then trim_start r3 else s
              | EmptyString => s
              end
        | EmptyString => s
        end
  | EmptyString => s
  end.

Definition digit_of (radix : Z) (c : ascii) : option Z :=
  let n := Z.of_nat (nat_of_ascii c) in
  let d := if (48 <=? n) && (n <=? 57) then n - 48
           else if (97 <=? n) && (n <=? 122) then n - 87
           else if (65 <=? n) && (n <=? 90) then n - 55
           else radix in
  if d <? radix then Some d else None.

(** Longest prefix of digits in the radix: its value, its length and the
    rest of the string. *)
Fixpoint read_digits (radix : Z) (s : string) (acc : Z) (count : nat)
  : Z * nat * string :=
  match s with
  | String c r =>
      match digit_of radix c with
      | Some d => read_digits radix r (acc * radix + d) (S count)
      | None => (acc, count, s)
      end
  | EmptyString => (acc, count, s)
  end.

Definition read_sign (s : string) : bool * string :=
  match s with
  | String "-" r => (true, r)
  | String "+" r => (false, r)
  | _ => (false, s)
  end.

(** [parseInt(string)] with no radix argument. *)
Definition parseInt_string (input : string) : number :=
  let '(neg, s) := read_sign (trim_start input) in
  let '(radix, s) :=
    match s with
    | String "0" (String "x" r) => (16, r)
    | String "0" (String "X" r) => (16, r)
    | _ => (10, s)
    end in
  let '(mathInt, count, _) := read_digits radix s 0 O in
  match count with
  | O => NaN
  | _ => to_double (if neg then - mathInt else mathInt) 0
  end.

(** The exponent part of a decimal literal, when one is present:
    [e] or [E], an optional sign and at least one digit. *)
Definition read_exponent (s : string) : Z :=
  match s with
  | String c r =>
      if Ascii.eqb c "e" || Ascii.eqb c "E" then
        let '(neg, r') := read_sign r in
        let '(x, count, _) := read_digits 10 r' 0 O in
        match count with
        | O => 0
        | _ => if neg then - x else x
        end
      else 0
  | EmptyString => 0
  end.

(** [parseFloat(string)]: the longest prefix that is a decimal literal. *)
Definition parseFloat_string (input : string) : number :=
  let '(neg, s) := read_sign (trim_start input) in
  if startsWith s "Infinity" then Inf neg else
  let '(int_part, int_count, s1) := read_digits 10 s 0 O in
  let '(mantissa, frac_count, s2) :=
    match s1 with
    | String "." r => read_digits 10 r int_part O
    | _ => (int_part, O, s1)
    end in
  match int_count, frac_count with
  | O, O => NaN
  | _, _ =>
      let m := if neg then - mantissa else mantissa in
      to_double m (read_exponent s2 - Z.of_nat frac_count)
  end.

(** [parseInt(v)] and [parseFloat(v)] on an arbitrary value: the argument
    goes through [ToString] first. *)
Definition parseInt (v : value) : completion number :=
  bind (ToString v) (fun s => Return (parseInt_string s)).

Definition parseFloat (v : value) : completion number :=
  bind (ToString v) (fun s => Return (parseFloat_string s)).

(** [s.toLowerCase()] on ASCII letters and [s.includes(sub)]. *)
Definition lower (c : ascii) : ascii :=
  let n := nat_of_ascii c in
  if (Nat.leb 65 n && Nat.leb n 90)%bool then ascii_of_nat (n + 32) else c.

Fixpoint toLowerCase (s : string) : string :=
  match s with
  | EmptyString => EmptyString
  | String c r => String (lower c) (toLowerCase r)
  end.

Fixpoint string_includes (s sub : string) : bool :=
  startsWith s sub ||
  match s with
  | EmptyString => false
  | String _ r => string_includes r sub
  end.

(** [v === "literal"]. *)
Definition is_string (v : value) (literal : string) : bool :=
  match v with
  | Str s => String.eqb s literal
  | _ => false
  end.

(** [list.includes(v)] for a list of string literals ([SameValueZero]):
    only a string equal to an element is included. *)
Definition includes (l : list string) (v : value) : bool :=
  match v with
  | Str s => existsb (String.eqb s) l
  | _ => false
  end.

End JS.


(* ================================================================== *)
(** * services/nlp-classifier.js *)
(* ================================================================== *)

Module Classifier.
Import JS.

Record classification : Type := {
  intent : value;
  urgency : number;
  estimatedValue : number;
  persona : value;
  vertical : value;
  language : value;
  score : number;
  conversionProbability : number;
  summary : value;
  keyPhrases : value;
  embeddings : value
}.

Definition validIntents : list string :=
  ["buying"; "selling"; "suing"; "asking"; "complaining"; "scheduling"; "other"].
Definition validPersonas : list string :=
  ["shark"; "empath"; "concierge"; "professional"; "closer"].
Definition validVerticals : list string :=
  ["law"; "real_estate"; "ecommerce"; "consulting"; "services"; "other"].

Definition validateIntent (intent : value) : value :=
  if includes validIntents intent then intent else Str "other".

Definition validatePersona (persona : value) : value :=
  if includes validPersonas persona then persona else Str "professional".

Definition validateVertical (vertical : value) : value :=
  if includes validVerticals vertical then vertical else Str "other".

(** What [classifyLead] reaches outside the process:
    [create rawData] is the awaited
    [getOpenAI().chat.completions.create({...})] for the prompt built from
    [rawData] (the response object, or the error it rejects with: missing
    key, network failure, timeout, HTTP error);
    [JSON_parse text] is [JSON.parse(text)] (the parsed value, or the
    [SyntaxError] it throws). *)
Record backend : Type := {
  create : value -> completion value;
  JSON_parse : string -> completion value
}.

(** [options]: both members are optional. *)
Record options : Type := {
  opt_preferredLanguage : option string;
  opt_detectLanguage : option bool
}.

Definition no_options : options :=
  {| opt_preferredLanguage := None; opt_detectLanguage := None |}.

(** The result of the [catch] branch. *)
Definition failure_result (preferredLanguage : string) : classification :=
  {| intent := Str "other";
     urgency := Fin 5 0;
     estimatedValue := Fin 0 0;
     persona := Str "professional";
     vertical := Str "other";
     language := Str preferredLanguage;
     score := Fin 30 0;
     conversionProbability := Fin 3 (-1);
     summary := Str "Classification failed - manual review needed";
     keyPhrases := Arr [];
     embeddings := Null |}.

(** [response.choices[0].message.content], as the string [JSON.parse]
    reads it. *)
Definition reply_text (response : value) : completion string :=
  choices <- get response "choices" ;;
  choice <- first choices ;;
  msg <- get choice "message" ;;
  content <- get msg "content" ;;
  ToString content.

(** The body of the [try] block. *)
Definition classify (ai : backend) (rawData : value) (preferredLanguage : string)
  : completion classification :=
  response <- create ai rawData ;;
  text <- reply_text response ;;
  result <- JSON_parse ai text ;;
  r_intent <- get result "intent" ;;
  r_urgency <- get result "urgency" ;;
  p_urgency <- parseInt r_urgency ;;
  r_value <- get result "estimatedValue" ;;
  p_value <- parseFloat r_value ;;
  r_persona <- get result "persona" ;;
  r_vertical <- get result "vertical" ;;
  r_language <- get result "language" ;;
  r_score <- get result "score" ;;
  p_score <- parseInt r_score ;;
  r_probability <- get result "conversionProbability" ;;
  p_probability <- parseFloat r_probability ;;
  r_summary <- get result "summary" ;;
  r_keyPhrases <- get result "keyPhrases" ;;
  Return
    {| intent := validateIntent r_intent;
       urgency := Math_min (Fin 10 0) (Math_max (Fin 1 0) (number_or p_urgency (Fin 5 0)));
       estimatedValue := number_or p_value (Fin 0 0);
       persona := validatePersona r_persona;
       vertical := validateVertical r_vertical;
       language := or_else r_language (Str preferredLanguage);
       score := Math_min (Fin 100 0) (Math_max (Fin 1 0) (number_or p_score (Fin 50 0)));
       conversionProbability :=
         Math_min (Fin 1 0) (Math_max (Fin 0 0) (number_or p_probability (Fin 5 (-1))));
       summary := or_else r_summary (Str "");
       keyPhrases := or_else r_keyPhrases (Arr []);
       embeddings := Null |}.

Definition classifyLead (ai : backend) (rawData : value) (opts : options)
  : classification :=
  let preferredLanguage := default "en" (opt_preferredLanguage opts) in
  try_catch (classify ai rawData preferredLanguage)
            (fun error => failure_result preferredLanguage).

(** ** analyzeSentiment *)

Record sentiment_analysis : Type := {
  sentiment : number;
  previousSentiment : value;
  emotions : value;
  objections : value;
  buyingSignals : value
}.

(** The result of the [catch] branch. *)
Definition neutral_result (previous : value) : sentiment_analysis :=
  {| sentiment := Fin 0 0;
     previousSentiment := previous;
     emotions := Obj [];
     objections := Arr [];
     buyingSignals := Arr [] |}.

(** The body of the [try] block; here [create ai text] is the awaited
    completion request that carries the sentiment prompt and [text]. *)
Definition analyze (ai : backend) (text previous : value)
  : completion sentiment_analysis :=
  response <- create ai text ;;
  content <- reply_text response ;;
  result <- JSON_parse ai content ;;
  r_sentiment <- get result "sentiment" ;;
  p_sentiment <- parseFloat r_sentiment ;;
  r_emotions <- get result "emotions" ;;
  r_objections <- get result "objections" ;;
  r_buyingSignals <- get result "buyingSignals" ;;
  Return
    {| sentiment :=
         Math_min (Fin 1 0) (Math_max (Fin (-1) 0) (number_or p_sentiment (Fin 0 0)));
       previousSentiment := previous;
       emotions := or_else r_emotions (Obj []);
       objections := or_else r_objections (Arr []);
       buyingSignals := or_else r_buyingSignals (Arr []) |}.

(** [analyzeSentiment(text, previousSentiment = null)]; [previous] is
    [None] when the argument is omitted or [undefined]. *)
Definition analyzeSentiment (ai : backend) (text : value) (previous : option value)
  : sentiment_analysis :=
  let previousSentiment := default Null previous in
  try_catch (analyze ai text previousSentiment)
            (fun error => neutral_result previousSentiment).

End Classifier.

(* ================================================================== *)
(** * services/event-bus.js *)
(* ================================================================== *)

Module EventBus.
Import JS.

(** What a function does when it is called with a payload: it completes
    (returning a value or a promise that fulfils), it throws before
    returning, or it returns a promise that rejects.  [E] is the type of
    what it throws or rejects with. *)
Inductive reaction_of (E : Type) : Type :=
| Completes
| ThrowsNow (e : E)
| Rejects (e : E).
Arguments Completes {E}.
Arguments ThrowsNow {E} & e.
Arguments Rejects {E} & e.

(** What a callback can throw or reject with: an [Error] object, or any
    other value ([throw null] and [Promise.reject(undefined)] are legal). *)
Inductive thrown : Type :=
| ErrorObject (e : error)
| Value (v : value).
Coercion ErrorObject : error >-> thrown.

(** The reaction of a callback handed to [subscribe]. *)
Definition reaction : Type := reaction_of thrown.

(** A function registered with the emitter: the [wrappedHandler] that
    [subscribe] builds around a callback, or a function attached with
    the inherited [on].  The sources attach none of the second kind;
    such a function is taken to fail with [Error] objects only, which is
    what the [catch] blocks of the callers of [emit] read. *)
Inductive registered : Type :=
| Wrapped (handler : value -> reaction)
| Plain (f : value -> reaction_of error).

(** A registered listener. *)
Record listener : Type := {
  id : nat;
  registration : registered
}.

(** Whether the listener was registered through [subscribe] and so runs
    inside its [wrappedHandler]. *)
Definition guarded (l : listener) : bool :=
  match registration l with
  | Wrapped _ => true
  | Plain _ => false
  end.

Record entry : Type := {
  event : string;
  data : value;
  timestamp : string
}.

(** The emitter: listeners per event name in registration order (the
    [_events] table of [EventEmitter]) and the history array. *)
Record bus : Type := {
  listeners : gmap string (list listener);
  history : list entry;
  historyLimit : nat;
  next_id : nat
}.

(** [new EventBus()]. *)
Definition create : bus :=
  {| listeners := ∅; history := []; historyLimit := 1000%nat; next_id := O |}.

(** [LoggedError msg e] is [logger.error(msg, { error: e.message, stack:
    e.stack })] for an [Error] object [e]; [LoggedValue msg m s] is the
    same call with the two members read from another value. *)
Inductive effect : Type :=
| Debug (msg : string)
| Called (listener_id : nat) (payload : value)
| LoggedError (msg : string) (e : error)
| LoggedValue (msg : string) (error_member stack_member : value)
| Unhandled (e : error).

(** [array.slice(-n)]: the last [n] elements, and the whole array when
    [n] is 0 (since [-0] is [0]). *)
Definition slice_last {A} (n : nat) (l : list A) : list A :=
  match n with
  | O => l
  | _ => skipn (length l - n) l
  end.

(** The [catch] block of [wrappedHandler]: it reads [error.message] and
    [error.stack] to build the log entry, and reading a member of [null]
    or [undefined] throws. *)
Definition caught (event : string) (t : thrown) : completion effect :=
  let msg := "Event handler error for " ++ event in
  match t with
  | ErrorObject e => Return (LoggedError msg e)
  | Value v =>
      error_member <- get v "message" ;;
      stack_member <- get v "stack" ;;
      Return (LoggedValue msg error_member stack_member)
  end.

(** [wrappedHandler(data)], that is
    [try { await handler(data) } catch (error) { logger.error(...) }]
    in an [async] function: what it does before it returns its promise,
    and what happens when that promise settles.  A synchronous throw of
    the callback is caught at once, a rejection when the awaited promise
    settles.  The function never throws; its promise rejects when the
    [catch] block itself throws, and nothing handles that rejection. *)
Definition wrappedHandler (event : string) (handler : value -> reaction)
  (payload : value) : list effect * list effect :=
  match handler payload with
  | Completes => ([], [])
  | ThrowsNow t =>
      match caught event t with
      | Return logged => ([logged], [])
      | Throw e => ([], [Unhandled e])
      end
  | Rejects t =>
      match caught event t with
      | Return logged => ([], [logged])
      | Throw e => ([], [Unhandled e])
      end
  end.

(** The outcome of the inherited [emit] on the listeners of one event:
    its completion, what happens before it returns, and what the pending
    promise reactions do afterwards.  The listeners are called in
    registration order.  A function attached with [on] that throws
    aborts the dispatch; one that rejects leaves an unhandled rejection. *)
Fixpoint dispatch (event : string) (payload : value) (ls : list listener)
  : completion unit * list effect * list effect :=
  match ls with
  | [] => (Return tt, [], [])
  | l :: rest =>
      let call := Called (id l) payload in
      let '(r, now, later) := dispatch event payload rest in
      match registration l with
      | Wrapped handler =>
          let '(logged, pending) := wrappedHandler event handler payload in
          (r, call :: logged ++ now, pending ++ later)%list
      | Plain f =>
          match f payload with
          | Completes => (r, call :: now, later)
          | ThrowsNow e => (Throw e, [call], [])
          | Rejects e => (r, call :: now, Unhandled e :: later)
          end
      end
  end.

Record emission : Type := {
  returned : completion bool;
  after : bus;
  effects : list effect;
  deferred : list effect
}.

(** [emit(event, data)], at the instant [now].  For an "error" event
    without listeners the inherited [emit] throws an error; its message
    goes on with the payload as [util.inspect] prints it, which is left
    out here: nothing reads that message. *)
Definition emit (now : string) (event : string) (payload : value) (b : bus)
  : emission :=
  let pushed :=
    (history b ++ [{| event := event; data := payload; timestamp := now |}])%list in
  let trimmed :=
    if (historyLimit b <? length pushed)%nat
    then slice_last (historyLimit b) pushed
    else pushed in
  let b' := {| listeners := listeners b; history := trimmed;
               historyLimit := historyLimit b; next_id := next_id b |} in
  let log := Debug ("Event emitted: " ++ event) in
  match default [] (listeners b !! event) with
  | [] =>
      {| returned := if String.eqb event "error"
                     then Throw (Error "Unhandled error.")
                     else Return false;
         after := b'; effects := [log]; deferred := [] |}
  | ls =>
      let '(r, now_effects, later) := dispatch event payload ls in
      {| returned := (_ <- r ;; Return true);
         after := b'; effects := log :: now_effects; deferred := later |}
  end.

(** The inherited [on(event, listener)] for a function to register. *)
Definition attach (event : string) (r : registered) (b : bus) : bus :=
  let l := {| id := next_id b; registration := r |} in
  {| listeners := <[event := (default [] (listeners b !! event) ++ [l])%list]> (listeners b);
     history := history b;
     historyLimit := historyLimit b;
     next_id := S (next_id b) |}.

Definition on (event : string) (f : value -> reaction_of error) (b : bus) : bus :=
  attach event (Plain f) b.

(** [subscribe(event, handler)]: registers [wrappedHandler]. *)
Definition subscribe (event : string) (handler : value -> reaction) (b : bus) : bus :=
  attach event (Wrapped handler) b.



(** [getHistory(limit)] and [getHistoryByType(eventType, limit)]. *)
Definition getHistory (limit : nat) (b : bus) : list entry :=
  slice_last limit (history b).

Definition getHistoryByType (eventType : string) (limit : nat) (b : bus)
  : list entry :=
  slice_last limit (filter (fun e => event e = eventType) (history b)).

End EventBus.

(* ================================================================== *)
(** * routes/webhook.js *)
(* ================================================================== *)

Module Webhook.
Import JS.
Import Classifier.

(** ** calculatePriority *)

Definition calculatePriority (c : classification) : Z :=
  let priority := 5 in
  let priority :=
    if ge (urgency c) (Fin 8 0) then priority + 3
    else if ge (urgency c) (Fin 5 0) then priority + 1
    else priority in
  let priority :=
    if gt (estimatedValue c) (Fin 50000 0) then priority + 2
    else if gt (estimatedValue c) (Fin 10000 0) then priority + 1
    else priority in
  let priority := if is_string (intent c) "buying" then priority + 1 else priority in
  let priority := if is_string (intent c) "suing" then priority + 2 else priority in
  Z.min priority 10.

(** ** Requests and payload inspection *)

(** The request as the handler reads it: the parsed body, the header
    table (names in lower case) and the peer address. *)
Record request : Type := {
  body : value;
  headers : gmap string string;
  ip : value
}.

(** [req.headers[name]]. *)
Definition header (req : request) (name : string) : value :=
  match headers req !! name with
  | Some s => Str s
  | None => Undefined
  end.

Definition detectChannel (req : request) : string :=
  let userAgent := default "" (toLowerCase <$> headers req !! "user-agent") in
  if string_includes userAgent "whatsapp" then "whatsapp"
  else if string_includes userAgent "twilio" then "sms"
  else if truthy (header req "x-fb-signature") then "facebook"
  else if truthy (header req "x-telegram-bot-api-secret-token") then "telegram"
  else "web".

(** The members are read up front: reading is pure, and on a [null] or
    [undefined] payload the first read already throws, as the first
    operand of the [||] chain does. *)
Definition extractIdentifier (rawData : value) : completion value :=
  phone <- get rawData "phone" ;;
  from <- get rawData "from" ;;
  email <- get rawData "email" ;;
  sender <- get rawData "sender" ;;
  customer_phone <- get rawData "customer_phone" ;;
  contact <- get rawData "contact" ;;
  Return (or_else phone (or_else from (or_else email (or_else sender
         (or_else customer_phone (or_else (get_opt contact "phone") Null)))))).

Record contact_info : Type := {
  name : value;
  phone : value;
  email : value
}.

Definition extractContactInfo (rawData : value) : completion contact_info :=
  r_name <- get rawData "name" ;;
  contact_name <- get rawData "contact_name" ;;
  customer_name <- get rawData "customer_name" ;;
  contact <- get rawData "contact" ;;
  sender_name <- get rawData "sender_name" ;;
  r_phone <- get rawData "phone" ;;
  from <- get rawData "from" ;;
  customer_phone <- get rawData "customer_phone" ;;
  mobile <- get rawData "mobile" ;;
  r_email <- get rawData "email" ;;
  customer_email <- get rawData "customer_email" ;;
  Return
    {| name := or_else r_name (or_else contact_name (or_else customer_name
               (or_else (get_opt contact "name") (or_else sender_name Null))));
       phone := or_else r_phone (or_else from (or_else customer_phone
                (or_else (get_opt contact "phone") (or_else mobile Null))));
       email := or_else r_email (or_else customer_email
                (or_else (get_opt contact "email") Null)) |}.

(** ** The two statements the handler sends to the database *)

(** Parameters of the insert into [universal_leads_ledger].  [raw_data]
    and [context_vectors] stand for the [JSON.stringify] of the value
    they hold. *)
Record lead_row : Type := {
  source_channel : value;
  source_identifier : value;
  source_provider : value;
  raw_data : value;
  context_vectors : value;
  contact_name : value;
  contact_phone : value;
  contact_email : value;
  detected_intent : value;
  detected_urgency : number;
  estimated_value : number;
  required_persona : value;
  business_vertical : value;
  primary_language : value;
  lead_score : number;
  conversion_probability : number
}.

(** Parameters of the insert into [audit_log]. *)
Record audit_row : Type := {
  event_type : string;
  event_source : string;
  lead_id : value;
  audited : classification;
  processingTime : Z;
  ip_address : value;
  user_agent : value
}.

Inductive query : Type :=
| InsertLead (row : lead_row)
| InsertAudit (row : audit_row).

Definition lead_params (sourceChannel sourceIdentifier sourceProvider rawData : value)
  (contactInfo : contact_info) (c : classification) : lead_row :=
  {| source_channel := sourceChannel;
     source_identifier := sourceIdentifier;
     source_provider := sourceProvider;
     raw_data := rawData;
     context_vectors := or_else (embeddings c) (Obj []);
     contact_name := name contactInfo;
     contact_phone := phone contactInfo;
     contact_email := email contactInfo;
     detected_intent := intent c;
     detected_urgency := urgency c;
     estimated_value := estimatedValue c;
     required_persona := persona c;
     business_vertical := vertical c;
     primary_language := or_else (language c) (Str "en");
     lead_score := number_or (score c) (Fin 50 0);
     conversion_probability := number_or (conversionProbability c) (Fin 5 (-1)) |}.

(** The classification as the object it is in the event payload. *)
Definition to_value (c : classification) : value :=
  Obj [("intent", intent c);
       ("urgency", Num (urgency c));
       ("estimatedValue", Num (estimatedValue c));
       ("persona", persona c);
       ("vertical", vertical c);
       ("language", language c);
       ("score", Num (score c));
       ("conversionProbability", Num (conversionProbability c));
       ("summary", summary c);
       ("keyPhrases", keyPhrases c);
       ("embeddings", embeddings c)].

(** ** The handler and its surroundings *)

(** Everything the handler obtains from outside: the generated request
    identifier, the three [Date.now()] readings, the instant stamped on
    the emitted event, the classification backend, the answer of the
    database to each statement, and whether [NODE_ENV] is
    "development". *)
Record world : Type := {
  requestId : string;
  startTime : Z;
  auditTime : Z;
  endTime : Z;
  emitTime : string;
  ai : backend;
  db_query : query -> completion value;
  development : bool
}.

Inductive effect : Type :=
| Info (msg : string)
| Failure (msg : string) (e : error)
| Classified (rawData : value)
| Queried (q : query) (succeeded : bool)
| Emitted (event : string) (payload : value)
| Bus (e : EventBus.effect)
| Responded (status : Z) (json : value).

(** The observable state: what has happened so far, the event bus, and
    the promise reactions the bus left pending. *)
Record state : Type := {
  trace : list effect;
  bus : EventBus.bus;
  pending : list EventBus.effect
}.

Definition start (b : EventBus.bus) : state :=
  {| trace := []; bus := b; pending := [] |}.

Definition M (A : Type) : Type := state -> completion A * state.

Definition ret {A} (a : A) : M A := fun s => (Return a, s).

Definition lift {A} (c : completion A) : M A := fun s => (c, s).

Definition bindM {A B} (m : M A) (k : A -> M B) : M B :=
  fun s =>
    match m s with
    | (Return a, s') => k a s'
    | (Throw e, s') => (Throw e, s')
    end.

Notation "x <~ c ;; k" := (bindM c (fun x => k))
  (at level 100, c at next level, right associativity).

Definition tell (e : effect) : M unit :=
  fun s => (Return tt,
            {| trace := (trace s ++ [e])%list; bus := bus s; pending := pending s |}).

Definition try_catchM {A} (body : M A) (handler : error -> M A) : M A :=
  fun s =>
    match body s with
    | (Return a, s') => (Return a, s')
    | (Throw e, s') => handler e s'
    end.

(** [await classifyLead(rawData, { preferredLanguage: 'en', detectLanguage: true })]. *)
Definition classify_step (w : world) (rawData : value) : M classification :=
  _ <~ tell (Classified rawData) ;;
  ret (classifyLead (ai w) rawData
         {| opt_preferredLanguage := Some "en"; opt_detectLanguage := Some true |}).

(** [await db.query(text, params)]. *)
Definition run_query (w : world) (q : query) : M value :=
  fun s =>
    let answer := db_query w q in
    (answer, snd (tell (Queried q (returns answer)) s)).

(** [eventBus.emit(event, payload)]. *)
Definition publish (w : world) (event : string) (payload : value) : M bool :=
  fun s =>
    let e := EventBus.emit (emitTime w) event payload (bus s) in
    (EventBus.returned e,
     {| trace := (trace s ++ Emitted event payload :: map Bus (EventBus.effects e))%list;
        bus := EventBus.after e;
        pending := (pending s ++ EventBus.deferred e)%list |}).

(** [res.status(status).json(json)]. *)
Definition respond (status : Z) (json : value) : M unit :=
  tell (Responded status json).

(** [router.post('/ingest', async (req, res) => { ... })]. *)
Definition ingest (w : world) (req : request) : M unit :=
  try_catchM
    (let rawData := body req in
     let sourceChannel :=
       or_else (header req "x-source-channel") (Str (detectChannel req)) in
     sourceIdentifier <~
       (if truthy (header req "x-source-id")
        then ret (header req "x-source-id")
        else lift (extractIdentifier rawData)) ;;
     let sourceProvider := or_else (header req "x-source-provider") (Str "unknown") in
     _ <~ tell (Info ("[" ++ requestId w ++ "] Ingesting")) ;;
     if negb (truthy rawData) || (keys_length rawData =? 0)%nat then
       respond 400 (Obj [("success", Bool false);
                         ("error", Str "Empty payload");
                         ("requestId", Str (requestId w))])
     else
       classification <~ classify_step w rawData ;;
       _ <~ tell (Info ("[" ++ requestId w ++ "] Classification complete")) ;;
       contactInfo <~ lift (extractContactInfo rawData) ;;
       lead <~ run_query w (InsertLead
                 (lead_params sourceChannel sourceIdentifier sourceProvider
                              rawData contactInfo classification)) ;;
       rows <~ lift (get lead "rows") ;;
       row <~ lift (first rows) ;;
       leadId <~ lift (get row "id") ;;
       _ <~ run_query w (InsertAudit
              {| event_type := "lead_created";
                 event_source := "api";
                 lead_id := leadId;
                 audited := classification;
                 processingTime := auditTime w - startTime w;
                 ip_address := ip req;
                 user_agent := header req "user-agent" |}) ;;
       _ <~ publish w "lead:new"
              (Obj [("leadId", leadId);
                    ("classification", to_value classification);
                    ("sourceChannel", sourceChannel);
                    ("priority", Num (Fin (calculatePriority classification) 0))]) ;;
       respond 202
         (Obj [("success", Bool true);
               ("leadId", leadId);
               ("requestId", Str (requestId w));
               ("processingTimeMs", Num (Fin (endTime w - startTime w) 0));
               ("classification",
                Obj [("intent", intent classification);
                     ("urgency", Num (urgency classification));
                     ("persona", persona classification);
                     ("language", language classification)])]))
    (fun error =>
       _ <~ tell (Failure ("[" ++ requestId w ++ "] Ingestion failed") error) ;;
       respond 500
         (Obj [("success", Bool false);
               ("error", Str "Ingestion failed");
               ("requestId", Str (requestId w));
               ("message", if development w then Str (message error) else Undefined)])).

(** One execution of the handler on an idle bus. *)
Definition handle (w : world) (req : request) (b : EventBus.bus) : state :=
  snd (ingest w req (start b)).

End Webhook.

(* ================================================================== *)
(** * providers/index.js *)
(* ================================================================== *)

Module Providers.
Import JS.

(** A provider object: the class it was built from, named by the type and
    name its constructor sets, and the configuration it was given. *)
Record instance : Type := {
  type : string;
  name : string;
  settings : value
}.

(** The classes, by type and name. *)
Definition ProviderRegistry : list (string * list string) :=
  [("voice", ["vapi"; "twilio"]);
   ("messaging", ["whatsapp_business"; "twilio_sms"]);
   ("email", ["sendgrid"; "resend"]);
   ("esignature", ["docusign"; "pandadoc"]);
   ("payment", ["stripe"; "paypal"])].

Fixpoint lookup_type (table : list (string * list string)) (t : string)
  : option (list string) :=
  match table with
  | [] => None
  | (t', names) :: rest => if String.eqb t' t then Some names else lookup_type rest t
  end.

(** [getProvider(type, name, config)].  A type or a name that the table
    does not list throws.  (A type or name that only hits a member
    inherited from [Object.prototype] does not yield a provider either:
    the [new] or the later [initialize()] call throws, so such a key is
    treated here as unlisted.) *)
Definition getProvider (t n : string) (config : value) : completion instance :=
  match lookup_type ProviderRegistry t with
  | None => Throw (Error ("Unknown provider type: " ++ t))
  | Some names =>
      if existsb (String.eqb n) names
      then Return {| type := t; name := n; settings := config |}
      else Throw (Error ("Unknown provider: " ++ n ++ " for type " ++ t))
  end.

(** The [defaults] table of [getDefaultProvider]. *)
Definition defaults : list (string * string) :=
  [("voice", "vapi");
   ("messaging", "whatsapp_business");
   ("email", "sendgrid");
   ("esignature", "docusign");
   ("payment", "stripe")].

Fixpoint lookup_default (table : list (string * string)) (t : string)
  : option string :=
  match table with
  | [] => None
  | (t', n) :: rest => if String.eqb t' t then Some n else lookup_default rest t
  end.

(** [getDefaultProvider(type, config)].  For a type the table does not
    hold, [defaults[type]] is [undefined], and [getProvider] is asked for
    the property "undefined" of the type's classes. *)
Definition getDefaultProvider (t : string) (config : value) : completion instance :=
  getProvider t (default "undefined" (lookup_default defaults t)) config.

End Providers.

(* ================================================================== *)
(** * services/provider-manager.js *)
(* ================================================================== *)

Module ProviderManager.
Import JS.
Import Providers.

(** A row of [provider_configurations], as far as the manager reads it. *)
Record configuration : Type := {
  row_id : string;
  provider_type : string;
  provider_name : string;
  is_default : bool;
  config_blob : value
}.

(** The value stored in [this.providers] for one key. *)
Record data : Type := {
  instance : Providers.instance;
  config : configuration;
  isDefault : bool;
  lastHealthCheck : option Z;
  isHealthy : bool
}.

(** [this.providers]: a [Map] from key to data; iteration follows
    insertion order, so the map is kept as the list of its entries. *)
Definition providers : Type := list (string * data).

(** The template literal [`${type}:${name}`]. *)
Definition key_of (t n : string) : string := t ++ ":" ++ n.

(** [key.startsWith(`${type}:`)]. *)
Definition of_type (t : string) (key : string) : bool :=
  startsWith key (t ++ ":").

(** [map.get(key)]. *)
Fixpoint Map_get (key : string) (ps : providers) : option data :=
  match ps with
  | [] => None
  | (k, d) :: rest => if String.eqb k key then Some d else Map_get key rest
  end.

(** [map.set(key, d)]: an existing key keeps its position. *)
Fixpoint Map_set (key : string) (d : data) (ps : providers) : providers :=
  match ps with
  | [] => [(key, d)]
  | (k, d') :: rest =>
      if String.eqb k key then (k, d) :: rest else (k, d') :: Map_set key d rest
  end.

(** What the manager reaches outside the process: [initialize()] and
    [healthCheck()] of each provider object, the answer of the database
    to each statement, and the successive readings of [new Date()]. *)
Inductive statement : Type :=
| ClearDefaults (t : string)
| MarkDefault (t n : string)
| UpdateHealth (id : string) (status : string).

Record world : Type := {
  provider_initialize : Providers.instance -> completion unit;
  healthCheck : string -> completion bool;
  db_query : statement -> completion unit;
  date : nat -> Z
}.

Inductive effect : Type :=
| Debug (msg : string)
| Info (msg : string)
| Warn (msg : string)
| Failure (msg : string) (e : error)
| Queried (q : statement) (succeeded : bool).

(** ** initializeProvider and the loading loop of initialize *)

(** The constructor is handed the row spread over its [config] column;
    the provider object keeps that configuration for its own use and
    the manager never reads it back, so [settings] holds the column. *)

Definition initializeProvider (w : world) (cfg : configuration) (ps : providers)
  : completion unit * providers :=
  let key := key_of (provider_type cfg) (provider_name cfg) in
  match getProvider (provider_type cfg) (provider_name cfg) (config_blob cfg) with
  | Throw e => (Throw e, ps)
  | Return provider =>
      match provider_initialize w provider with
      | Throw e => (Throw e, ps)
      | Return _ =>
          (Return tt,
           Map_set key {| instance := provider;
                          config := cfg;
                          isDefault := is_default cfg;
                          lastHealthCheck := None;
                          isHealthy := true |} ps)
      end
  end.

(** The [for] loop of [initialize] over the rows the database returned:
    a provider that fails to initialise is logged and skipped. *)
Fixpoint initialize (w : world) (rows : list configuration) (ps : providers)
  : providers :=
  match rows with
  | [] => ps
  | cfg :: rest => initialize w rest (snd (initializeProvider w cfg ps))
  end.

(** ** get *)

(** What [get] hands back: a provider object, [undefined] (a named key
    that the map does not hold) or [null] (no provider of the type). *)
Inductive lookup : Type :=
| Found (i : Providers.instance)
| NotFound_undefined
| NotFound_null.

(** First entry of the type for which [pick] holds. *)
Fixpoint first_of_type (pick : data -> bool) (t : string) (ps : providers)
  : option data :=
  match ps with
  | [] => None
  | (key, d) :: rest =>
      if of_type t key && pick d then Some d else first_of_type pick t rest
  end.

(** [get(type, name = null)].  [name] is [None] when the argument is
    omitted, [null] or [undefined]; the test [if (name)] also sends the
    empty string to the default search. *)
Definition get (t : string) (n : option string) (ps : providers)
  : completion lookup :=
  if truthy (from_option Str Null n) then
    let key := key_of t (default "" n) in
    Return (match Map_get key ps with
            | Some d => Found (instance d)
            | None => NotFound_undefined
            end)
  else
    match first_of_type isDefault t ps with
    | Some d => Return (Found (instance d))
    | None =>
        match first_of_type (fun _ => true) t ps with
        | Some d => Return (Found (instance d))
        | None => Return NotFound_null
        end
    end.

(** [getAllOfType(type)]. *)
Definition getAllOfType (t : string) (ps : providers) : list data :=
  snd <$> filter (fun entry => of_type t (fst entry) = true) ps.

(** ** setDefault *)

Definition with_default (flag : bool) (d : data) : data :=
  {| instance := instance d;
     config := config d;
     isDefault := flag;
     lastHealthCheck := lastHealthCheck d;
     isHealthy := isHealthy d |}.

(** The loop over the map at the end of [setDefault]. *)
Fixpoint mark_default (t n : string) (ps : providers) : providers :=
  match ps with
  | [] => []
  | (key, d) :: rest =>
      (if of_type t key
       then (key, with_default (String.eqb key (key_of t n)) d)
       else (key, d)) :: mark_default t n rest
  end.

(** [setDefault(type, name)]: two awaited updates, then the map.  A
    statement that throws ends the call before the map is touched. *)
Definition setDefault (w : world) (t n : string) (ps : providers)
  : completion unit * providers * list effect :=
  match db_query w (ClearDefaults t) with
  | Throw e => (Throw e, ps, [Queried (ClearDefaults t) false])
  | Return _ =>
      match db_query w (MarkDefault t n) with
      | Throw e =>
          (Throw e, ps, [Queried (ClearDefaults t) true; Queried (MarkDefault t n) false])
      | Return _ =>
          (Return tt, mark_default t n ps,
           [Queried (ClearDefaults t) true;
            Queried (MarkDefault t n) true;
            Info ("Default provider for " ++ t ++ " changed to " ++ n)])
      end
  end.

(** A sequence of [setDefault] calls, each awaited by its caller, which
    carries on whether or not the call threw. *)
Fixpoint setDefaults (w : world) (calls : list (string * string)) (ps : providers)
  : providers :=
  match calls with
  | [] => ps
  | (t, n) :: rest => setDefaults w rest (snd (fst (setDefault w t n ps)))
  end.

(** ** runHealthChecks *)

Definition with_health (healthy : bool) (checked : Z) (d : data) : data :=
  {| instance := instance d;
     config := config d;
     isDefault := isDefault d;
     lastHealthCheck := Some checked;
     isHealthy := healthy |}.

(** The body of the loop for one entry; [reads] counts the [new Date()]
    readings taken so far. *)
Definition check_one (w : world) (key : string) (d : data) (reads : nat)
  : data * nat * list effect :=
  match healthCheck w key with
  | Return healthy =>
      let d1 := with_health healthy (date w reads) d in
      let status := if healthy then "healthy" else "unhealthy" in
      let q := UpdateHealth (row_id (config d)) status in
      match db_query w q with
      | Return _ =>
          (d1, S reads,
           Queried q true :: if healthy then [] else [Warn ("Provider unhealthy: " ++ key)])
      | Throw e =>
          (with_health false (date w (S reads)) d1, S (S reads),
           [Queried q false; Failure ("Health check failed for " ++ key) e])
      end
  | Throw e =>
      (with_health false (date w reads) d, S reads,
       [Failure ("Health check failed for " ++ key) e])
  end.

Fixpoint check_all (w : world) (ps : providers) (reads : nat)
  : providers * nat * list effect :=
  match ps with
  | [] => ([], reads, [])
  | (key, d) :: rest =>
      let '(d', reads', log) := check_one w key d reads in
      let '(rest', reads'', log') := check_all w rest reads' in
      ((key, d') :: rest', reads'', (log ++ log')%list)
  end.

(** [runHealthChecks()], with [reads] readings of the clock taken
    before it starts. *)
Definition runHealthChecks (w : world) (ps : providers) (reads : nat)
  : completion unit * providers * list effect :=
  let '(ps', _, log) := check_all w ps reads in
  (Return tt, ps', Debug "Running provider health checks" :: log).

(** ** getHealthStatus *)

(** [key.split(':')]: the first segment and the segments after it. *)
Fixpoint split_colon (s : string) : string * list string :=
  match s with
  | EmptyString => ("", [])
  | String c r =>
      let '(segment, segments) := split_colon r in
      if Ascii.eqb c ":" then ("", segment :: segments)
      else (String c segment, segments)
  end.

(** What the status object holds for one provider. *)
Record health_report : Type := {
  healthy : bool;
  default_provider : bool;  (* the member [default] *)
  lastCheck : option Z
}.

Definition report_of (d : data) : health_report :=
  {| healthy := isHealthy d;
     default_provider := isDefault d;
     lastCheck := lastHealthCheck d |}.

(** The names every object inherits from [Object.prototype]. *)
Definition Object_prototype : list string :=
  ["__proto__"; "constructor"; "hasOwnProperty"; "isPrototypeOf";
   "propertyIsEnumerable"; "toLocaleString"; "toString"; "valueOf";
   "__defineGetter__"; "__defineSetter__"; "__lookupGetter__"; "__lookupSetter__"].

(** The own properties of the [status] object, two levels deep; the
    order of the properties is not kept. *)
Definition status : Type := gmap string (gmap string health_report).

(** The body of the loop.  [name] is [undefined] for a key without a
    colon and then names the property "undefined".  A name "__proto__"
    sets the prototype of the inner object and adds no property to it.
    A type that [Object.prototype] defines reads as truthy, so the report
    would be written to the inherited object, a built-in shared by every
    object: such a run is outside this model ([None]). *)
Definition record_health (st : status) (entry : string * data) : option status :=
  let '(t, segments) := split_colon (fst entry) in
  let n := match segments with
           | n :: _ => n
           | [] => "undefined"
           end in
  if existsb (String.eqb t) Object_prototype then None
  else
    let inner := default ∅ (st !! t) in
    Some (<[t := if String.eqb n "__proto__" then inner
                 else <[n := report_of (snd entry)]> inner]> st).

Definition getHealthStatus (ps : providers) : option status :=
  fold_left (fun acc entry => acc ≫= fun st => record_health st entry) ps (Some ∅).

End ProviderManager.

(* ================================================================== *)
(** * services/database.js *)
(* ================================================================== *)

Module Database.
Import JS.

(** The steps of [transaction], as they show in a log. *)
Inductive action : Type :=
| Connect
| Begin
| Callback
| Commit
| Rollback
| Release.

(** What the helper meets when it reaches each step: [pool.connect()],
    the three statements sent on the client, the callback and
    [client.release()].  A call reaches each step at most once, so one
    outcome per step describes any run. *)
Record session (A : Type) : Type := {
  connect : completion unit;
  begin : completion unit;
  callback : completion A;
  commit : completion unit;
  rollback : completion unit;
  release : completion unit
}.
Arguments connect {A} s.
Arguments begin {A} s.
Arguments callback {A} s.
Arguments commit {A} s.
Arguments rollback {A} s.
Arguments release {A} s.

(** The [try] block. *)
Definition attempt {A} (s : session A) : completion A * list action :=
  match begin s with
  | Throw e => (Throw e, [Begin])
  | Return _ =>
      match callback s with
      | Throw e => (Throw e, [Begin; Callback])
      | Return result =>
          match commit s with
          | Throw e => (Throw e, [Begin; Callback; Commit])
          | Return _ => (Return result, [Begin; Callback; Commit])
          end
      end
  end.

(** [transaction(callback)]: the [catch] block rolls back and throws the
    error again (or the one the rollback throws), the [finally] block
    releases the client (and an error it throws replaces the outcome). *)
Definition transaction {A} (s : session A) : completion A * list action :=
  match connect s with
  | Throw e => (Throw e, [Connect])
  | Return _ =>
      let '(tried, log) := attempt s in
      let '(caught, log) :=
        match tried with
        | Return result => (Return result, log)
        | Throw e =>
            (match rollback s with
             | Return _ => Throw e
             | Throw e' => Throw e'
             end, (log ++ [Rollback])%list)
        end in
      (match release s with
       | Return _ => caught
       | Throw e => Throw e
       end, (Connect :: log ++ [Release])%list)
  end.

End Database.

(* ================================================================== *)
(** * routes/leads.js *)
(* ================================================================== *)

Module Leads.
Import JS.

(** ** PATCH /:id/status *)

Definition validStatuses : list string :=
  ["incoming"; "processing"; "negotiating"; "contract_sent"; "paid"; "lost"].

(** The statement of [leadsDb.updateStatus(id, status, reason)]. *)
Inductive statement : Type :=
| UpdateStatus (id status reason : value).

(** What the handler obtains from outside: the answer of the database
    and the instant stamped on the emitted event. *)
Record world : Type := {
  db_query : statement -> completion value;
  emitTime : string
}.

Inductive effect : Type :=
| Queried (q : statement) (succeeded : bool)
| Emitted (event : string) (payload : value)
| Bus (e : EventBus.effect)
| Failure (msg : string) (e : error)
| Responded (status : Z) (json : value).

(** What an execution leaves behind: the trace, the event bus and the
    promise reactions the bus left pending. *)
Record outcome : Type := {
  trace : list effect;
  bus : EventBus.bus;
  pending : list EventBus.effect
}.

(** [value === 0]. *)
Definition is_zero (v : value) : bool :=
  match v with
  | Num (Fin m _) => m =? 0
  | _ => false
  end.

(** The [catch] block. *)
Definition failed (t : list effect) (b : EventBus.bus) (later : list EventBus.effect)
  (e : error) : outcome :=
  {| trace := (t ++ [Failure "Error updating lead status" e;
                     Responded 500 (Obj [("success", Bool false);
                                         ("error", Str "Failed to update status")])])%list;
     bus := b;
     pending := later |}.

(** [router.patch('/:id/status', async (req, res) => { ... })], for the
    route parameter [id] and the parsed body. *)
Definition patch_status (w : world) (id body : value) (b : EventBus.bus) : outcome :=
  match (status <- get body "status" ;;
         reason <- get body "reason" ;;
         Return (status, reason)) with
  | Throw e => failed [] b [] e
  | Return (status, reason) =>
      if negb (includes validStatuses status) then
        {| trace := [Responded 400 (Obj [("success", Bool false);
                                         ("error", Str "Invalid status")])];
           bus := b;
           pending := [] |}
      else
        let q := UpdateStatus id status
                   (match reason with Undefined => Null | _ => reason end) in
        match db_query w q with
        | Throw e => failed [Queried q false] b [] e
        | Return result =>
            match get result "rowCount" with
            | Throw e => failed [Queried q true] b [] e
            | Return rowCount =>
                if is_zero rowCount then
                  {| trace := [Queried q true;
                               Responded 404 (Obj [("success", Bool false);
                                                   ("error", Str "Lead not found")])];
                     bus := b;
                     pending := [] |}
                else
                  let payload := Obj [("leadId", id);
                                      ("status", status);
                                      ("reason", reason)] in
                  let e := EventBus.emit (emitTime w) "lead:status_changed" payload b in
                  let t := Queried q true
                           :: Emitted "lead:status_changed" payload
                           :: map Bus (EventBus.effects e) in
                  match (_ <- EventBus.returned e ;;
                         rows <- get result "rows" ;;
                         first rows) with
                  | Throw err => failed t (EventBus.after e) (EventBus.deferred e) err
                  | Return row =>
                      {| trace := (t ++ [Responded 200 (Obj [("success", Bool true);
                                                             ("data", row)])])%list;
                         bus := EventBus.after e;
                         pending := EventBus.deferred e |}
                  end
            end
        end
  end.

(** ** GET / (search) *)

(** The query string as the handler destructures it; a member is
    [undefined] when the parameter is absent. *)
Record filters : Type := {
  status : value;
  vertical : value;
  persona : value;
  language : value;
  minUrgency : value;
  search : value;
  limit : value;
  offset : value
}.

(** The statement text is kept as the pieces it is concatenated from:
    literal text and the placeholders [$n]. *)
Inductive piece : Type :=
| Text (s : string)
| Placeholder (index : nat).

Definition digits_of (n : nat) : string :=
  NilZero.string_of_uint (Nat.to_uint n).

(** The string the pieces stand for. *)
Fixpoint render (q : list piece) : string :=
  match q with
  | [] => ""
  | Text s :: rest => s ++ render rest
  | Placeholder n :: rest => "$" ++ digits_of n ++ render rest
  end.

(** [query], [params] and [paramIndex]. *)
Record builder : Type := {
  query : list piece;
  params : list value;
  paramIndex : nat
}.

(** [if (v) { query += text + `$${paramIndex++}`; params.push(param); }] *)
Definition filter_by (v : value) (text : string) (param : value) (s : builder)
  : builder :=
  if truthy v then
    {| query := (query s ++ [Text text; Placeholder (paramIndex s)])%list;
       params := (params s ++ [param])%list;
       paramIndex := S (paramIndex s) |}
  else s.

(** The [if (search)] block: one parameter, referred to three times. *)
Definition search_by (v : value) (pattern : value) (s : builder) : builder :=
  if truthy v then
    {| query := (query s ++ [Text " AND (contact_name ILIKE ";
                             Placeholder (paramIndex s);
                             Text " OR contact_phone ILIKE ";
                             Placeholder (paramIndex s);
                             Text " OR contact_email ILIKE ";
                             Placeholder (paramIndex s);
                             Text ")"])%list;
       params := (params s ++ [pattern])%list;
       paramIndex := S (paramIndex s) |}
  else s.

(** The last two lines before the query is sent. *)
Definition paginate (p_limit p_offset : number) (s : builder) : builder :=
  {| query := (query s ++ [Text " ORDER BY created_at DESC LIMIT ";
                           Placeholder (paramIndex s);
                           Text " OFFSET ";
                           Placeholder (S (paramIndex s))])%list;
     params := (params s ++ [Num p_limit; Num p_offset])%list;
     paramIndex := S (paramIndex s) |}.

(** [limit = 50] and [offset = 0] in the destructuring pattern. *)
Definition or_default (v : value) (d : Z) : value :=
  match v with
  | Undefined => Num (Fin d 0)
  | _ => v
  end.

(** What the handler passes to [db.query].  The conversions are made in
    the order of the source; a conversion that is not reached (its
    filter is absent) is not made. *)
Definition search_statement (f : filters) : completion builder :=
  p_minUrgency <- (if truthy (minUrgency f) then parseInt (minUrgency f)
                   else Return NaN) ;;
  pattern <- (if truthy (search f)
              then s <- ToString (search f) ;; Return ("%" ++ s ++ "%")
              else Return "") ;;
  p_limit <- parseInt (or_default (limit f) 50) ;;
  p_offset <- parseInt (or_default (offset f) 0) ;;
  Return
    (paginate p_limit p_offset
       (search_by (search f) (Str pattern)
          (filter_by (minUrgency f) " AND detected_urgency >= " (Num p_minUrgency)
             (filter_by (language f) " AND primary_language = " (language f)
                (filter_by (persona f) " AND required_persona = " (persona f)
                   (filter_by (vertical f) " AND business_vertical = " (vertical f)
                      (filter_by (status f) " AND status = " (status f)
                         {| query := [Text "SELECT * FROM universal_leads_ledger WHERE 1=1"];
                            params := [];
                            paramIndex := 1 |}))))))).

End Leads.

(* ================================================================== *)
(** * Properties *)
(* ================================================================== *)

Import JS.

(** ** Numbers *)

(** A number without a fractional exponent: what [parseInt] yields. *)
Definition whole (n : number) : Prop :=
  match n with
  | Fin _ e => e = 0
  | _ => True
  end.

Lemma lt_whole (a b : Z) : lt (Fin a 0) (Fin b 0) = (a <? b).
Proof.
  unfold lt, cmp, fin_compare, Z.ltb. cbn.
  rewrite !Z.mul_1_r. reflexivity.
Qed.

Lemma lt_le (a b : number) : lt a b = true -> le a b = true.
Proof.
  unfold lt, le. destruct (cmp a b) as [[ | | ] | ]; congruence.
Qed.

Lemma round_half_even_nonneg (n d : Z) :
  0 <= n -> 0 < d -> 0 <= round_half_even n d.
Proof.
  intros Hn Hd. unfold round_half_even.
  assert (0 <= n / d) by (apply Z.div_pos; lia).
  destruct (2 * (n mod d) ?= d); [destruct (Z.even (n / d)) | | ]; lia.
Qed.

Lemma round_half_even_unit (n : Z) : round_half_even n 1 = n.
Proof.
  unfold round_half_even. rewrite Z.mod_1_r, Z.div_1_r. reflexivity.
Qed.

(** The double nearest to a positive integer is a positive integer,
    unless it is zero: as a fraction, its denominator divides its
    numerator. *)
Lemma nearest_double_integer (n k q : Z) :
  0 < n -> nearest_double n 1 = Some (k, q) -> k <> 0 ->
  let '(vn, vd) := scaled 2 k 1 (- q) in
  0 < vd /\ 0 < vn /\ vn mod vd = 0.
Proof.
  intros Hn H Hk. unfold nearest_double in H.
  change (Z.log2 1) with 0 in H. rewrite Z.sub_0_r in H.
  pose proof (Z.log2_nonneg n) as Hp0.
  destruct (Z.log2_spec n Hn) as [Hlo _].
  unfold scaled at 1 in H.
  destruct (Z.leb_spec 0 (Z.log2 n)) as [_ | ?]; [ | lia].
  destruct (Z.ltb_spec n (1 * 2 ^ Z.log2 n)) as [? | _]; [lia | ].
  set (q0 := Z.max (Z.log2 n - 52) (-1074)) in H.
  assert (Hq0 : -52 <= q0) by (unfold q0; lia).
  unfold scaled in H |- *.
  destruct (Z.leb_spec 0 q0) as [Hq | Hq].
  - (* the exponent is not negative: so is that of the result *)
    assert (Hk0 : 0 <= round_half_even n (1 * 2 ^ q0)).
    { apply round_half_even_nonneg; [lia | ].
      rewrite Z.mul_1_l. apply Z.pow_pos_nonneg; lia. }
    destruct (round_half_even n (1 * 2 ^ q0) =? 2 ^ 53) eqn:E;
      destruct (971 <? _); try discriminate H; injection H as <- <-.
    + destruct (Z.leb_spec 0 (- (q0 + 1))) as [? | _]; [lia | ].
      split; [lia | ]. split; [ | apply Z.mod_1_r].
      apply Z.mul_pos_pos; [reflexivity | apply Z.pow_pos_nonneg; lia].
    + destruct (Z.leb_spec 0 (- q0)) as [Hz | _].
      * replace (- q0) with 0 by lia. change (1 * 2 ^ 0) with 1.
        split; [reflexivity | ]. split; [lia | apply Z.mod_1_r].
      * split; [lia | ]. split; [ | apply Z.mod_1_r].
        apply Z.mul_pos_pos; [lia | apply Z.pow_pos_nonneg; lia].
  - (* the integer is below 2^52 and is read exactly *)
    rewrite round_half_even_unit in H.
    assert (Hpow : 0 < 2 ^ (- q0)) by (apply Z.pow_pos_nonneg; lia).
    destruct (n * 2 ^ (- q0) =? 2 ^ 53) eqn:E;
      destruct (971 <? _); try discriminate H; injection H as <- <-.
    + destruct (Z.leb_spec 0 (- (q0 + 1))) as [Hz | ?]; [ | lia].
      rewrite Z.mul_1_l.
      split; [apply Z.pow_pos_nonneg; lia | ]. split; [reflexivity | ].
      replace 52 with ((52 - (- (q0 + 1))) + (- (q0 + 1))) at 1 by lia.
      rewrite Z.pow_add_r by lia. apply Z.mod_mul.
      apply Z.pow_nonzero; lia.
    + destruct (Z.leb_spec 0 (- q0)) as [_ | ?]; [ | lia].
      rewrite Z.mul_1_l. split; [exact Hpow | ].
      split; [apply Z.mul_pos_pos; lia | ].
      apply Z.mod_mul. lia.
Qed.

Lemma magnitude_up_from (fuel : nat) (n d x : Z) : x <= magnitude_up fuel n d x.
Proof.
  revert x. induction fuel as [ | fuel IH]; intros x; cbn [magnitude_up]; [lia | ].
  destruct (n <? d * 10 ^ (x + 1)); [lia | ].
  specialize (IH (x + 1)). lia.
Qed.

(** The shortest decimal of an integer has no fractional digit. *)
Lemma shortest_integer (fuel : nat) (j n d E k q : Z) :
  0 < d -> n mod d = 0 -> 0 <= E - j + 1 ->
  0 <= snd (shortest fuel j n d E k q).
Proof.
  intros Hd Hn. revert j.
  induction fuel as [ | fuel IH]; intros j Hx; cbn [shortest]; cbv zeta.
  - unfold scaled. destruct (Z.leb_spec 0 (E - j + 1)) as [_ | ?]; [ | lia].
    destruct (_ =? 0); exact Hx.
  - unfold scaled. destruct (Z.leb_spec 0 (E - j + 1)) as [_ | ?]; [ | lia].
    destruct (Z.eq_dec (E - j + 1) 0) as [Hz | Hz].
    + rewrite Hz. change (10 ^ 0) with 1. rewrite Z.mul_1_r, Hn.
      cbn [Z.eqb snd]. lia.
    + destruct (_ =? 0); [exact Hx | ].
      destruct (reads_as _ _ k q), (reads_as _ _ k q); cbn [snd]; try exact Hx.
      apply IH. lia.
Qed.

Lemma to_double_whole (m : Z) : whole (to_double m 0).
Proof.
  unfold to_double.
  destruct (Z.eqb_spec m 0) as [ | Hm]; [reflexivity | ].
  change (scaled 10 (Z.abs m) 1 (- 0)) with (Z.abs m, 1).
  cbv iota beta.
  destruct (nearest_double (Z.abs m) 1) as [[k q] | ] eqn:E; [ | exact I].
  destruct (Z.eqb_spec k 0) as [ | Hk]; [reflexivity | ].
  pose proof (nearest_double_integer (Z.abs m) k q ltac:(lia) E Hk) as H.
  destruct (scaled 2 k 1 (- q)) as [vn vd]. destruct H as (Hd & Hv & Hn).
  assert (Hmag : 0 <= magnitude vn vd - 1 + 1).
  { unfold magnitude. destruct (Z.leb_spec vd vn) as [_ | Hlt].
    - pose proof (magnitude_up_from (Z.to_nat (Z.log2 vn)) vn vd 0). lia.
    - rewrite Z.mod_small in Hn by lia. lia. }
  pose proof (shortest_integer 16 1 vn vd (magnitude vn vd) k q Hd Hn Hmag) as Hs.
  destruct (shortest 16 1 vn vd (magnitude vn vd) k q) as [s x]. cbn [snd] in Hs.
  destruct (s mod 10 =? 0); cbv iota beta;
    match goal with
    | |- context [0 <=? ?y] => destruct (Z.leb_spec 0 y) as [_ | ?]
    end; first [reflexivity | lia].
Qed.

(** A decimal is rounded to the nearest double when it is read, and
    white space of any kind is skipped. *)
Example parseFloat_rounds :
  parseFloat_string "50000.000000000001" = Fin 50000 0
  /\ parseFloat_string "0.1e-6" = Fin 1 (-7)
  /\ parseFloat_string "1.7976931348623159e308" = Inf false
  /\ parseFloat_string "2e-324" = Fin 0 0.
Proof. repeat split; vm_compute; reflexivity. Qed.

Example parseInt_rounds :
  parseInt_string "9007199254740993" = Fin 9007199254740992 0
  /\ parseInt_string "0x1F" = Fin 31 0
  /\ parseInt_string (String "194" (String "160" " -7.9")) = Fin (-7) 0.
Proof. repeat split; vm_compute; reflexivity. Qed.

Lemma parseInt_string_whole (s : string) : whole (parseInt_string s).
Proof.
  unfold parseInt_string.
  destruct (read_sign (trim_start s)) as [neg s1].
  match goal with
  | |- whole (let '(_, _) := ?p in _) => destruct p as [radix s2]
  end.
  destruct (read_digits radix s2 0 0) as [[mathInt count] rest].
  destruct count; [exact I | apply to_double_whole].
Qed.

Lemma parseInt_whole (v : value) (n : number) :
  parseInt v = Return n -> whole n.
Proof.
  unfold parseInt. destruct (ToString v) as [s | e]; simpl; [ | discriminate].
  intros [= <-]. apply parseInt_string_whole.
Qed.

Lemma number_or_not_NaN (n d : number) : d <> NaN -> number_or n d <> NaN.
Proof.
  unfold number_or. destruct n; simpl; try congruence.
  destruct (negb (m =? 0)); congruence.
Qed.

Lemma number_or_whole (n : number) (d : Z) :
  whole n -> whole (number_or n (Fin d 0)).
Proof.
  unfold number_or. destruct (truthy_number n); [trivial | reflexivity].
Qed.

(** ** Domains of the classification fields *)

Definition integer_in (lo hi : Z) (n : number) : Prop :=
  exists z, n = Fin z 0 /\ lo <= z <= hi.

Definition within_unit (n : number) : Prop :=
  le (Fin 0 0) n = true /\ le n (Fin 1 0) = true.

Definition non_negative (n : number) : Prop :=
  le (Fin 0 0) n = true.

Definition one_of (l : list string) (v : value) : Prop :=
  exists s, v = Str s /\ In s l.

Lemma clamp_whole (lo hi : Z) (n : number) :
  lo <= hi -> n <> NaN -> whole n ->
  integer_in lo hi (Math_min (Fin hi 0) (Math_max (Fin lo 0) n)).
Proof.
  intros Hlh Hn Hw.
  destruct n as [ | [ | ] | m e]; [congruence | | | ].
  - (* -Infinity *)
    change (Math_max (Fin lo 0) (Inf true)) with (Fin lo 0).
    unfold Math_min. rewrite lt_whole.
    destruct (lo <? hi) eqn:E; [exists lo | exists hi]; split; auto; lia.
  - (* +Infinity *)
    change (Math_max (Fin lo 0) (Inf false)) with (Inf false).
    exists hi. split; [reflexivity | lia].
  - simpl in Hw. subst e.
    unfold Math_max. rewrite lt_whole.
    destruct (lo <? m) eqn:E1; unfold Math_min; rewrite lt_whole.
    + destruct (m <? hi) eqn:E2; [exists m | exists hi]; split; auto; lia.
    + destruct (lo <? hi) eqn:E2; [exists lo | exists hi]; split; auto; lia.
Qed.

Lemma clamp_unit (n : number) :
  n <> NaN -> within_unit (Math_min (Fin 1 0) (Math_max (Fin 0 0) n)).
Proof.
  intros Hn.
  destruct n as [ | [ | ] | m e]; [congruence | | | ];
    try (split; reflexivity).
  unfold Math_max.
  destruct (lt (Fin 0 0) (Fin m e)) eqn:E1.
  - unfold Math_min.
    destruct (lt (Fin m e) (Fin 1 0)) eqn:E2.
    + split; apply lt_le; assumption.
    + split; reflexivity.
  - split; reflexivity.
Qed.

Lemma includes_one_of (l : list string) (v : value) :
  includes l v = true -> one_of l v.
Proof.
  destruct v; simpl; try discriminate.
  intros H. apply existsb_exists in H as (x & Hx & Heq).
  apply String.eqb_eq in Heq. subst x. exists s. auto.
Qed.

(** ** The classification adapter *)

Import Classifier.

(** The fields that [classifyLead] validates or clamps. *)
Record validated (c : classification) : Prop := {
  intent_valid : one_of validIntents (intent c);
  urgency_valid : integer_in 1 10 (urgency c);
  persona_valid : one_of validPersonas (persona c);
  vertical_valid : one_of validVerticals (vertical c);
  score_valid : integer_in 1 100 (score c);
  probability_valid : within_unit (conversionProbability c)
}.

(** The ways the external call can fail: the request is rejected (error,
    timeout), the response has no readable content, or the content does
    not parse. *)
Definition external_failure (ai : backend) (rawData : value) : Prop :=
  match create ai rawData with
  | Throw _ => True
  | Return response =>
      match reply_text response with
      | Throw _ => True
      | Return text =>
          match JSON_parse ai text with
          | Throw _ => True
          | Return _ => False
          end
      end
  end.

(** A backend whose request is rejected, one that answers without
    choices, and one whose answer is not JSON. *)
Definition unreachable_backend : backend :=
  {| create := fun _ => Throw (Error "Connection error.");
     JSON_parse := fun _ => Throw (Error "SyntaxError: Unexpected end of JSON input") |}.

Definition silent_backend : backend :=
  {| create := fun _ => Return (Obj [("choices", Arr [])]);
     JSON_parse := fun _ => Throw (Error "SyntaxError: Unexpected end of JSON input") |}.

Definition chatty_backend : backend :=
  {| create := fun _ =>
       Return (Obj [("choices",
                     Arr [Obj [("message",
                                Obj [("content", Str "Sure! Here is the JSON:")])]])]);
     JSON_parse := fun _ => Throw (Error "SyntaxError: Unexpected token S") |}.

Definition sample_lead : value :=
  Obj [("phone", Str "+1234567890");
       ("text", Str "I want to buy a house, budget $500000")].

Lemma bind_returns {A B} (c : completion A) (k : A -> completion B) (b : B) :
  bind c k = Return b -> exists a, c = Return a /\ k a = Return b.
Proof.
  destruct c as [a | e]; simpl; [eauto | discriminate].
Qed.

Ltac bind_inv H :=
  repeat
    (let a := fresh "r" in
     let E := fresh "E" in
     apply bind_returns in H as (a & E & H)).

Lemma validateIntent_valid (v : value) : one_of validIntents (validateIntent v).
Proof.
  unfold validateIntent. destruct (includes validIntents v) eqn:E.
  - apply includes_one_of, E.
  - exists "other". split; [reflexivity | ]. simpl. tauto.
Qed.

Lemma validatePersona_valid (v : value) : one_of validPersonas (validatePersona v).
Proof.
  unfold validatePersona. destruct (includes validPersonas v) eqn:E.
  - apply includes_one_of, E.
  - exists "professional". split; [reflexivity | ]. simpl. tauto.
Qed.

Lemma validateVertical_valid (v : value) : one_of validVerticals (validateVertical v).
Proof.
  unfold validateVertical. destruct (includes validVerticals v) eqn:E.
  - apply includes_one_of, E.
  - exists "other". split; [reflexivity | ]. simpl. tauto.
Qed.

Lemma failure_result_validated (lang : string) : validated (failure_result lang).
Proof.
  split; simpl.
  - exists "other". split; [reflexivity | simpl; tauto].
  - exists 5. split; [reflexivity | lia].
  - exists "professional". split; [reflexivity | simpl; tauto].
  - exists "other". split; [reflexivity | simpl; tauto].
  - exists 30. split; [reflexivity | lia].
  - split; reflexivity.
Qed.

Lemma classify_validated (ai : backend) (rawData : value) (lang : string)
  (c : classification) :
  classify ai rawData lang = Return c ->
  validated c /\ estimatedValue c <> NaN.
Proof.
  intros H. unfold classify in H. bind_inv H.
  injection H as <-.
  split; [split | ]; simpl.
  - apply validateIntent_valid.
  - apply clamp_whole; [lia | apply number_or_not_NaN; discriminate | ].
    apply number_or_whole. eapply parseInt_whole; eassumption.
  - apply validatePersona_valid.
  - apply validateVertical_valid.
  - apply clamp_whole; [lia | apply number_or_not_NaN; discriminate | ].
    apply number_or_whole. eapply parseInt_whole; eassumption.
  - apply clamp_unit. apply number_or_not_NaN. discriminate.
  - apply number_or_not_NaN. discriminate.
Qed.

Lemma classifyLead_validated (ai : backend) (rawData : value) (opts : options) :
  validated (classifyLead ai rawData opts)
  /\ estimatedValue (classifyLead ai rawData opts) <> NaN.
Proof.
  unfold classifyLead, try_catch.
  destruct (classify ai rawData _) as [c | e] eqn:E.
  - eapply classify_validated, E.
  - split; [apply failure_result_validated | discriminate].
Qed.

Lemma external_failure_throws (ai : backend) (rawData : value) (lang : string) :
  external_failure ai rawData -> exists e, classify ai rawData lang = Throw e.
Proof.
  unfold external_failure, classify.
  destruct (create ai rawData) as [response | e]; simpl; [ | eauto].
  destruct (reply_text response) as [text | e]; simpl; [ | eauto].
  destruct (JSON_parse ai text) as [result | e]; simpl; [tauto | eauto].
Qed.

(** C3. When the external classification call fails (it throws or times
    out, its response carries no content, or the content does not parse),
    [classifyLead] still returns, and what it returns is the low-confidence
    default: intent "other", urgency 5, estimated value 0, persona
    "professional", vertical "other", the preferred language, score 30,
    conversion probability 0.3 and the manual-review summary. *)
Theorem classifyLead_failure_default (ai : backend) (rawData : value) (opts : options) :
  external_failure ai rawData ->
  classifyLead ai rawData opts =
    {| intent := Str "other";
       urgency := Fin 5 0;
       estimatedValue := Fin 0 0;
       persona := Str "professional";
       vertical := Str "other";
       language := Str (default "en" (opt_preferredLanguage opts));
       score := Fin 30 0;
       conversionProbability := Fin 3 (-1);
       summary := Str "Classification failed - manual review needed";
       keyPhrases := Arr [];
       embeddings := Null |}.
Proof.
  intros H.
  destruct (external_failure_throws ai rawData
              (default "en" (opt_preferredLanguage opts)) H) as [e He].
  unfold classifyLead, try_catch. rewrite He. reflexivity.
Qed.

Lemma classifyLead_failure_default_witness :
  external_failure unreachable_backend sample_lead /\
  classifyLead unreachable_backend sample_lead
    {| opt_preferredLanguage := Some "he"; opt_detectLanguage := None |} =
    {| intent := Str "other";
       urgency := Fin 5 0;
       estimatedValue := Fin 0 0;
       persona := Str "professional";
       vertical := Str "other";
       language := Str "he";
       score := Fin 30 0;
       conversionProbability := Fin 3 (-1);
       summary := Str "Classification failed - manual review needed";
       keyPhrases := Arr [];
       embeddings := Null |}.
Proof.
  split; [exact I | ].
  apply (classifyLead_failure_default unreachable_backend sample_lead
           {| opt_preferredLanguage := Some "he"; opt_detectLanguage := None |}).
  exact I.
Defined.

(** The other two failure modes end in the same record. *)
Example silent_backend_default :
  external_failure silent_backend sample_lead
  /\ classifyLead silent_backend sample_lead no_options = failure_result "en".
Proof. split; [exact I | reflexivity]. Qed.

Example chatty_backend_default :
  external_failure chatty_backend sample_lead
  /\ classifyLead chatty_backend sample_lead no_options = failure_result "en".
Proof. split; [exact I | reflexivity]. Qed.

(** A reply that parses to [null] is not an external failure, but
    reading its members throws inside the same [try] block. *)
Example null_reply_default :
  let ai := {| create := create chatty_backend;
               JSON_parse := fun _ => Return Null |} in
  ~ external_failure ai sample_lead
  /\ classifyLead ai sample_lead no_options = failure_result "en".
Proof. split; [intros [] | reflexivity]. Qed.

(** *** The documented treatment of the classifier's values *)

(** What [||] passes over: [NaN], which [parseInt] and [parseFloat] give
    for a value that is missing or not numeric, and zero. *)
Definition passed_over (p : number) : bool :=
  match p with
  | NaN => true
  | Inf _ => false
  | Fin m _ => m =? 0
  end.

(** A bounded numeric field read as [p]: the default when [p] is passed
    over, the bound when [p] lies at or beyond it, [p] itself inside. *)
Definition settled (lo hi dflt p : number) : number :=
  if passed_over p then dflt
  else if le p lo then lo
  else if le hi p then hi
  else p.

(** A numeric field without bounds. *)
Definition unclamped (dflt p : number) : number :=
  if passed_over p then dflt else p.

(** An enumerated field: the value given when it is a member, the
    default otherwise. *)
Definition chosen (l : list string) (dflt : string) (given field : value) : Prop :=
  (one_of l given -> field = given)
  /\ (~ one_of l given -> field = Str dflt).

(** The classifier's reply, parsed. *)
Definition parsed (ai : backend) (rawData result : value) : Prop :=
  exists response text,
    create ai rawData = Return response
    /\ reply_text response = Return text
    /\ JSON_parse ai text = Return result.

(** The fields of a classification as documented for the reply
    [result]. *)
Record documented (result : value) (c : classification) : Prop := {
  intent_documented :
    chosen validIntents "other" (get_opt result "intent") (intent c);
  persona_documented :
    chosen validPersonas "professional" (get_opt result "persona") (persona c);
  vertical_documented :
    chosen validVerticals "other" (get_opt result "vertical") (vertical c);
  urgency_documented :
    exists p, parseInt (get_opt result "urgency") = Return p
              /\ urgency c = settled (Fin 1 0) (Fin 10 0) (Fin 5 0) p;
  score_documented :
    exists p, parseInt (get_opt result "score") = Return p
              /\ score c = settled (Fin 1 0) (Fin 100 0) (Fin 50 0) p;
  probability_documented :
    exists p, parseFloat (get_opt result "conversionProbability") = Return p
              /\ conversionProbability c
                 = settled (Fin 0 0) (Fin 1 0) (Fin 5 (-1)) p;
  estimate_documented :
    exists p, parseFloat (get_opt result "estimatedValue") = Return p
              /\ estimatedValue c = unclamped (Fin 0 0) p
}.

(** A member that the reply does not have, or has as [null]. *)
Definition absent (result : value) (k : string) : Prop :=
  get_opt result k = Undefined \/ get_opt result k = Null.

(** The defaults that stand in for absent members. *)
Record absent_defaulted (result : value) (c : classification) : Prop := {
  intent_absent : absent result "intent" -> intent c = Str "other";
  persona_absent : absent result "persona" -> persona c = Str "professional";
  vertical_absent : absent result "vertical" -> vertical c = Str "other";
  urgency_absent : absent result "urgency" -> urgency c = Fin 5 0;
  score_absent : absent result "score" -> score c = Fin 50 0;
  probability_absent :
    absent result "conversionProbability" -> conversionProbability c = Fin 5 (-1);
  estimate_absent : absent result "estimatedValue" -> estimatedValue c = Fin 0 0
}.

Lemma cmp_antisym (a b : number) :
  cmp b a = option_map CompOpp (cmp a b).
Proof.
  destruct a as [ | [ | ] | m1 e1], b as [ | [ | ] | m2 e2]; try reflexivity.
  cbn [cmp option_map]. unfold fin_compare.
  rewrite (Z.min_comm e2 e1). f_equal. apply Z.compare_antisym.
Qed.

Lemma lt_negb_le (a b : number) :
  a <> NaN -> b <> NaN -> lt a b = negb (le b a).
Proof.
  intros Ha Hb. unfold lt, le. rewrite (cmp_antisym a b).
  destruct a as [ | [ | ] | m1 e1], b as [ | [ | ] | m2 e2];
    try congruence; try reflexivity.
  cbn [cmp option_map]. destruct (fin_compare m1 e1 m2 e2); reflexivity.
Qed.

(** The clamp of the code is the documented treatment. *)
Lemma clamp_settled (l le' h he' d de : Z) (p : number) :
  let lo := Fin l le' in
  let hi := Fin h he' in
  let dflt := Fin d de in
  lt lo hi = true ->
  Math_min hi (Math_max lo dflt) = dflt ->
  Math_min hi (Math_max lo (number_or p dflt)) = settled lo hi dflt p.
Proof.
  intros lo hi dflt Hlh Hd. unfold settled, number_or.
  destruct p as [ | [ | ] | m e]; cbn [truthy_number passed_over negb].
  - exact Hd.
  - unfold lo at 1 2. cbn [Math_max lt cmp]. unfold Math_min. cbn [le cmp].
    unfold hi at 1, lo at 1. fold lo hi. rewrite Hlh. reflexivity.
  - reflexivity.
  - destruct (m =? 0); cbn [negb]; [exact Hd | ].
    assert (E1 : lt lo (Fin m e) = negb (le (Fin m e) lo))
      by (apply lt_negb_le; discriminate).
    assert (E2 : lt (Fin m e) hi = negb (le hi (Fin m e)))
      by (apply lt_negb_le; discriminate).
    unfold Math_max. unfold lo at 1. cbv iota beta. fold lo. rewrite E1.
    destruct (le (Fin m e) lo); cbn [negb].
    + unfold Math_min, hi at 1, lo at 1. cbv iota beta. fold lo hi.
      rewrite Hlh. reflexivity.
    + unfold Math_min, hi at 1. cbv iota beta. fold hi. rewrite E2.
      destruct (le hi (Fin m e)); reflexivity.
Qed.

Lemma get_returns (v : value) (k : string) (x : value) :
  get v k = Return x -> x = get_opt v k.
Proof. destruct v; cbn [get get_opt]; intros H; try discriminate H; congruence. Qed.

Lemma one_of_includes (l : list string) (v : value) :
  one_of l v -> includes l v = true.
Proof.
  intros (s & -> & Hin). cbn [includes]. apply existsb_exists.
  exists s. split; [exact Hin | apply String.eqb_refl].
Qed.

Lemma validated_chosen (l : list string) (dflt : string) (v : value) :
  chosen l dflt v (if includes l v then v else Str dflt).
Proof.
  split; intros H.
  - rewrite (one_of_includes l v H). reflexivity.
  - destruct (includes l v) eqn:E; [ | reflexivity].
    exfalso. apply H, includes_one_of, E.
Qed.

Lemma absent_not_one_of (result : value) (k : string) (l : list string) :
  absent result k -> ~ one_of l (get_opt result k).
Proof. intros [-> | ->] (s & H & _); discriminate H. Qed.

Lemma absent_parseInt (result : value) (k : string) (p : number) :
  absent result k -> parseInt (get_opt result k) = Return p -> p = NaN.
Proof. intros [-> | ->] H; vm_compute in H; congruence. Qed.

Lemma absent_parseFloat (result : value) (k : string) (p : number) :
  absent result k -> parseFloat (get_opt result k) = Return p -> p = NaN.
Proof. intros [-> | ->] H; vm_compute in H; congruence. Qed.

Lemma documented_absent (result : value) (c : classification) :
  documented result c -> absent_defaulted result c.
Proof.
  intros [Hi Hp Hv (pu & Eu & Hu) (ps & Es & Hs) (pp & Ep & Hpp) (pe & Ee & He)].
  split; intros Ha.
  - apply Hi. eapply absent_not_one_of, Ha.
  - apply Hp. eapply absent_not_one_of, Ha.
  - apply Hv. eapply absent_not_one_of, Ha.
  - rewrite Hu, (absent_parseInt _ _ _ Ha Eu). reflexivity.
  - rewrite Hs, (absent_parseInt _ _ _ Ha Es). reflexivity.
  - rewrite Hpp, (absent_parseFloat _ _ _ Ha Ep). reflexivity.
  - rewrite He, (absent_parseFloat _ _ _ Ha Ee). reflexivity.
Qed.

(** What the [try] block returns is the documented treatment of the
    parsed reply. *)
Lemma classify_documented (ai : backend) (rawData : value) (lang : string)
  (c : classification) :
  classify ai rawData lang = Return c ->
  exists result, parsed ai rawData result /\ documented result c.
Proof.
  intros H. unfold classify in H. bind_inv H.
  injection H as <-.
  repeat match goal with
         | E : get _ _ = Return _ |- _ => apply get_returns in E; subst
         end.
  eexists. split; [do 2 eexists; repeat split; eassumption | ].
  split; cbn [intent persona vertical urgency score conversionProbability
              estimatedValue].
  - apply validated_chosen.
  - apply validated_chosen.
  - apply validated_chosen.
  - eexists. split; [eassumption | ]. apply clamp_settled; reflexivity.
  - eexists. split; [eassumption | ]. apply clamp_settled; reflexivity.
  - eexists. split; [eassumption | ]. apply clamp_settled; reflexivity.
  - eexists. split; [eassumption | ].
    unfold number_or, unclamped.
    match goal with |- context [truthy_number ?p] => destruct p as [ | | m e] end;
      cbn [truthy_number passed_over]; try reflexivity.
    destruct (m =? 0); reflexivity.
Qed.

(** The members that are read as numbers. *)
Definition numeric_members : list string :=
  ["urgency"; "estimatedValue"; "score"; "conversionProbability"].

(** A reply whose members can be read: it is not [null] or [undefined],
    and the members read as numbers have a string form (an object with
    a member "toString" has none). *)
Definition convertible (result : value) : bool :=
  match result with
  | Undefined | Null => false
  | _ => forallb (fun k => returns (ToString (get_opt result k))) numeric_members
  end.

Lemma classic_nullish (v : value) :
  (v = Undefined \/ v = Null) \/ (v <> Undefined /\ v <> Null).
Proof. destruct v; auto; right; split; discriminate. Qed.

Lemma get_get_opt (v : value) (k : string) :
  v <> Undefined -> v <> Null -> get v k = Return (get_opt v k).
Proof. destruct v; intros Hu Hn; try reflexivity; congruence. Qed.

(** The [try] block returns exactly for the replies that parse and can
    be read. *)
Lemma classify_convertible (ai : backend) (rawData result : value) (lang : string) :
  parsed ai rawData result ->
  if convertible result
  then exists c, classify ai rawData lang = Return c
  else exists e, classify ai rawData lang = Throw e.
Proof.
  intros (response & text & E1 & E2 & E3).
  unfold classify. rewrite E1. cbn [bind]. rewrite E2. cbn [bind].
  rewrite E3. cbn [bind].
  destruct (classic_nullish result) as [[-> | ->] | [Hu Hn]];
    [cbn; eauto | cbn; eauto | ].
  rewrite !(get_get_opt result) by assumption. cbn [bind].
  assert (Hc : convertible result
               = forallb (fun k => returns (ToString (get_opt result k)))
                         numeric_members)
    by (destruct result; first [reflexivity | congruence]).
  rewrite Hc. cbn [forallb numeric_members]. unfold parseInt, parseFloat.
  destruct (ToString (get_opt result "urgency")); cbn [bind returns andb]; [ | eauto].
  destruct (ToString (get_opt result "estimatedValue")); cbn [bind returns andb];
    [ | eauto].
  destruct (ToString (get_opt result "score")); cbn [bind returns andb]; [ | eauto].
  destruct (ToString (get_opt result "conversionProbability"));
    cbn [bind returns andb]; eauto.
Qed.

Lemma parsed_unique (ai : backend) (rawData r1 r2 : value) :
  parsed ai rawData r1 -> parsed ai rawData r2 -> r1 = r2.
Proof.
  intros (response & text & E1 & E2 & E3) (response' & text' & E1' & E2' & E3').
  congruence.
Qed.

(** [classifyLead] by cases: the failure default when the external call
    fails and when the reply cannot be read, the documented treatment of
    the reply otherwise. *)
Lemma classifyLead_by_cases (ai : backend) (rawData : value) (opts : options) :
  (external_failure ai rawData ->
   classifyLead ai rawData opts
     = failure_result (default "en" (opt_preferredLanguage opts)))
  /\ (forall result,
        parsed ai rawData result ->
        if convertible result
        then documented result (classifyLead ai rawData opts)
             /\ absent_defaulted result (classifyLead ai rawData opts)
        else classifyLead ai rawData opts
               = failure_result (default "en" (opt_preferredLanguage opts))).
Proof.
  split.
  - intros H.
    destruct (external_failure_throws ai rawData
                (default "en" (opt_preferredLanguage opts)) H) as [e He].
    unfold classifyLead, try_catch. rewrite He. reflexivity.
  - intros result Hp.
    pose proof (classify_convertible ai rawData result
                  (default "en" (opt_preferredLanguage opts)) Hp) as H.
    unfold classifyLead, try_catch.
    destruct (convertible result); destruct H as [x Hx]; rewrite Hx; [ | reflexivity].
    destruct (classify_documented _ _ _ _ Hx) as (result' & Hp' & Hd).
    rewrite (parsed_unique _ _ _ _ Hp Hp'). split; [exact Hd | ].
    apply documented_absent, Hd.
Qed.

(** ** Sentiment analysis *)

Definition within_signed_unit (n : number) : Prop :=
  le (Fin (-1) 0) n = true /\ le n (Fin 1 0) = true.

(** What every result of [analyzeSentiment] satisfies. *)
Record well_formed (previous : value) (r : sentiment_analysis) : Prop := {
  sentiment_bounded : within_signed_unit (sentiment r);
  previous_echoed : previousSentiment r = previous;
  emotions_present : truthy (emotions r) = true;
  objections_present : truthy (objections r) = true;
  signals_present : truthy (buyingSignals r) = true
}.

(** A reply that rates the message far outside the scale. *)
Definition overrating_backend : backend :=
  {| create := fun _ =>
       Return (Obj [("choices",
                     Arr [Obj [("message", Obj [("content", Str "{}")])]])]);
     JSON_parse := fun _ => Return (Obj [("sentiment", Str "-7.5")]) |}.

Lemma clamp_signed_unit (n : number) :
  n <> NaN -> within_signed_unit (Math_min (Fin 1 0) (Math_max (Fin (-1) 0) n)).
Proof.
  intros Hn.
  destruct n as [ | [ | ] | m e]; [congruence | | | ];
    try (split; reflexivity).
  unfold Math_max.
  destruct (lt (Fin (-1) 0) (Fin m e)) eqn:E1.
  - unfold Math_min.
    destruct (lt (Fin m e) (Fin 1 0)) eqn:E2.
    + split; apply lt_le; assumption.
    + split; reflexivity.
  - split; reflexivity.
Qed.

Lemma or_else_truthy (a b : value) :
  truthy b = true -> truthy (or_else a b) = true.
Proof. intros H. unfold or_else. destruct (truthy a) eqn:E; assumption. Qed.

Lemma analyze_well_formed (ai : backend) (text previous : value)
  (r : sentiment_analysis) :
  analyze ai text previous = Return r -> well_formed previous r.
Proof.
  intros H. unfold analyze in H. bind_inv H. injection H as <-.
  split; cbn [sentiment previousSentiment emotions objections buyingSignals].
  - apply clamp_signed_unit, number_or_not_NaN. discriminate.
  - reflexivity.
  - apply or_else_truthy. reflexivity.
  - apply or_else_truthy. reflexivity.
  - apply or_else_truthy. reflexivity.
Qed.

(** X1. [analyzeSentiment] turns whatever the model answers into a
    well-formed result: the sentiment lies in [-1, 1] and is never NaN,
    the previous sentiment is handed back ([null] when none was given),
    and emotions, objections and buying signals are always present.
    When the external call fails (it is rejected, answers without
    content, or the content does not parse) the result is the neutral
    one: sentiment 0, no emotions, no objections, no buying signals. *)
Theorem analyzeSentiment_well_formed
  (ai : backend) (text : value) (previous : option value) :
  well_formed (default Null previous) (analyzeSentiment ai text previous)
  /\ (external_failure ai text ->
      analyzeSentiment ai text previous = neutral_result (default Null previous)).
Proof.
  unfold analyzeSentiment, try_catch. split.
  - destruct (analyze ai text _) as [r | e] eqn:E.
    + eapply analyze_well_formed, E.
    + split; try reflexivity. split; reflexivity.
  - intros H. unfold external_failure in H. unfold analyze.
    destruct (create ai text) as [response | e]; cbn [bind]; [ | reflexivity].
    destruct (reply_text response) as [content | e]; cbn [bind]; [ | reflexivity].
    destruct (JSON_parse ai content) as [result | e]; cbn [bind];
      [contradiction | reflexivity].
Qed.

Lemma analyzeSentiment_well_formed_witness :
  external_failure silent_backend (Str "too expensive")
  /\ analyzeSentiment silent_backend (Str "too expensive") (Some (Num (Fin 5 (-1))))
     = {| sentiment := Fin 0 0;
          previousSentiment := Num (Fin 5 (-1));
          emotions := Obj [];
          objections := Arr [];
          buyingSignals := Arr [] |}.
Proof.
  split; [exact I | ].
  exact (proj2 (analyzeSentiment_well_formed silent_backend (Str "too expensive")
                  (Some (Num (Fin 5 (-1))))) I).
Defined.

(** A rating of -7.5 is clamped to -1. *)
Example overrated_sentiment_clamped :
  sentiment (analyzeSentiment overrating_backend (Str "awful") None) = Fin (-1) 0
  /\ previousSentiment (analyzeSentiment overrating_backend (Str "awful") None) = Null.
Proof. split; reflexivity. Qed.

(** ** The priority scorer *)

Import Webhook.

(** The bonus table as the specification words it. *)
Definition urgencyBonus (u : number) : Z :=
  if ge u (Fin 8 0) then 3 else if ge u (Fin 5 0) then 1 else 0.

Definition valueBonus (v : number) : Z :=
  if gt v (Fin 50000 0) then 2 else if gt v (Fin 10000 0) then 1 else 0.

Definition intentBonus (i : value) : Z :=
  if is_string i "suing" then 2 else if is_string i "buying" then 1 else 0.

Definition documented_priority (u v : number) (i : value) : Z :=
  Z.min (5 + urgencyBonus u + valueBonus v + intentBonus i) 10.

Lemma urgencyBonus_range (u : number) : 0 <= urgencyBonus u <= 3.
Proof. unfold urgencyBonus. destruct (ge u (Fin 8 0)), (ge u (Fin 5 0)); lia. Qed.

Lemma valueBonus_range (v : number) : 0 <= valueBonus v <= 2.
Proof.
  unfold valueBonus. destruct (gt v (Fin 50000 0)), (gt v (Fin 10000 0)); lia.
Qed.

Lemma intentBonus_range (i : value) : 0 <= intentBonus i <= 2.
Proof.
  unfold intentBonus. destruct (is_string i "suing"), (is_string i "buying"); lia.
Qed.

Lemma buying_is_not_suing (i : value) :
  is_string i "buying" = true -> is_string i "suing" = false.
Proof.
  destruct i; simpl; try reflexivity.
  intros H. apply String.eqb_eq in H. subst s. reflexivity.
Qed.

(** C2. [calculatePriority] depends on the classification only through
    (urgency, estimatedValue, intent) and equals
    [min (5 + urgencyBonus + valueBonus + intentBonus) 10] for the
    documented bonus table; the result always lies in [5,10]. *)
Theorem calculatePriority_documented (c : classification) :
  calculatePriority c =
    documented_priority (urgency c) (estimatedValue c) (intent c)
  /\ 5 <= calculatePriority c <= 10.
Proof.
  assert (E : calculatePriority c =
              documented_priority (urgency c) (estimatedValue c) (intent c)).
  { unfold calculatePriority, documented_priority,
      urgencyBonus, valueBonus, intentBonus.
    destruct (is_string (intent c) "buying") eqn:Hb.
    - rewrite (buying_is_not_suing _ Hb).
      destruct (ge (urgency c) (Fin 8 0)), (ge (urgency c) (Fin 5 0)),
        (gt (estimatedValue c) (Fin 50000 0)), (gt (estimatedValue c) (Fin 10000 0));
        reflexivity.
    - destruct (is_string (intent c) "suing"),
        (ge (urgency c) (Fin 8 0)), (ge (urgency c) (Fin 5 0)),
        (gt (estimatedValue c) (Fin 50000 0)), (gt (estimatedValue c) (Fin 10000 0));
        reflexivity. }
  split; [exact E | ].
  rewrite E. unfold documented_priority.
  pose proof (urgencyBonus_range (urgency c)).
  pose proof (valueBonus_range (estimatedValue c)).
  pose proof (intentBonus_range (intent c)).
  lia.
Qed.

Example priority_of_urgent_lawsuit :
  calculatePriority
    {| intent := Str "suing"; urgency := Fin 9 0; estimatedValue := Fin 60000 0;
       persona := Str "shark"; vertical := Str "law"; language := Str "en";
       score := Fin 80 0; conversionProbability := Fin 7 (-1);
       summary := Str ""; keyPhrases := Arr []; embeddings := Null |} = 10.
Proof. reflexivity. Qed.

Example priority_of_idle_question :
  calculatePriority
    {| intent := Str "asking"; urgency := Fin 2 0; estimatedValue := Fin 10000 0;
       persona := Str "professional"; vertical := Str "other"; language := Str "en";
       score := Fin 20 0; conversionProbability := Fin 1 (-1);
       summary := Str ""; keyPhrases := Arr []; embeddings := Null |} = 5.
Proof. reflexivity. Qed.

(** *** Monotonicity *)

Lemma fin_compare_scaled (m1 e1 m2 e2 k : Z) :
  k <= e1 -> k <= e2 ->
  fin_compare m1 e1 m2 e2 = (m1 * 10 ^ (e1 - k) ?= m2 * 10 ^ (e2 - k)).
Proof.
  intros H1 H2. unfold fin_compare.
  set (k0 := Z.min e1 e2).
  assert (Hk : k <= k0) by (unfold k0; lia).
  replace (e1 - k) with ((e1 - k0) + (k0 - k)) by lia.
  replace (e2 - k) with ((e2 - k0) + (k0 - k)) by lia.
  rewrite !Z.pow_add_r by (unfold k0; lia).
  rewrite !Z.mul_assoc.
  apply Zmult_compare_compat_r. apply Z.lt_gt.
  apply Z.pow_pos_nonneg; lia.
Qed.

Lemma lt_le_trans (a b c : number) :
  lt a b = true -> le b c = true -> lt a c = true.
Proof.
  unfold lt, le.
  destruct a as [ | [ | ] | m1 e1], b as [ | [ | ] | m2 e2], c as [ | [ | ] | m3 e3];
    cbn [cmp]; try congruence.
  set (k := Z.min e1 (Z.min e2 e3)).
  rewrite (fin_compare_scaled m1 e1 m2 e2 k), (fin_compare_scaled m2 e2 m3 e3 k),
    (fin_compare_scaled m1 e1 m3 e3 k) by (unfold k; lia).
  destruct (Z.compare_spec (m1 * 10 ^ (e1 - k)) (m2 * 10 ^ (e2 - k)));
    destruct (Z.compare_spec (m2 * 10 ^ (e2 - k)) (m3 * 10 ^ (e3 - k)));
    destruct (Z.compare_spec (m1 * 10 ^ (e1 - k)) (m3 * 10 ^ (e3 - k)));
    try congruence; lia.
Qed.

Lemma le_trans (a b c : number) :
  le a b = true -> le b c = true -> le a c = true.
Proof.
  unfold le.
  destruct a as [ | [ | ] | m1 e1], b as [ | [ | ] | m2 e2], c as [ | [ | ] | m3 e3];
    cbn [cmp]; try congruence.
  set (k := Z.min e1 (Z.min e2 e3)).
  rewrite (fin_compare_scaled m1 e1 m2 e2 k), (fin_compare_scaled m2 e2 m3 e3 k),
    (fin_compare_scaled m1 e1 m3 e3 k) by (unfold k; lia).
  destruct (Z.compare_spec (m1 * 10 ^ (e1 - k)) (m2 * 10 ^ (e2 - k)));
    destruct (Z.compare_spec (m2 * 10 ^ (e2 - k)) (m3 * 10 ^ (e3 - k)));
    destruct (Z.compare_spec (m1 * 10 ^ (e1 - k)) (m3 * 10 ^ (e3 - k)));
    try congruence; lia.
Qed.

(** X20. [calculatePriority] is monotone: of two classifications with
    the same intent, the one that is at least as urgent and at least as
    valuable never gets the lower priority. *)
Theorem calculatePriority_monotone (c c' : classification) :
  le (urgency c) (urgency c') = true ->
  le (estimatedValue c) (estimatedValue c') = true ->
  intent c = intent c' ->
  calculatePriority c <= calculatePriority c'.
Proof.
  intros Hu Hv Hi.
  assert (U : forall k, ge (urgency c) (Fin k 0) = true ->
                        ge (urgency c') (Fin k 0) = true).
  { intros k H. unfold ge in *. eapply le_trans; eassumption. }
  assert (V : forall k, gt (estimatedValue c) (Fin k 0) = true ->
                        gt (estimatedValue c') (Fin k 0) = true).
  { intros k H. unfold gt in *. eapply lt_le_trans; eassumption. }
  pose proof (U 8) as U8. pose proof (U 5) as U5.
  pose proof (V 50000) as V5. pose proof (V 10000) as V1.
  unfold calculatePriority. rewrite <- Hi.
  destruct (ge (urgency c) (Fin 8 0)), (ge (urgency c) (Fin 5 0)),
    (gt (estimatedValue c) (Fin 50000 0)), (gt (estimatedValue c) (Fin 10000 0));
    try rewrite (U8 eq_refl); try rewrite (U5 eq_refl);
    try rewrite (V5 eq_refl); try rewrite (V1 eq_refl);
    destruct (ge (urgency c') (Fin 8 0)), (ge (urgency c') (Fin 5 0)),
      (gt (estimatedValue c') (Fin 50000 0)), (gt (estimatedValue c') (Fin 10000 0)),
      (is_string (intent c) "buying"), (is_string (intent c) "suing"); lia.
Qed.

Lemma calculatePriority_monotone_witness :
  (le (Fin 2 0) (Fin 9 0) = true /\ le (Fin 10000 0) (Fin 60000 0) = true)
  /\ calculatePriority
       {| intent := Str "asking"; urgency := Fin 2 0; estimatedValue := Fin 10000 0;
          persona := Str "professional"; vertical := Str "other"; language := Str "en";
          score := Fin 20 0; conversionProbability := Fin 1 (-1);
          summary := Str ""; keyPhrases := Arr []; embeddings := Null |}
     <= calculatePriority
          {| intent := Str "asking"; urgency := Fin 9 0; estimatedValue := Fin 60000 0;
             persona := Str "shark"; vertical := Str "law"; language := Str "he";
             score := Fin 80 0; conversionProbability := Fin 7 (-1);
             summary := Str ""; keyPhrases := Arr []; embeddings := Null |}.
Proof.
  split; [split; reflexivity | ].
  apply calculatePriority_monotone; reflexivity.
Defined.

(** ** The ingestion handler *)

(** What a trace shows: the responses sent, the events published, the
    lead inserts issued (with their success), every statement issued,
    and the payloads handed to the classifier. *)
Definition responses (t : list effect) : list (Z * value) :=
  flat_map (fun e => match e with Responded st j => [(st, j)] | _ => [] end) t.

Definition emitted (t : list effect) : list (string * value) :=
  flat_map (fun e => match e with Emitted ev p => [(ev, p)] | _ => [] end) t.

Definition inserts (t : list effect) : list (lead_row * bool) :=
  flat_map (fun e => match e with
                     | Queried (InsertLead r) ok => [(r, ok)]
                     | _ => []
                     end) t.

Definition queries (t : list effect) : list (query * bool) :=
  flat_map (fun e => match e with Queried q ok => [(q, ok)] | _ => [] end) t.

Definition classified (t : list effect) : list value :=
  flat_map (fun e => match e with Classified v => [v] | _ => [] end) t.

(** The options the handler passes to [classifyLead]. *)
Definition handler_options : options :=
  {| opt_preferredLanguage := Some "en"; opt_detectLanguage := Some true |}.

(** The stored counterpart of [validated], and the documented domain
    of a stored row: the validated fields and a non-negative estimated
    value. *)
Record stored_validated (r : lead_row) : Prop := {
  stored_intent : one_of validIntents (detected_intent r);
  stored_urgency : integer_in 1 10 (detected_urgency r);
  stored_persona : one_of validPersonas (required_persona r);
  stored_vertical : one_of validVerticals (business_vertical r);
  stored_score : integer_in 1 100 (lead_score r);
  stored_probability : within_unit (conversion_probability r)
}.

Definition stored_in_domain (r : lead_row) : Prop :=
  stored_validated r /\ non_negative (estimated_value r).

(** The bodies the emptiness claim speaks of: anything but an object
    with at least one property. *)
Definition empty_or_not_object (v : value) : Prop :=
  match v with
  | Obj (_ :: _) => False
  | _ => True
  end.

(** The rejection of an empty payload. *)
Definition rejected_as_empty (w : world) (s : state) : Prop :=
  responses (trace s) =
    [(400, Obj [("success", Bool false);
                ("error", Str "Empty payload");
                ("requestId", Str (requestId w))])]
  /\ classified (trace s) = []
  /\ queries (trace s) = []
  /\ emitted (trace s) = [].

(** A classifier reply that parses to an object whose only member is a
    negative estimated value. *)
Definition quote : string := String "034"%char "".

Definition negative_estimate_text : string :=
  "{" ++ quote ++ "estimatedValue" ++ quote ++ ": -500}".

Definition negative_estimate_backend : backend :=
  {| create := fun _ =>
       Return (Obj [("choices",
                     Arr [Obj [("message",
                                Obj [("content", Str negative_estimate_text)])]])]);
     JSON_parse := fun text =>
       if String.eqb text negative_estimate_text
       then Return (Obj [("estimatedValue", Num (Fin (-500) 0))])
       else Throw (Error "SyntaxError: Unexpected token") |}.

(** A database that stores every row it is given. *)
Definition accepting_database (q : query) : completion value :=
  match q with
  | InsertLead _ => Return (Obj [("rows", Arr [Obj [("id", Str "lead-1")]])])
  | InsertAudit _ => Return (Obj [("rows", Arr [])])
  end.

Definition sample_world (classifier : backend) (db : query -> completion value)
  : world :=
  {| requestId := "req-1";
     startTime := 1000;
     auditTime := 1040;
     endTime := 1042;
     emitTime := "2024-01-01T00:00:00.000Z";
     ai := classifier;
     db_query := db;
     development := false |}.

Definition web_request (payload : value) : request :=
  {| body := payload;
     headers := {[ "x-source-channel" := "web" ]};
     ip := Str "127.0.0.1" |}.

Definition negative_estimate_row : lead_row :=
  {| source_channel := Str "web";
     source_identifier := Str "+1234567890";
     source_provider := Str "unknown";
     raw_data := sample_lead;
     context_vectors := Obj [];
     contact_name := Null;
     contact_phone := Str "+1234567890";
     contact_email := Null;
     detected_intent := Str "other";
     detected_urgency := Fin 5 0;
     estimated_value := Fin (-500) 0;
     required_persona := Str "professional";
     business_vertical := Str "other";
     primary_language := Str "en";
     lead_score := Fin 50 0;
     conversion_probability := Fin 5 (-1) |}.

(** A database that is down. *)
Definition failing_database (q : query) : completion value :=
  Throw (Error "connection refused").

Definition default_row : lead_row :=
  {| source_channel := Str "web";
     source_identifier := Str "+1234567890";
     source_provider := Str "unknown";
     raw_data := sample_lead;
     context_vectors := Obj [];
     contact_name := Null;
     contact_phone := Str "+1234567890";
     contact_email := Null;
     detected_intent := Str "other";
     detected_urgency := Fin 5 0;
     estimated_value := Fin 0 0;
     required_persona := Str "professional";
     business_vertical := Str "other";
     primary_language := Str "en";
     lead_score := Fin 30 0;
     conversion_probability := Fin 3 (-1) |}.

Lemma flat_map_Bus {A} (f : effect -> list A) (l : list EventBus.effect) :
  (forall x, f (Bus x) = []) -> flat_map f (map Bus l) = [].
Proof.
  intros H. induction l as [ | x l IH]; simpl; [reflexivity | ].
  rewrite H, IH. reflexivity.
Qed.

Ltac ingest_unfold :=
  cbv beta iota zeta delta
    [handle ingest try_catchM bindM classify_step run_query publish respond
     tell lift ret start fst snd trace bus pending returns].

(** Case analysis on everything the handler branches on. *)
Ltac ingest_cases :=
  ingest_unfold;
  repeat (match goal with
          | |- context [match ?c with Return _ => _ | Throw _ => _ end] =>
              destruct c eqn:?
          | |- context [if truthy ?c then _ else _] => destruct (truthy c) eqn:?
          | |- context [if (negb ?a || ?b) then _ else _] =>
              destruct (negb a || b) eqn:?
          end; ingest_unfold).

(** Reading the observations off a trace built by the handler. *)
Ltac observe :=
  unfold responses, emitted, inserts, queries, classified;
  rewrite ?flat_map_app; cbn [flat_map app];
  rewrite ?flat_map_Bus by reflexivity;
  cbn [app].

Lemma inserts_shape (w : world) (req : request) (b : EventBus.bus) :
  inserts (trace (handle w req b)) = []
  \/ exists sc si sp ci ok,
       inserts (trace (handle w req b)) =
         [(lead_params sc si sp (body req) ci
             (classifyLead (ai w) (body req) handler_options), ok)].
Proof.
  ingest_cases; observe; try (left; reflexivity);
    right; do 5 eexists; reflexivity.
Qed.

Lemma lead_params_validated (sc si sp raw : value) (ci : contact_info)
  (c : classification) :
  validated c -> stored_validated (lead_params sc si sp raw ci c).
Proof.
  intros [Hi Hu Hp Hv Hs Hc]. split; simpl; auto.
  - destruct Hs as (z & -> & Hz). exists z. split; [ | lia].
    unfold number_or. simpl. destruct (z =? 0) eqn:E; [lia | reflexivity].
  - unfold number_or.
    destruct (truthy_number (conversionProbability c));
      [assumption | split; reflexivity].
Qed.

(** The row carries the classification.  The handler writes
    [classification.score || 50] and
    [classification.conversionProbability || 0.5]: a score is never
    zero, and a probability of zero gives way to 0.5. *)
Record stored_as_classified (r : lead_row) (c : classification) : Prop := {
  kept_intent : detected_intent r = intent c;
  kept_urgency : detected_urgency r = urgency c;
  kept_estimate : estimated_value r = estimatedValue c;
  kept_persona : required_persona r = persona c;
  kept_vertical : business_vertical r = vertical c;
  kept_score : lead_score r = score c;
  kept_probability :
    conversion_probability r = unclamped (Fin 5 (-1)) (conversionProbability c)
}.

Lemma number_or_unclamped (p d : number) : number_or p d = unclamped d p.
Proof.
  unfold number_or, unclamped.
  destruct p as [ | | m e]; cbn [truthy_number passed_over]; try reflexivity.
  destruct (m =? 0); reflexivity.
Qed.

Lemma lead_params_as_classified (sc si sp raw : value) (ci : contact_info)
  (c : classification) :
  validated c -> stored_as_classified (lead_params sc si sp raw ci c) c.
Proof.
  intros [_ _ _ _ (z & Hz & Hr) _]. split; cbn; try reflexivity.
  - rewrite Hz. unfold number_or. cbn.
    destruct (z =? 0) eqn:E; [lia | reflexivity].
  - apply number_or_unclamped.
Qed.

(** C1 (amended). Whenever the handler issues the lead insert, the
    classification it got from [classifyLead] and the row it stores are
    validated: intent, persona and vertical are members of their enums,
    urgency is an integer in [1,10], lead score an integer in [1,100],
    conversion probability lies in [0,1].  The row carries the fields of
    the classification (a probability of zero is stored as 0.5).  The
    classification is the failure default when the external call fails
    and when the reply cannot be read (it is [null], or a numeric member
    has no string form).  For every other reply it is as documented: an
    enumerated field is the value given when that is a member and the
    default otherwise; urgency, score and probability are read with
    [parseInt] or [parseFloat], [NaN] and zero give the default (5, 50,
    0.5), a number at or beyond a bound gives the bound; a member that
    is absent gets the default.  The estimated value is read with
    [parseFloat], [NaN] and zero give 0, and any other number is kept:
    it is never [NaN]; it is not clamped, so it may be negative. *)
Theorem stored_classification_validated
  (w : world) (req : request) (b : EventBus.bus) (row : lead_row) (ok : bool) :
  In (row, ok) (inserts (trace (handle w req b))) ->
  validated (classifyLead (ai w) (body req) handler_options)
  /\ stored_validated row
  /\ estimated_value row = estimatedValue (classifyLead (ai w) (body req) handler_options)
  /\ estimated_value row <> NaN
  /\ stored_as_classified row (classifyLead (ai w) (body req) handler_options)
  /\ (external_failure (ai w) (body req) ->
      classifyLead (ai w) (body req) handler_options = failure_result "en")
  /\ (forall result,
        parsed (ai w) (body req) result ->
        if convertible result
        then documented result (classifyLead (ai w) (body req) handler_options)
             /\ absent_defaulted result
                  (classifyLead (ai w) (body req) handler_options)
        else classifyLead (ai w) (body req) handler_options = failure_result "en").
Proof.
  intros H.
  destruct (classifyLead_validated (ai w) (body req) handler_options) as [Hv Hn].
  split; [exact Hv | ].
  destruct (inserts_shape w req b) as [E | (sc & si & sp & ci & ok' & E)];
    rewrite E in H; simpl in H; [contradiction | ].
  destruct H as [[= <- _] | []].
  split; [apply lead_params_validated, Hv | ].
  split; [reflexivity | ]. split; [exact Hn | ].
  split; [apply lead_params_as_classified, Hv | ].
  apply (classifyLead_by_cases (ai w) (body req) handler_options).
Qed.

Lemma negative_estimate_inserted :
  In (negative_estimate_row, true)
     (inserts (trace (handle (sample_world negative_estimate_backend accepting_database)
                             (web_request sample_lead) EventBus.create))).
Proof. vm_compute. left. reflexivity. Qed.

Lemma stored_classification_validated_witness :
  In (negative_estimate_row, true)
     (inserts (trace (handle (sample_world negative_estimate_backend accepting_database)
                             (web_request sample_lead) EventBus.create)))
  /\ stored_validated negative_estimate_row
  /\ estimated_value negative_estimate_row <> NaN
  /\ stored_as_classified negative_estimate_row
       (classifyLead negative_estimate_backend sample_lead handler_options)
  /\ documented (Obj [("estimatedValue", Num (Fin (-500) 0))])
       (classifyLead negative_estimate_backend sample_lead handler_options).
Proof.
  split; [exact negative_estimate_inserted | ].
  destruct (stored_classification_validated
              (sample_world negative_estimate_backend accepting_database)
              (web_request sample_lead) EventBus.create
              negative_estimate_row true negative_estimate_inserted)
    as (_ & Hs & _ & Hn & Hk & _ & Hd).
  split; [exact Hs | ]. split; [exact Hn | ]. split; [exact Hk | ].
  apply (Hd (Obj [("estimatedValue", Num (Fin (-500) 0))])).
  do 2 eexists. repeat split.
Defined.

(** The reply of that classifier has one member only: the estimated
    value is read from it and the other fields get their defaults. *)
Example negative_estimate_documented :
  let c := classifyLead negative_estimate_backend sample_lead handler_options in
  urgency c = Fin 5 0 /\ score c = Fin 50 0
  /\ conversionProbability c = Fin 5 (-1)
  /\ estimatedValue c = Fin (-500) 0.
Proof. repeat split. Qed.

(** A reply that cannot be read: its urgency is an object with a member
    "toString", which has no string form. *)
Example unreadable_reply_default :
  let result := Obj [("urgency", Obj [("toString", Str "7")])] in
  let ai := {| create := create negative_estimate_backend;
               JSON_parse := fun _ => Return result |} in
  parsed ai sample_lead result
  /\ convertible result = false
  /\ classifyLead ai sample_lead handler_options = failure_result "en".
Proof. cbv zeta. split; [do 2 eexists; repeat split | split; reflexivity]. Qed.

(** C1 (as stated) fails: the classifier answers with an estimated
    value of -500, the payload is accepted, and the row that is stored
    carries -500, outside the documented non-negative domain. *)
Lemma negative_estimate_stored_raw :
  In (negative_estimate_row, true)
     (inserts (trace (handle (sample_world negative_estimate_backend accepting_database)
                             (web_request sample_lead) EventBus.create)))
  /\ estimated_value negative_estimate_row = Fin (-500) 0
  /\ ~ stored_in_domain negative_estimate_row.
Proof.
  split; [exact negative_estimate_inserted | ].
  split; [reflexivity | ].
  intros [_ Hneg]. vm_compute in Hneg. discriminate Hneg.
Qed.

(** C5. If the lead insert fails, the single response is a 500 whose
    body carries [success: false] and the request identifier, nothing is
    published and the bus is left as it was; in every execution a
    published event is "lead:new", is the only one, and comes with a
    lead insert that succeeded. *)
Theorem failed_insert_publishes_nothing
  (w : world) (req : request) (b : EventBus.bus) :
  (forall row, In (row, false) (inserts (trace (handle w req b))) ->
     (exists json, responses (trace (handle w req b)) = [(500, json)]
                   /\ get_opt json "success" = Bool false
                   /\ get_opt json "requestId" = Str (requestId w))
     /\ emitted (trace (handle w req b)) = []
     /\ bus (handle w req b) = b)
  /\ (forall ev p, In (ev, p) (emitted (trace (handle w req b))) ->
        ev = "lead:new"
        /\ emitted (trace (handle w req b)) = [(ev, p)]
        /\ exists row, inserts (trace (handle w req b)) = [(row, true)]).
Proof.
  ingest_cases; observe.
  all: split; [intros row H | intros ev p H]; simpl in H; try contradiction.
  all: destruct H as [H | []]; try discriminate H.
  all: try (injection H as <- <-).
  all: try (injection H as <-).
  all: repeat split; eauto.
Qed.

Lemma failed_insert_publishes_nothing_witness :
  In (default_row, false)
     (inserts (trace (handle (sample_world unreachable_backend failing_database)
                             (web_request sample_lead) EventBus.create)))
  /\ (exists json,
        responses (trace (handle (sample_world unreachable_backend failing_database)
                                 (web_request sample_lead) EventBus.create))
          = [(500, json)]
        /\ get_opt json "success" = Bool false
        /\ get_opt json "requestId" = Str "req-1")
  /\ emitted (trace (handle (sample_world unreachable_backend failing_database)
                            (web_request sample_lead) EventBus.create)) = [].
Proof.
  assert (H : In (default_row, false)
                (inserts (trace (handle (sample_world unreachable_backend failing_database)
                                        (web_request sample_lead) EventBus.create)))).
  { vm_compute. left. reflexivity. }
  split; [exact H | ].
  destruct (failed_insert_publishes_nothing
              (sample_world unreachable_backend failing_database)
              (web_request sample_lead) EventBus.create) as [Hfail _].
  destruct (Hfail default_row H) as (Hresp & Hemit & _).
  split; assumption.
Defined.

(** ** Empty payloads *)

Definition accepting_world : world :=
  sample_world unreachable_backend accepting_database.

Lemma extractIdentifier_returns (v : value) :
  v <> Undefined -> v <> Null -> exists x, extractIdentifier v = Return x.
Proof.
  destruct v; intros; try congruence; simpl; eauto.
Qed.

Lemma extractContactInfo_returns (v : value) :
  v <> Undefined -> v <> Null -> exists x, extractContactInfo v = Return x.
Proof.
  destruct v; intros; try congruence; simpl; eauto.
Qed.

(** On a body that is neither [null] nor [undefined] the guard
    [!rawData || Object.keys(rawData).length === 0] is the key count
    test alone. *)
Lemma empty_guard (v : value) :
  v <> Undefined -> v <> Null ->
  negb (truthy v) || (keys_length v =? 0)%nat = (keys_length v =? 0)%nat.
Proof.
  destruct v as [ | | flag | n | s | items | fields]; intros; try congruence; simpl.
  - apply orb_true_r.
  - apply orb_true_r.
  - destruct s; reflexivity.
  - reflexivity.
  - reflexivity.
Qed.

(** C6 (amended). For a body that is neither [null] nor [undefined]:
    when it has no own keys (the empty object, the empty array, the empty
    string, a number or a boolean) the single response is the 400 "Empty
    payload" with the request identifier and neither classification,
    storage nor publication is reached; when it has keys (a non-empty
    object, array or string) it is accepted and handed to the classifier. *)
Theorem keyless_payload_rejected (w : world) (req : request) (b : EventBus.bus) :
  body req <> Undefined -> body req <> Null ->
  (keys_length (body req) = O -> rejected_as_empty w (handle w req b))
  /\ (keys_length (body req) <> O ->
      classified (trace (handle w req b)) = [body req]).
Proof.
  intros Hu Hn.
  destruct (extractIdentifier_returns _ Hu Hn) as [si Hsi].
  destruct (extractContactInfo_returns _ Hu Hn) as [ci Hci].
  unfold rejected_as_empty.
  ingest_cases; observe; try congruence;
    match goal with
    | H : negb (truthy _) || _ = _ |- _ =>
        rewrite (empty_guard _ Hu Hn) in H;
        first [apply Nat.eqb_eq in H | apply Nat.eqb_neq in H]
    end;
    (split; intros Hk; try contradiction);
    repeat split; reflexivity.
Qed.

Lemma keyless_payload_rejected_witness :
  (body (web_request (Obj [])) <> Undefined
   /\ body (web_request (Obj [])) <> Null
   /\ keys_length (body (web_request (Obj []))) = O)
  /\ rejected_as_empty accepting_world
       (handle accepting_world (web_request (Obj [])) EventBus.create).
Proof.
  assert (Hu : body (web_request (Obj [])) <> Undefined) by discriminate.
  assert (Hn : body (web_request (Obj [])) <> Null) by discriminate.
  split; [repeat split; [exact Hu | exact Hn] | ].
  destruct (keyless_payload_rejected accepting_world (web_request (Obj []))
              EventBus.create Hu Hn) as [Hempty _].
  apply Hempty. reflexivity.
Defined.

(** With the classifier out of reach the request is still accepted:
    the stored row is the default one and the answer is 202. *)
Example unreachable_classifier_still_accepted :
  inserts (trace (handle accepting_world (web_request sample_lead) EventBus.create))
    = [(default_row, true)]
  /\ responses (trace (handle accepting_world (web_request sample_lead) EventBus.create))
    = [(202, Obj [("success", Bool true);
                  ("leadId", Str "lead-1");
                  ("requestId", Str "req-1");
                  ("processingTimeMs", Num (Fin 42 0));
                  ("classification",
                   Obj [("intent", Str "other");
                        ("urgency", Num (Fin 5 0));
                        ("persona", Str "professional");
                        ("language", Str "en")])])].
Proof. split; reflexivity. Qed.

(** C6 (as stated) fails: a JSON array holding one lead is not an
    object, yet it is not rejected; the handler classifies it, stores it
    and answers 202. *)
Lemma array_payload_not_rejected :
  empty_or_not_object (body (web_request (Arr [sample_lead])))
  /\ ~ rejected_as_empty accepting_world
         (handle accepting_world (web_request (Arr [sample_lead])) EventBus.create).
Proof.
  split; [exact I | ].
  intros (Hresp & _). vm_compute in Hresp. discriminate Hresp.
Qed.

(** The same holds for a non-empty string body. *)
Example string_payload_classified :
  classified (trace (handle accepting_world (web_request (Str "call me")) EventBus.create))
  = [Str "call me"].
Proof. reflexivity. Qed.

(** A [null] body without an [x-source-id] header does not reach the
    emptiness guard: [extractIdentifier] reads a property of it first,
    and the handler answers 500. *)
Example null_payload_server_error :
  responses (trace (handle accepting_world
                      {| body := Null; headers := ∅; ip := Str "127.0.0.1" |}
                      EventBus.create))
  = [(500, Obj [("success", Bool false);
                ("error", Str "Ingestion failed");
                ("requestId", Str "req-1");
                ("message", Undefined)])].
Proof. reflexivity. Qed.

(** *** Bodies that are null or undefined *)

(** The answer to a failure, with nothing classified, stored or
    published. *)
Definition failed_untouched (s : state) : Prop :=
  (exists json, responses (trace s) = [(500, json)])
  /\ classified (trace s) = []
  /\ queries (trace s) = []
  /\ emitted (trace s) = [].

(** A request without a body that names its source in a header. *)
Definition bodiless_request : request :=
  {| body := Undefined;
     headers := {[ "x-source-id" := "+1234567890" ]};
     ip := Str "127.0.0.1" |}.

(** X26. A body that is [null] or [undefined]: when the request
    carries a non-empty [x-source-id] header it is rejected like an empty
    payload, with the 400 "Empty payload"; without that header the
    identifier extraction reads a property of the body first, throws, and
    the answer is a 500.  Either way nothing is classified, stored or
    published. *)
Theorem nullish_body_answer (w : world) (req : request) (b : EventBus.bus) :
  body req = Null \/ body req = Undefined ->
  (truthy (header req "x-source-id") = true -> rejected_as_empty w (handle w req b))
  /\ (truthy (header req "x-source-id") = false -> failed_untouched (handle w req b)).
Proof.
  intros Hbody. unfold rejected_as_empty, failed_untouched.
  ingest_unfold.
  destruct (truthy (header req "x-source-id")) eqn:Hid; ingest_unfold.
  - split; [intros _ | discriminate].
    destruct Hbody as [-> | ->]; cbn [truthy negb orb]; ingest_unfold; observe;
      repeat split.
  - split; [discriminate | intros _].
    destruct Hbody as [-> | ->]; cbn [extractIdentifier get bind]; ingest_unfold;
      observe; repeat split; eexists; reflexivity.
Qed.

Lemma nullish_body_answer_witness :
  (body bodiless_request = Undefined
   /\ truthy (header bodiless_request "x-source-id") = true)
  /\ rejected_as_empty accepting_world
       (handle accepting_world bodiless_request EventBus.create).
Proof.
  split; [split; reflexivity | ].
  destruct (nullish_body_answer accepting_world bodiless_request EventBus.create
              (or_intror eq_refl)) as [H _].
  apply H. reflexivity.
Defined.

(** ** Answers, statements and events of one request *)

(** The audit inserts a trace shows, with their success. *)
Definition audits (t : list effect) : list (audit_row * bool) :=
  flat_map (fun e => match e with
                     | Queried (InsertAudit r) ok => [(r, ok)]
                     | _ => []
                     end) t.

(** The channels [detectChannel] knows. *)
Definition channels : list string :=
  ["whatsapp"; "sms"; "facebook"; "telegram"; "web"].

(** A value that a chain of [||] ending in [null] can produce. *)
Definition null_or_truthy (v : value) : Prop :=
  v = Null \/ truthy v = true.

(** A database that stores leads and refuses the audit log, and the
    audit row it refuses for the sample lead. *)
Definition audit_refusing_database (q : query) : completion value :=
  match q with
  | InsertLead _ => Return (Obj [("rows", Arr [Obj [("id", Str "lead-1")]])])
  | InsertAudit _ => Throw (Error "relation audit_log does not exist")
  end.

Definition refused_audit : audit_row :=
  {| event_type := "lead_created";
     event_source := "api";
     lead_id := Str "lead-1";
     audited := failure_result "en";
     processingTime := 40;
     ip_address := Str "127.0.0.1";
     user_agent := Undefined |}.

(** The answer to the sample lead when the classifier is out of reach
    and the database accepts both statements. *)
Definition accepted_answer : value :=
  Obj [("success", Bool true);
       ("leadId", Str "lead-1");
       ("requestId", Str "req-1");
       ("processingTimeMs", Num (Fin 42 0));
       ("classification",
        Obj [("intent", Str "other");
             ("urgency", Num (Fin 5 0));
             ("persona", Str "professional");
             ("language", Str "en")])].

Ltac observe_all :=
  unfold responses, emitted, inserts, queries, classified, audits;
  rewrite ?flat_map_app; cbn [flat_map app];
  rewrite ?flat_map_Bus by reflexivity;
  cbn [app].

(** X2. Every execution of the handler sends exactly one response; its
    status is 202, 400 or 500, its body carries the request identifier,
    and [success] is true for 202 only. *)
Theorem ingest_answers_once (w : world) (req : request) (b : EventBus.bus) :
  exists status json,
    responses (trace (handle w req b)) = [(status, json)]
    /\ (status = 202 \/ status = 400 \/ status = 500)
    /\ get_opt json "success" = Bool (status =? 202)
    /\ get_opt json "requestId" = Str (requestId w).
Proof.
  ingest_cases; observe; eexists _, _; (split; [reflexivity | ]);
    (split; [auto | split; reflexivity]).
Qed.

(** X3. A 202 answer means that the whole pipeline ran: the body was
    classified once, the lead insert and then the audit insert succeeded
    and nothing else was sent to the database, and exactly one "lead:new"
    event was published.  The audit row, the event and the answer carry
    the same lead identifier; the audit row holds the classification and
    the event the priority computed from it. *)
Theorem accepted_means_stored_and_published
  (w : world) (req : request) (b : EventBus.bus) (json : value) :
  responses (trace (handle w req b)) = [(202, json)] ->
  exists row audit payload,
    queries (trace (handle w req b))
      = [(InsertLead row, true); (InsertAudit audit, true)]
    /\ emitted (trace (handle w req b)) = [("lead:new", payload)]
    /\ classified (trace (handle w req b)) = [body req]
    /\ audited audit = classifyLead (ai w) (body req) handler_options
    /\ lead_id audit = get_opt json "leadId"
    /\ get_opt payload "leadId" = get_opt json "leadId"
    /\ get_opt payload "priority"
       = Num (Fin (calculatePriority (classifyLead (ai w) (body req) handler_options)) 0).
Proof.
  ingest_cases; observe; intros H; try discriminate H.
  all: injection H as <-.
  all: eexists _, _, _; repeat split.
Qed.

Lemma accepted_means_stored_and_published_witness :
  responses (trace (handle accepting_world (web_request sample_lead) EventBus.create))
    = [(202, accepted_answer)]
  /\ exists row audit payload,
       queries (trace (handle accepting_world (web_request sample_lead) EventBus.create))
         = [(InsertLead row, true); (InsertAudit audit, true)]
       /\ emitted (trace (handle accepting_world (web_request sample_lead) EventBus.create))
          = [("lead:new", payload)]
       /\ get_opt payload "leadId" = Str "lead-1".
Proof.
  assert (H : responses (trace (handle accepting_world (web_request sample_lead)
                                       EventBus.create))
              = [(202, accepted_answer)]) by reflexivity.
  split; [exact H | ].
  destruct (accepted_means_stored_and_published
              accepting_world (web_request sample_lead) EventBus.create
              accepted_answer H)
    as (row & audit & payload & Hq & He & _ & _ & _ & Hid & _).
  exists row, audit, payload. split; [exact Hq | ]. split; [exact He | exact Hid].
Defined.

(** X4. The audit insert is issued only after a lead insert that
    succeeded, as the second and last statement, with the identifier read
    from the first row that insert returned.  When the audit insert
    fails, the answer is a 500, nothing is published and the bus is left
    as it was; the lead insert before it is not undone. *)
Theorem audit_follows_stored_lead (w : world) (req : request) (b : EventBus.bus) :
  (forall a ok, In (a, ok) (audits (trace (handle w req b))) ->
     exists row stored rows r,
       queries (trace (handle w req b))
         = [(InsertLead row, true); (InsertAudit a, ok)]
       /\ db_query w (InsertLead row) = Return stored
       /\ get stored "rows" = Return rows
       /\ first rows = Return r
       /\ get r "id" = Return (lead_id a))
  /\ (forall a, In (a, false) (audits (trace (handle w req b))) ->
        emitted (trace (handle w req b)) = []
        /\ bus (handle w req b) = b
        /\ exists json, responses (trace (handle w req b)) = [(500, json)]).
Proof.
  ingest_cases; observe_all.
  all: split; [intros arow flag H | intros arow H]; cbn [In] in H; try contradiction.
  all: destruct H as [H | []]; try discriminate H.
  all: try (injection H as <- <-).
  all: try (injection H as <-).
  all: try (eexists _, _, _, _; repeat split; eassumption).
  all: repeat split; eauto.
Qed.

Lemma audit_follows_stored_lead_witness :
  In (refused_audit, false)
     (audits (trace (handle (sample_world unreachable_backend audit_refusing_database)
                            (web_request sample_lead) EventBus.create)))
  /\ emitted (trace (handle (sample_world unreachable_backend audit_refusing_database)
                            (web_request sample_lead) EventBus.create)) = []
  /\ exists json,
       responses (trace (handle (sample_world unreachable_backend audit_refusing_database)
                                (web_request sample_lead) EventBus.create))
         = [(500, json)].
Proof.
  assert (H : In (refused_audit, false)
                (audits (trace (handle (sample_world unreachable_backend
                                                     audit_refusing_database)
                                       (web_request sample_lead) EventBus.create)))).
  { vm_compute. left. reflexivity. }
  split; [exact H | ].
  destruct (audit_follows_stored_lead
              (sample_world unreachable_backend audit_refusing_database)
              (web_request sample_lead) EventBus.create) as [_ Hfail].
  destruct (Hfail refused_audit H) as (He & _ & Hr).
  split; assumption.
Defined.

(** ** Channel detection and contact extraction *)

Lemma or_else_null_or_truthy (a b : value) :
  null_or_truthy b -> null_or_truthy (or_else a b).
Proof.
  intros H. unfold or_else. destruct (truthy a) eqn:E; [right; exact E | exact H].
Qed.

Lemma toLowerCase_app (s r : string) :
  toLowerCase (s ++ r) = toLowerCase s ++ toLowerCase r.
Proof.
  induction s as [ | c s IH]; [reflexivity | ].
  change (String c s ++ r) with (String c (s ++ r)).
  cbn [toLowerCase]. rewrite IH. reflexivity.
Qed.

Lemma startsWith_app (s r : string) : startsWith (s ++ r) s = true.
Proof.
  induction s as [ | c s IH]; [reflexivity | ].
  change (String c s ++ r) with (String c (s ++ r)).
  cbn [startsWith]. rewrite Ascii.eqb_refl. exact IH.
Qed.

Lemma string_includes_app (pre s post : string) :
  string_includes (pre ++ s ++ post) s = true.
Proof.
  induction pre as [ | c pre IH].
  - change ("" ++ s ++ post) with (s ++ post).
    destruct (s ++ post) eqn:E; cbn [string_includes];
      rewrite <- E, startsWith_app; reflexivity.
  - change (String c pre ++ s ++ post) with (String c (pre ++ s ++ post)).
    cbn [string_includes]. rewrite IH. apply orb_true_r.
Qed.

Lemma detectChannel_listed (req : request) : In (detectChannel req) channels.
Proof.
  unfold detectChannel, channels.
  repeat match goal with
         | |- context [if ?c then _ else _] => destruct c
         end; cbn [In]; tauto.
Qed.

Lemma startsWith_inv (p s : string) :
  startsWith s p = true -> exists post, s = p ++ post.
Proof.
  revert s. induction p as [ | a p IH]; intros s H.
  - exists s. reflexivity.
  - destruct s as [ | b s]; cbn [startsWith] in H; [discriminate H | ].
    apply andb_true_iff in H as [Hab H].
    apply Ascii.eqb_eq in Hab as ->.
    destruct (IH s H) as [post ->]. exists post. reflexivity.
Qed.

Lemma string_includes_inv (s sub : string) :
  string_includes s sub = true -> exists pre post, s = pre ++ sub ++ post.
Proof.
  induction s as [ | c s IH]; cbn [string_includes]; intros H;
    apply orb_true_iff in H as [H | H].
  - apply startsWith_inv in H as [post ->]. exists "", post. reflexivity.
  - discriminate H.
  - apply startsWith_inv in H as [post ->]. exists "", post. reflexivity.
  - destruct (IH H) as (pre & post & ->). exists (String c pre), post.
    reflexivity.
Qed.

Lemma toLowerCase_app_inv (x y s : string) :
  toLowerCase s = x ++ y ->
  exists a b, s = a ++ b /\ toLowerCase a = x /\ toLowerCase b = y.
Proof.
  revert s. induction x as [ | c x IH]; intros s H.
  - exists "", s. repeat split. exact H.
  - destruct s as [ | d s]; [discriminate H | ].
    change (String c x ++ y) with (String c (x ++ y)) in H.
    cbn [toLowerCase] in H. injection H as Hc H.
    destruct (IH s H) as (a & b & -> & Ha & Hb).
    exists (String d a), b. cbn [toLowerCase]. rewrite Hc, Ha.
    repeat split. exact Hb.
Qed.

(** An agent none of whose parts reads [word] in lower case does not
    include [word] once lowered. *)
Lemma lowered_excludes (agent word : string) :
  (forall before part behind,
      agent = before ++ part ++ behind -> toLowerCase part <> word) ->
  string_includes (toLowerCase agent) word = false.
Proof.
  intros H. destruct (string_includes (toLowerCase agent) word) eqn:E;
    [exfalso | reflexivity].
  apply string_includes_inv in E as (pre & post & E).
  apply toLowerCase_app_inv in E as (before & rest & -> & _ & E).
  apply toLowerCase_app_inv in E as (part & behind & -> & E & _).
  exact (H before part behind eq_refl E).
Qed.

Lemma lowered_includes (agent before part behind : string) :
  agent = before ++ part ++ behind ->
  string_includes (toLowerCase agent) (toLowerCase part) = true.
Proof.
  intros ->. rewrite !toLowerCase_app. apply string_includes_app.
Qed.

(** X5. [detectChannel] answers one of five channels.  The user agent
    is matched anywhere and in any letter case: one that contains
    "whatsapp" gives "whatsapp" whatever the other headers say; one that
    contains "twilio" gives "sms" when no part of it reads "whatsapp" in
    any letter case, and "whatsapp" only when some part does.  A request
    without a user agent and without the two signature headers is
    "web". *)
Theorem detectChannel_by_user_agent (req : request) :
  In (detectChannel req) channels
  /\ (forall agent before word behind,
        headers req !! "user-agent" = Some agent ->
        agent = before ++ word ++ behind ->
        (toLowerCase word = "whatsapp" -> detectChannel req = "whatsapp")
        /\ (toLowerCase word = "twilio" ->
            detectChannel req = "whatsapp" \/ detectChannel req = "sms")
        /\ (toLowerCase word = "twilio" ->
            (forall before' part behind',
                agent = before' ++ part ++ behind' ->
                toLowerCase part <> "whatsapp") ->
            detectChannel req = "sms")
        /\ (toLowerCase word = "twilio" ->
            detectChannel req = "whatsapp" ->
            exists before' part behind',
              agent = before' ++ part ++ behind'
              /\ toLowerCase part = "whatsapp"))
  /\ (headers req !! "user-agent" = None ->
      headers req !! "x-fb-signature" = None ->
      headers req !! "x-telegram-bot-api-secret-token" = None ->
      detectChannel req = "web").
Proof.
  split; [apply detectChannel_listed | ]. split.
  - intros agent before word behind Hagent ->.
    unfold detectChannel. rewrite Hagent.
    cbn [fmap option_fmap option_map default from_option Datatypes.id].
    split; [ | split; [ | split]].
    + intros Hw. rewrite <- Hw, (lowered_includes _ before word behind eq_refl).
      reflexivity.
    + intros Hw.
      rewrite <- Hw at 2. rewrite (lowered_includes _ before word behind eq_refl).
      destruct (string_includes _ "whatsapp"); [left | right]; reflexivity.
    + intros Hw Hnone. rewrite (lowered_excludes _ "whatsapp" Hnone).
      rewrite <- Hw, (lowered_includes _ before word behind eq_refl).
      reflexivity.
    + intros Hw.
      destruct (string_includes (toLowerCase (before ++ word ++ behind))
                  "whatsapp") eqn:E.
      * intros _. apply string_includes_inv in E as (pre & post & E).
        apply toLowerCase_app_inv in E as (b' & rest & E1 & _ & E).
        apply toLowerCase_app_inv in E as (part & h' & -> & E & _).
        exists b', part, h'. split; assumption.
      * rewrite <- Hw at 1.
        rewrite (lowered_includes _ before word behind eq_refl).
        intros H; discriminate H.
  - intros Hagent Hfb Htg. unfold detectChannel, header.
    rewrite Hagent, Hfb, Htg. reflexivity.
Qed.

Lemma detectChannel_by_user_agent_witness :
  ((headers {| body := Null;
               headers := {[ "user-agent" := "Mozilla/5.0 WhatsApp/2.23" ]};
               ip := Null |} !! "user-agent" = Some "Mozilla/5.0 WhatsApp/2.23"
    /\ "Mozilla/5.0 WhatsApp/2.23" = "Mozilla/5.0 " ++ "WhatsApp" ++ "/2.23"
    /\ toLowerCase "WhatsApp" = "whatsapp")
   /\ detectChannel {| body := Null;
                       headers := {[ "user-agent" := "Mozilla/5.0 WhatsApp/2.23" ]};
                       ip := Null |} = "whatsapp")
  /\ ((headers {| body := Null;
                  headers := {[ "user-agent" := "TwilioProxy/1.1" ]};
                  ip := Null |} !! "user-agent" = Some "TwilioProxy/1.1"
       /\ "TwilioProxy/1.1" = "" ++ "Twilio" ++ "Proxy/1.1"
       /\ toLowerCase "Twilio" = "twilio"
       /\ (forall before part behind,
              "TwilioProxy/1.1" = before ++ part ++ behind ->
              toLowerCase part <> "whatsapp"))
      /\ detectChannel {| body := Null;
                          headers := {[ "user-agent" := "TwilioProxy/1.1" ]};
                          ip := Null |} = "sms").
Proof.
  assert (Hnone : forall before part behind,
             "TwilioProxy/1.1" = before ++ part ++ behind ->
             toLowerCase part <> "whatsapp").
  { intros before part behind E Hw.
    pose proof (lowered_includes _ before part behind E) as H.
    rewrite Hw in H. vm_compute in H. discriminate H. }
  split; (split; [repeat split; try exact Hnone | ]).
  - destruct (detectChannel_by_user_agent
                {| body := Null;
                   headers := {[ "user-agent" := "Mozilla/5.0 WhatsApp/2.23" ]};
                   ip := Null |}) as (_ & H & _).
    apply (H "Mozilla/5.0 WhatsApp/2.23" "Mozilla/5.0 " "WhatsApp" "/2.23");
      reflexivity.
  - destruct (detectChannel_by_user_agent
                {| body := Null;
                   headers := {[ "user-agent" := "TwilioProxy/1.1" ]};
                   ip := Null |}) as (_ & H & _).
    apply (H "TwilioProxy/1.1" "" "Twilio" "Proxy/1.1");
      [reflexivity | reflexivity | reflexivity | exact Hnone].
Defined.

Lemma extractIdentifier_null_or_truthy (rawData x : value) :
  extractIdentifier rawData = Return x -> null_or_truthy x.
Proof.
  destruct rawData; cbn [extractIdentifier get bind]; intros H;
    try discriminate H; injection H as <-;
    repeat apply or_else_null_or_truthy; left; reflexivity.
Qed.

Lemma extractContactInfo_null_or_truthy (rawData : value) (c : contact_info) :
  extractContactInfo rawData = Return c ->
  null_or_truthy (name c) /\ null_or_truthy (phone c) /\ null_or_truthy (email c).
Proof.
  destruct rawData; cbn [extractContactInfo get bind]; intros H;
    try discriminate H; injection H as <-; cbn [name phone email];
    repeat split; repeat apply or_else_null_or_truthy; left; reflexivity.
Qed.

(** X6. What [extractIdentifier] and [extractContactInfo] return is,
    field by field, either [null] or a truthy value: an alias that is
    missing, empty, zero or false is passed over.  A truthy [phone]
    member of the payload is both the identifier and the contact phone. *)
Theorem extracted_fields_null_or_truthy (rawData : value) :
  (forall x, extractIdentifier rawData = Return x -> null_or_truthy x)
  /\ (forall c, extractContactInfo rawData = Return c ->
        null_or_truthy (name c) /\ null_or_truthy (phone c)
        /\ null_or_truthy (email c))
  /\ (forall fields v,
        rawData = Obj fields -> own fields "phone" = Some v -> truthy v = true ->
        extractIdentifier rawData = Return v
        /\ exists c, extractContactInfo rawData = Return c /\ phone c = v).
Proof.
  split; [intros x; apply extractIdentifier_null_or_truthy | ].
  split; [intros c; apply extractContactInfo_null_or_truthy | ].
  intros fields v -> Hown Hv.
  cbn [extractIdentifier extractContactInfo get bind]. rewrite Hown.
  cbn [default from_option Datatypes.id]. unfold or_else at 1. rewrite Hv.
  split; [reflexivity | ].
  eexists. split; [reflexivity | ]. cbn [phone]. unfold or_else at 1. rewrite Hv.
  reflexivity.
Qed.

Lemma extracted_fields_null_or_truthy_witness :
  (sample_lead = Obj [("phone", Str "+1234567890");
                      ("text", Str "I want to buy a house, budget $500000")]
   /\ truthy (Str "+1234567890") = true)
  /\ extractIdentifier sample_lead = Return (Str "+1234567890").
Proof.
  split; [split; reflexivity | ].
  destruct (extracted_fields_null_or_truthy sample_lead) as (_ & _ & H).
  exact (proj1 (H _ (Str "+1234567890") eq_refl eq_refl eq_refl)).
Defined.

(** The one lead insert of an execution, with the values it is built
    from. *)
Lemma inserts_form (w : world) (req : request) (b : EventBus.bus) :
  inserts (trace (handle w req b)) = []
  \/ exists si ci ok,
       extractContactInfo (body req) = Return ci
       /\ (si = header req "x-source-id" /\ truthy si = true
           \/ extractIdentifier (body req) = Return si)
       /\ inserts (trace (handle w req b)) =
            [(lead_params
                (or_else (header req "x-source-channel") (Str (detectChannel req)))
                si
                (or_else (header req "x-source-provider") (Str "unknown"))
                (body req) ci
                (classifyLead (ai w) (body req) handler_options), ok)].
Proof.
  ingest_cases; observe; try (left; reflexivity);
    right; eexists _, _, _; (split; [reflexivity | ]);
    (split; [ | reflexivity]);
    first [left; split; [reflexivity | assumption] | right; reflexivity].
Qed.

Lemma classifyLead_no_embeddings (ai : backend) (rawData : value) (opts : options) :
  embeddings (classifyLead ai rawData opts) = Null.
Proof.
  unfold classifyLead, try_catch.
  destruct (classify ai rawData _) as [c | e] eqn:E; [ | reflexivity].
  unfold classify in E. bind_inv E. injection E as <-. reflexivity.
Qed.

(** X7. Whatever row the handler sends to the leads ledger: the raw
    payload is the request body as received, the context vectors are the
    empty object (the classifier never produces embeddings), channel,
    provider and language are never empty (a header or its fallback),
    and the source identifier and the three contact fields are each
    [null] or a truthy value. *)
Theorem stored_row_provenance
  (w : world) (req : request) (b : EventBus.bus) (row : lead_row) (ok : bool) :
  In (row, ok) (inserts (trace (handle w req b))) ->
  raw_data row = body req
  /\ context_vectors row = Obj []
  /\ truthy (source_channel row) = true
  /\ truthy (source_provider row) = true
  /\ truthy (primary_language row) = true
  /\ null_or_truthy (source_identifier row)
  /\ null_or_truthy (contact_name row)
  /\ null_or_truthy (contact_phone row)
  /\ null_or_truthy (contact_email row).
Proof.
  intros H.
  destruct (inserts_form w req b) as [E | (si & ci & ok' & Hci & Hsi & E)];
    rewrite E in H; cbn [In] in H; [contradiction | ].
  destruct H as [[= <- _] | []].
  apply extractContactInfo_null_or_truthy in Hci as (Hn & Hp & He).
  cbn [lead_params raw_data context_vectors source_channel source_provider
       primary_language source_identifier contact_name contact_phone contact_email].
  rewrite classifyLead_no_embeddings.
  split; [reflexivity | ]. split; [reflexivity | ].
  split.
  { apply or_else_truthy.
    destruct (detectChannel_listed req) as [<- | [<- | [<- | [<- | [<- | []]]]]];
      reflexivity. }
  split; [apply or_else_truthy; reflexivity | ].
  split; [apply or_else_truthy; reflexivity | ].
  split; [ | repeat split; assumption].
  destruct Hsi as [[-> Ht] | Hsi]; [right; exact Ht | ].
  eapply extractIdentifier_null_or_truthy, Hsi.
Qed.

Lemma stored_row_provenance_witness :
  In (default_row, true)
     (inserts (trace (handle accepting_world (web_request sample_lead) EventBus.create)))
  /\ raw_data default_row = sample_lead
  /\ context_vectors default_row = Obj []
  /\ truthy (primary_language default_row) = true.
Proof.
  assert (H : In (default_row, true)
                (inserts (trace (handle accepting_world (web_request sample_lead)
                                        EventBus.create)))).
  { vm_compute. left. reflexivity. }
  split; [exact H | ].
  destruct (stored_row_provenance accepting_world (web_request sample_lead)
              EventBus.create default_row true H) as (Hraw & Hctx & _ & _ & Hlang & _).
  split; [exact Hraw | ]. split; assumption.
Defined.

(** ** The event bus *)

Import EventBus.

(** The payloads a listener was called with, in order. *)
Definition deliveries (listener_id : nat) (effs : list EventBus.effect) : list value :=
  flat_map (fun e => match e with
                     | Called i p => if Nat.eqb i listener_id then [p] else []
                     | _ => []
                     end) effs.

(** What a callback throws or rejects with, if anything. *)
Definition failure {E} (r : reaction_of E) : option E :=
  match r with
  | Completes => None
  | ThrowsNow e | Rejects e => Some e
  end.

(** The reaction of the function behind a listener: of the callback, for
    a listener registered through [subscribe]. *)
Definition callback (l : listener) (p : value) : reaction :=
  match registration l with
  | Wrapped handler => handler p
  | Plain f =>
      match f p with
      | Completes => Completes
      | ThrowsNow e => ThrowsNow e
      | Rejects e => Rejects e
      end
  end.

Definition handler_error (event : string) (e : error) : EventBus.effect :=
  LoggedError ("Event handler error for " ++ event) e.

(** [null] and [undefined]: the two values that have no members. *)
Definition nullish (t : thrown) : bool :=
  match t with
  | Value Null | Value Undefined => true
  | _ => false
  end.

(** The log entry of a failure: the message and the stack of an [Error]
    object, the members "message" and "stack" of another value
    ([undefined] where it has none). *)
Definition log_entry (event : string) (t : thrown) : EventBus.effect :=
  match t with
  | ErrorObject e => handler_error event e
  | Value v =>
      LoggedValue ("Event handler error for " ++ event)
                  (get_opt v "message") (get_opt v "stack")
  end.

(** The error raised by reading the message of [null] or [undefined]. *)
Definition unreadable (t : thrown) : error :=
  match t with
  | Value Undefined =>
      TypeError "Cannot read properties of undefined (reading 'message')"
  | _ => TypeError "Cannot read properties of null (reading 'message')"
  end.

Definition is_log (e : EventBus.effect) : bool :=
  match e with
  | LoggedError _ _ | LoggedValue _ _ _ => true
  | _ => false
  end.

Definition is_unhandled (e : EventBus.effect) : bool :=
  match e with
  | Unhandled _ => true
  | _ => false
  end.

(** The log entries and the unhandled rejections among effects. *)
Definition logs (effs : list EventBus.effect) : list EventBus.effect :=
  List.filter is_log effs.

Definition rejections (effs : list EventBus.effect) : list EventBus.effect :=
  List.filter is_unhandled effs.

(** What the callbacks of [ls] fail with when called with [p], and over
    a run of emits. *)
Definition failures_on (ls : list listener) (p : value) : list thrown :=
  flat_map (fun l => match failure (callback l p) with
                     | Some t => [t]
                     | None => []
                     end) ls.



(** How often [listener_id] occurs among the listeners: the number of
    copies of a payload it receives per emit. *)
Definition copies (listener_id : nat) (p : value) (ls : list listener) : list value :=
  flat_map (fun l => if Nat.eqb (id l) listener_id then [p] else []) ls.

(** Two subscribers of "lead:new": the first one always fails (it throws
    on a payload without a lead and rejects on the others), the second
    one always completes. *)
Definition failing_handler (p : value) : reaction :=
  match p with
  | Null => ThrowsNow (Error "no lead")
  | _ => Rejects (Error "socket closed")
  end.

Definition two_subscribers : bus :=
  subscribe "lead:new" (fun _ => Completes)
    (subscribe "lead:new" failing_handler create).






(** The [catch] block logs the failure, unless the value caught is
    [null] or [undefined]: then it throws. *)
Lemma caught_cases (event : string) (t : thrown) :
  caught event t = if nullish t then Throw (unreadable t)
                   else Return (log_entry event t).
Proof.
  destruct t as [e | v]; [reflexivity | ].
  destruct v; reflexivity.
Qed.

Lemma log_entry_is_log (event : string) (t : thrown) :
  is_log (log_entry event t) = true.
Proof. destruct t; reflexivity. Qed.

Lemma logs_app (l1 l2 : list EventBus.effect) :
  logs (l1 ++ l2)%list = (logs l1 ++ logs l2)%list.
Proof. apply List.filter_app. Qed.

Lemma rejections_app (l1 l2 : list EventBus.effect) :
  rejections (l1 ++ l2)%list = (rejections l1 ++ rejections l2)%list.
Proof. apply List.filter_app. Qed.

Lemma deliveries_app (i : nat) (l1 l2 : list EventBus.effect) :
  deliveries i (l1 ++ l2)%list = (deliveries i l1 ++ deliveries i l2)%list.
Proof. unfold deliveries. apply flat_map_app. Qed.

(** What one [wrappedHandler] call leaves behind: no call of a listener;
    for a failure its log entry, at once when the callback threw and
    later when it rejected, or, when the value is nullish, one unhandled
    rejection. *)
Definition wrapped_effects (event : string) (r : reaction)
  : list EventBus.effect * list EventBus.effect :=
  match r with
  | Completes => ([], [])
  | ThrowsNow t =>
      if nullish t then ([], [Unhandled (unreadable t)])
      else ([log_entry event t], [])
  | Rejects t =>
      if nullish t then ([], [Unhandled (unreadable t)])
      else ([], [log_entry event t])
  end.

Lemma wrappedHandler_effects (event : string) (h : value -> reaction) (p : value) :
  wrappedHandler event h p = wrapped_effects event (h p).
Proof.
  unfold wrappedHandler, wrapped_effects.
  destruct (h p) as [ | t | t]; [reflexivity | | ];
    rewrite caught_cases; destruct (nullish t); reflexivity.
Qed.

Lemma wrapped_effects_deliveries (event : string) (r : reaction) (i : nat) :
  deliveries i (fst (wrapped_effects event r)) = [].
Proof.
  destruct r as [ | t | t]; cbn [wrapped_effects]; [reflexivity | | ];
    destruct (nullish t); try reflexivity.
  destruct t as [e | v]; reflexivity.
Qed.

Lemma wrapped_effects_counts (event : string) (r : reaction) :
  let effs := (fst (wrapped_effects event r) ++ snd (wrapped_effects event r))%list in
  let failed := match failure r with Some t => [t] | None => [] end in
  length (List.filter is_log effs)
    = length (List.filter (fun t => negb (nullish t)) failed)
  /\ length (List.filter is_unhandled effs) = length (List.filter nullish failed).
Proof.
  destruct r as [ | t | t]; cbn [wrapped_effects failure]; [split; reflexivity | | ];
    destruct (nullish t) eqn:E; cbn; rewrite ?E, ?log_entry_is_log; cbn;
    try (split; reflexivity);
    destruct t as [e | v]; split; reflexivity.
Qed.

Definition count {A} (f : A -> bool) (l : list A) : nat := length (List.filter f l).


(** Whether the failure of a reaction is on record: its log entry among
    the effects before [emit] returns for a throw, among the later ones
    for a rejection; for a nullish value no entry but an unhandled
    rejection. *)
Definition recorded (event : string) (r : reaction)
  (now later : list EventBus.effect) : Prop :=
  match r with
  | Completes => True
  | ThrowsNow t =>
      if nullish t then In (Unhandled (unreadable t)) later
      else In (log_entry event t) now
  | Rejects t =>
      if nullish t then In (Unhandled (unreadable t)) later
      else In (log_entry event t) later
  end.

Lemma recorded_wrapped (event : string) (r : reaction) :
  recorded event r (fst (wrapped_effects event r)) (snd (wrapped_effects event r)).
Proof.
  destruct r as [ | t | t]; cbn [recorded wrapped_effects]; [exact I | | ];
    destruct (nullish t); left; reflexivity.
Qed.

Lemma recorded_more (event : string) (r : reaction)
  (now later now' later' : list EventBus.effect) :
  incl now now' -> incl later later' ->
  recorded event r now later -> recorded event r now' later'.
Proof.
  intros Hn Hl. destruct r as [ | t | t]; cbn [recorded]; [auto | | ];
    destruct (nullish t); auto.
Qed.

Lemma dispatch_guarded (event : string) (p : value) (ls : list listener) :
  Forall (fun l => guarded l = true) ls ->
  exists now later,
    dispatch event p ls = (Return tt, now, later)
    /\ (forall i, deliveries i now = copies i p ls)
    /\ (forall l, In l ls -> recorded event (callback l p) now later)
    /\ count is_log (now ++ later)%list
       = count (fun t => negb (nullish t)) (failures_on ls p)
    /\ count is_unhandled (now ++ later)%list
       = count nullish (failures_on ls p).
Proof.
  induction 1 as [ | l ls Hl Hls IH].
  - exists [], []. simpl. repeat split; intros; contradiction.
  - destruct IH as (now & later & E & Hd & Hf & Hlog & Hrej).
    cbn [dispatch]. rewrite E.
    change (failures_on (l :: ls) p)
      with (match failure (callback l p) with
            | Some t => [t]
            | None => []
            end ++ failures_on ls p)%list.
    assert (Hcb : exists h, registration l = Wrapped h /\ callback l p = h p).
    { unfold guarded in Hl. unfold callback.
      destruct (registration l) as [h | f]; [eauto | discriminate Hl]. }
    destruct Hcb as (h & Hreg & Hcb). rewrite Hreg, wrappedHandler_effects, Hcb.
    pose proof (wrapped_effects_deliveries event (h p)) as Hdw.
    pose proof (recorded_wrapped event (h p)) as Hrw.
    destruct (wrapped_effects_counts event (h p)) as [Hc1 Hc2].
    destruct (wrapped_effects event (h p)) as [logged pending].
    cbn [fst snd] in *.
    exists (Called (id l) p :: logged ++ now)%list, (pending ++ later)%list.
    split; [reflexivity | ].
    change (Called (id l) p :: logged ++ now)%list
      with ([Called (id l) p] ++ logged ++ now)%list.
    split; [ | split; [ | split]].
    + intros i. unfold copies. cbn [flat_map].
      rewrite !deliveries_app, Hdw, Hd. cbn [deliveries flat_map app].
      destruct (Nat.eqb (id l) i); reflexivity.
    + intros l' [<- | Hin].
      * rewrite Hcb. revert Hrw. apply recorded_more.
        -- intros x Hx. rewrite !in_app_iff. tauto.
        -- intros x Hx. rewrite !in_app_iff. tauto.
      * generalize (Hf l' Hin). apply recorded_more.
        -- intros x Hx. rewrite !in_app_iff. tauto.
        -- intros x Hx. rewrite !in_app_iff. tauto.
    + unfold count in *. rewrite !List.filter_app, !length_app in *.
      cbn [List.filter is_log length]. lia.
    + unfold count in *. rewrite !List.filter_app, !length_app in *.
      cbn [List.filter is_unhandled length]. lia.
Qed.


Lemma emit_guarded (now : string) (event : string) (p : value) (b : bus)
  (ls : list listener) :
  default [] (listeners b !! event) = ls -> ls <> [] ->
  Forall (fun l => guarded l = true) ls ->
  returned (emit now event p b) = Return true
  /\ listeners (after (emit now event p b)) = listeners b
  /\ (forall i, deliveries i (effects (emit now event p b)) = copies i p ls)
  /\ (forall l, In l ls ->
        recorded event (callback l p)
                 (effects (emit now event p b)) (deferred (emit now event p b)))
  /\ count is_log (effects (emit now event p b) ++ deferred (emit now event p b))%list
     = count (fun t => negb (nullish t)) (failures_on ls p)
  /\ count is_unhandled
       (effects (emit now event p b) ++ deferred (emit now event p b))%list
     = count nullish (failures_on ls p).
Proof.
  intros Hls Hne Hg.
  destruct (dispatch_guarded event p ls Hg)
    as (effs & later & E & Hd & Hf & Hlog & Hrej).
  unfold emit. rewrite Hls.
  destruct ls as [ | l ls']; [congruence | ].
  rewrite E. cbn [bind returned after effects deferred listeners].
  split; [reflexivity | ]. split; [reflexivity | ].
  split; [ | split; [ | split]].
  - intros i. unfold deliveries in *. simpl. apply Hd.
  - intros l0 Hin. generalize (Hf l0 Hin). apply recorded_more.
    + intros x Hx. right. exact Hx.
    + intros x Hx. exact Hx.
  - rewrite <- Hlog. reflexivity.
  - rewrite <- Hrej. reflexivity.
Qed.





(** A function attached with [on] is not isolated: its exception leaves
    [emit] and the listener after it is not called. *)
Example unguarded_listener_aborts :
  let b := subscribe "lead:new" (fun _ => Completes)
             (on "lead:new" (fun _ => ThrowsNow (Error "no lead")) create) in
  returned (emit "2024-01-01T00:00:00.000Z" "lead:new" Null b)
    = Throw (Error "no lead")
  /\ deliveries 1 (effects (emit "2024-01-01T00:00:00.000Z" "lead:new" Null b)) = [].
Proof. split; reflexivity. Qed.

(** *** The history *)

(** A run of [emit] calls for any events, each with its timestamp.  A
    call that throws has pushed its entry before the dispatch, so the
    run carries on from the bus it leaves. *)
Definition emits (calls : list (string * string * value)) (b : bus) : bus :=
  fold_left (fun b c => after (emit (fst (fst c)) (snd (fst c)) (snd c) b)) calls b.

(** The history entry of a call. *)
Definition entry_of (c : string * string * value) : entry :=
  {| event := snd (fst c); data := snd c; timestamp := fst (fst c) |}.

(** The last [n] elements of a list. *)
Definition newest {A} (n : nat) (l : list A) : list A :=
  skipn (length l - n) l.

(** The entries of one event type, oldest first. *)
Definition of_event (eventType : string) (b : bus) : list entry :=
  filter (fun e => event e = eventType) (history b).


(** A bus whose [historyLimit] was set to 2, and four emits on it. *)
Definition small_bus : bus :=
  {| listeners := ∅; history := []; historyLimit := 2%nat; next_id := O |}.

Definition four_events : list (string * string * value) :=
  [("2024-01-01T00:00:00.000Z", "lead:new", Str "a");
   ("2024-01-01T00:00:01.000Z", "error", Str "b");
   ("2024-01-01T00:00:02.000Z", "lead:assigned", Str "c");
   ("2024-01-01T00:00:03.000Z", "lead:new", Str "d")].

Lemma emit_after (now event : string) (p : value) (b : bus) :
  listeners (after (emit now event p b)) = listeners b
  /\ historyLimit (after (emit now event p b)) = historyLimit b
  /\ next_id (after (emit now event p b)) = next_id b
  /\ history (after (emit now event p b)) =
       let pushed :=
         (history b ++ [{| event := event; data := p; timestamp := now |}])%list in
       if (historyLimit b <? length pushed)%nat
       then slice_last (historyLimit b) pushed
       else pushed.
Proof.
  unfold emit. destruct (default [] (listeners b !! event)) as [ | l ls].
  - repeat split.
  - destruct (dispatch event p (l :: ls)) as [[r now_effects] later]. repeat split.
Qed.

Lemma slice_last_newest {A} (n : nat) (l : list A) :
  (0 < n)%nat -> slice_last n l = newest n l.
Proof. intros H. destruct n; [lia | reflexivity]. Qed.

Lemma newest_all {A} (n : nat) (l : list A) :
  (length l <= n)%nat -> newest n l = l.
Proof.
  intros H. unfold newest. replace (length l - n)%nat with O by lia. reflexivity.
Qed.

Lemma newest_length {A} (n : nat) (l : list A) :
  length (newest n l) = Nat.min n (length l).
Proof. unfold newest. rewrite length_skipn. lia. Qed.

Lemma newest_snoc {A} (n : nat) (l : list A) (x : A) :
  (0 < n)%nat -> newest n (newest n l ++ [x]) = newest n (l ++ [x]).
Proof.
  intros Hn. unfold newest at 1 3.
  rewrite !length_app, newest_length. simpl.
  destruct (Nat.le_gt_cases (length l) n) as [Hle | Hgt].
  - rewrite (newest_all n l Hle). f_equal. lia.
  - unfold newest.
    rewrite !skipn_app, !skipn_skipn, !length_skipn.
    replace (Nat.min n (length l) + 1 - n + (length l - n))%nat
      with (length l + 1 - n)%nat by lia.
    f_equal. f_equal. lia.
Qed.

Lemma emit_history_newest (now event : string) (p : value) (b : bus) :
  (0 < historyLimit b)%nat ->
  history (after (emit now event p b)) =
    newest (historyLimit b)
      (history b ++ [{| event := event; data := p; timestamp := now |}]).
Proof.
  intros Hn. destruct (emit_after now event p b) as (_ & _ & _ & ->). cbv zeta.
  destruct (Nat.ltb_spec (historyLimit b)
              (length (history b ++ [{| event := event; data := p; timestamp := now |}])))
    as [Hlt | Hge].
  - apply slice_last_newest, Hn.
  - symmetry. apply newest_all, Hge.
Qed.

Lemma emits_limit (calls : list (string * string * value)) (b : bus) :
  historyLimit (emits calls b) = historyLimit b.
Proof.
  revert b. induction calls as [ | c calls IH]; intros b; [reflexivity | ].
  simpl. unfold emits in IH. rewrite IH. apply emit_after.
Qed.

(** X8. On a bus with a positive [historyLimit] whose history is within
    it (as on a new bus, whose limit is 1000), after any run of [emit]
    calls, for whatever events and whatever the listeners do, the history
    holds the newest [historyLimit] entries of the old history followed by
    the emitted events, in emission order; so its length never exceeds
    the limit. *)
Theorem history_keeps_newest (calls : list (string * string * value)) (b : bus) :
  (0 < historyLimit b)%nat -> (length (history b) <= historyLimit b)%nat ->
  history (emits calls b) = newest (historyLimit b) (history b ++ (entry_of <$> calls))
  /\ (length (history (emits calls b)) <= historyLimit b)%nat.
Proof.
  intros Hn Hlen.
  assert (E : history (emits calls b)
              = newest (historyLimit b) (history b ++ (entry_of <$> calls))).
  { revert b Hn Hlen. induction calls as [ | c calls IH] using rev_ind; intros b Hn Hlen.
    - simpl. rewrite app_nil_r. symmetry. apply newest_all, Hlen.
    - unfold emits. rewrite fold_left_app. simpl.
      fold (emits calls b).
      rewrite emit_history_newest by (rewrite emits_limit; exact Hn).
      rewrite emits_limit, (IH b Hn Hlen).
      rewrite newest_snoc by exact Hn.
      rewrite fmap_app, app_assoc. reflexivity. }
  split; [exact E | ].
  rewrite E, newest_length. lia.
Qed.

Lemma history_keeps_newest_witness :
  ((0 < historyLimit small_bus)%nat
   /\ (length (history small_bus) <= historyLimit small_bus)%nat)
  /\ history (emits four_events small_bus)
     = [{| event := "lead:assigned"; data := Str "c";
           timestamp := "2024-01-01T00:00:02.000Z" |};
        {| event := "lead:new"; data := Str "d";
           timestamp := "2024-01-01T00:00:03.000Z" |}].
Proof.
  assert (H1 : (0 < historyLimit small_bus)%nat) by (simpl; lia).
  assert (H2 : (length (history small_bus) <= historyLimit small_bus)%nat)
    by (simpl; lia).
  split; [split; assumption | ].
  exact (proj1 (history_keeps_newest four_events small_bus H1 H2)).
Defined.

Lemma slice_last_snoc {A} (n : nat) (l : list A) (x : A) :
  exists l', slice_last n (l ++ [x]) = (l' ++ [x])%list.
Proof.
  destruct n as [ | n]; [exists l; reflexivity | ].
  unfold slice_last. rewrite length_app. simpl.
  exists (skipn (length l + 1 - S n) l).
  rewrite skipn_app. f_equal.
  replace (length l + 1 - S n - length l)%nat with O by lia. reflexivity.
Qed.

(** X9. [emit] writes the history before it dispatches: whatever the
    listeners do, and also when the call throws (an unguarded listener
    that throws, an "error" event nobody listens to), the emitted event
    is the newest history entry afterwards, and the registered listeners
    and the limit are as before. *)
Theorem emit_records_before_dispatch (now event : string) (p : value) (b : bus) :
  last (history (after (emit now event p b)))
    = Some {| event := event; data := p; timestamp := now |}
  /\ listeners (after (emit now event p b)) = listeners b
  /\ historyLimit (after (emit now event p b)) = historyLimit b.
Proof.
  destruct (emit_after now event p b) as (Hl & Hn & _ & Hh).
  split; [ | split; assumption].
  rewrite Hh. cbv zeta.
  destruct (_ <? _)%nat.
  - destruct (slice_last_snoc (historyLimit b) (history b)
                {| event := event; data := p; timestamp := now |})
      as [l' ->].
    apply last_snoc.
  - apply last_snoc.
Qed.

(** An "error" event nobody listens to makes [emit] throw, and is in
    the history all the same. *)
Example unheard_error_recorded :
  returns (returned (emit "2024-01-01T00:00:00.000Z" "error" Null create)) = false
  /\ history (after (emit "2024-01-01T00:00:00.000Z" "error" Null create))
     = [{| event := "error"; data := Null;
           timestamp := "2024-01-01T00:00:00.000Z" |}].
Proof. split; reflexivity. Qed.

Lemma slice_last_suffix {A} (n : nat) (l : list A) :
  exists older, l = (older ++ slice_last n l)%list.
Proof.
  destruct n as [ | n]; [exists []; reflexivity | ].
  exists (firstn (length l - S n) l). symmetry. apply firstn_skipn.
Qed.

Lemma slice_last_length {A} (n : nat) (l : list A) :
  length (slice_last n l) = if (n =? 0)%nat then length l else Nat.min n (length l).
Proof.
  destruct n as [ | n]; [reflexivity | ].
  unfold slice_last. rewrite length_skipn. cbn [Nat.eqb]. lia.
Qed.

(** X10. [getHistory(limit)] returns the tail end of the history: the
    newest [limit] entries in their order, all of them when there are
    fewer; with [limit] 0 it returns the whole history, since
    [slice(-0)] is [slice(0)]. *)
Theorem getHistory_newest (limit : nat) (b : bus) :
  (exists older, history b = (older ++ getHistory limit b)%list)
  /\ length (getHistory limit b)
     = if (limit =? 0)%nat then length (history b)
       else Nat.min limit (length (history b)).
Proof.
  unfold getHistory. split; [apply slice_last_suffix | apply slice_last_length].
Qed.

(** X11. [getHistoryByType(eventType, limit)] returns entries of that
    event type only, in history order: the newest [limit] of the entries
    of the type (all of them when there are fewer, or when [limit] is 0). *)
Theorem getHistoryByType_newest (eventType : string) (limit : nat) (b : bus) :
  Forall (fun e => event e = eventType) (getHistoryByType eventType limit b)
  /\ sublist (getHistoryByType eventType limit b) (history b)
  /\ (exists older, of_event eventType b
                    = (older ++ getHistoryByType eventType limit b)%list)
  /\ length (getHistoryByType eventType limit b)
     = if (limit =? 0)%nat then length (of_event eventType b)
       else Nat.min limit (length (of_event eventType b)).
Proof.
  unfold getHistoryByType. fold (of_event eventType b).
  destruct (slice_last_suffix limit (of_event eventType b)) as [older E].
  assert (Hsub : sublist (slice_last limit (of_event eventType b))
                         (of_event eventType b)).
  { rewrite E at 2. apply sublist_inserts_l. reflexivity. }
  split; [ | split; [ | split]].
  - apply Forall_forall. intros e He.
    assert (Hin : e ∈ of_event eventType b).
    { rewrite E. apply elem_of_app. right. exact He. }
    unfold of_event in Hin. apply list_elem_of_filter in Hin. apply Hin.
  - etransitivity; [exact Hsub | ]. unfold of_event. apply sublist_filter.
  - exists older. exact E.
  - apply slice_last_length.
Qed.

(** *** Cancelling a subscription *)








(** *** The handler and its subscribers *)

(** The database stores every lead, answering with a row that has an
    identifier, and accepts every audit row. *)
Definition database_accepts (w : world) : Prop :=
  (forall row, exists stored rows r identifier,
      db_query w (InsertLead row) = Return stored
      /\ get stored "rows" = Return rows
      /\ first rows = Return r
      /\ get r "id" = Return identifier)
  /\ (forall a, exists v, db_query w (InsertAudit a) = Return v).

(** Every listener of "lead:new" was registered through [subscribe]. *)
Definition subscribers_only (b : bus) : Prop :=
  Forall (fun l => guarded l = true) (default [] (listeners b !! "lead:new")).

Lemma emit_subscribers_only (now : string) (p : value) (b : bus) :
  subscribers_only b -> exists r, returned (emit now "lead:new" p b) = Return r.
Proof.
  unfold subscribers_only. intros H.
  destruct (default [] (listeners b !! "lead:new")) as [ | l ls] eqn:E.
  - unfold emit. rewrite E. eexists. reflexivity.
  - destruct (emit_guarded now "lead:new" p b (l :: ls) E) as [Hr _];
      [discriminate | exact H | ].
    eexists. exact Hr.
Qed.

(** X25. With a database that accepts the statements and a bus whose
    "lead:new" listeners were all registered through [subscribe], every
    payload that has keys is stored and answered 202, whatever the
    classifier does (also when it is out of reach or answers nonsense)
    and whatever the subscribers do. *)
Theorem classifier_never_fails_request (w : world) (req : request) (b : bus) :
  body req <> Undefined -> body req <> Null -> keys_length (body req) <> O ->
  database_accepts w -> subscribers_only b ->
  exists json,
    responses (trace (handle w req b)) = [(202, json)]
    /\ get_opt json "success" = Bool true
    /\ exists row, inserts (trace (handle w req b)) = [(row, true)].
Proof.
  intros Hu Hn Hk [Hlead Haudit] Hb.
  destruct (extractIdentifier_returns _ Hu Hn) as [si Hsi].
  destruct (extractContactInfo_returns _ Hu Hn) as [ci Hci].
  pose proof (empty_guard _ Hu Hn) as Hg.
  apply Nat.eqb_neq in Hk. rewrite Hk in Hg.
  ingest_cases; observe;
    try congruence;
    try (eexists; split; [reflexivity | split; [reflexivity | eexists; reflexivity]]);
    try match goal with
        | H : db_query w (InsertLead ?row) = _ |- _ =>
            destruct (Hlead row) as (s0 & rows0 & r0 & id0 & E1 & E2 & E3 & E4)
        end;
    try match goal with
        | H : db_query w (InsertAudit ?a) = _ |- _ =>
            destruct (Haudit a) as (v0 & E5)
        end;
    try match goal with
        | H : returned (emit ?now "lead:new" ?p b) = Throw _ |- _ =>
            destruct (emit_subscribers_only now p b Hb) as (r1 & E6)
        end;
    try congruence;
    repeat match goal with
           | H1 : ?x = Return ?a, H2 : ?x = Return ?b |- _ =>
               rewrite H1 in H2; injection H2 as ->
           end;
    congruence.
Qed.

Lemma classifier_never_fails_request_witness :
  (body (web_request sample_lead) <> Undefined
   /\ body (web_request sample_lead) <> Null
   /\ keys_length (body (web_request sample_lead)) <> O
   /\ database_accepts accepting_world
   /\ subscribers_only two_subscribers)
  /\ exists json,
       responses (trace (handle accepting_world (web_request sample_lead)
                               two_subscribers))
         = [(202, json)]
       /\ get_opt json "success" = Bool true.
Proof.
  assert (H1 : body (web_request sample_lead) <> Undefined) by discriminate.
  assert (H2 : body (web_request sample_lead) <> Null) by discriminate.
  assert (H3 : keys_length (body (web_request sample_lead)) <> O) by discriminate.
  assert (H4 : database_accepts accepting_world).
  { split; [intros row | intros a]; repeat eexists; reflexivity. }
  assert (H5 : subscribers_only two_subscribers)
    by (vm_compute; repeat constructor).
  split; [split; [exact H1 | split; [exact H2 | split; [exact H3 | split; [exact H4 | exact H5]]]] | ].
  destruct (classifier_never_fails_request accepting_world (web_request sample_lead)
              two_subscribers H1 H2 H3 H4 H5) as (json & Hr & Hs & _).
  exists json. split; assumption.
Defined.

(** ** The provider manager *)

Import Providers.
Import ProviderManager.

(** *** Keys *)

Fixpoint colon_free (s : string) : bool :=
  match s with
  | EmptyString => true
  | String c r => negb (Ascii.eqb c ":") && colon_free r
  end.

(** The pairs of [ProviderRegistry]. *)
Definition listed (t n : string) : Prop :=
  exists names, lookup_type ProviderRegistry t = Some names /\ In n names.

Lemma append_nil (r : string) : "" ++ r = r.
Proof. reflexivity. Qed.

Lemma append_cons (c : ascii) (s r : string) : String c s ++ r = String c (s ++ r).
Proof. reflexivity. Qed.

Ltac strings := rewrite ?append_cons, ?append_nil; cbn [startsWith colon_free].

Lemma of_type_key_of (t n : string) : of_type t (key_of t n) = true.
Proof.
  unfold of_type, key_of.
  induction t as [ | c t IH]; strings.
  - rewrite Ascii.eqb_refl. reflexivity.
  - rewrite Ascii.eqb_refl. exact IH.
Qed.

Lemma startsWith_colon (x n : string) :
  startsWith n (x ++ ":") = true -> colon_free n = false.
Proof.
  revert n.
  induction x as [ | c x IH]; intros [ | d n]; strings; intros H;
    try discriminate H.
  - rewrite (Ascii.eqb_sym d ":"). revert H.
    destruct (Ascii.eqb ":" d); cbn [andb negb]; intros H;
      [reflexivity | discriminate H].
  - revert H. destruct (Ascii.eqb c d); cbn [andb]; intros H; [ | discriminate H].
    rewrite (IH _ H). apply andb_false_r.
Qed.

(** With no colon in the type and the name of a key, the key has the
    prefix [t':] only for its own type. *)
Lemma of_type_inv (t' t n : string) :
  colon_free t = true -> colon_free n = true ->
  of_type t' (key_of t n) = true -> t' = t.
Proof.
  unfold of_type, key_of. revert t.
  induction t' as [ | c t' IH]; intros [ | d t]; strings; intros Ht Hn H.
  - reflexivity.
  - rewrite (Ascii.eqb_sym d ":") in Ht. revert H Ht.
    destruct (Ascii.eqb ":" d); cbn [andb negb]; intros H Ht;
      [discriminate Ht | discriminate H].
  - revert H. destruct (Ascii.eqb c ":"); cbn [andb]; intros H; [ | discriminate H].
    apply startsWith_colon in H. congruence.
  - revert H. destruct (Ascii.eqb_spec c d) as [<- | ]; cbn [andb]; intros H;
      [ | discriminate H].
    apply andb_true_iff in Ht as [_ Ht].
    f_equal. eapply IH; eassumption.
Qed.

Lemma listed_colon_free (t n : string) :
  listed t n -> colon_free t = true /\ colon_free n = true.
Proof.
  intros (names & Ht & Hn). unfold ProviderRegistry in Ht.
  cbn [lookup_type] in Ht.
  repeat match type of Ht with
         | (if ?c then _ else _) = _ =>
             let E := fresh "E" in
             destruct c eqn:E;
             [apply String.eqb_eq in E; subst t; injection Ht as <-;
              cbn [In] in Hn;
              repeat (destruct Hn as [<- | Hn]; [split; reflexivity | ]);
              contradiction
             | clear E]
         end.
  discriminate Ht.
Qed.

Lemma getProvider_listed (t n : string) (cfg : value) (i : Providers.instance) :
  getProvider t n cfg = Return i ->
  Providers.type i = t /\ Providers.name i = n /\ listed t n.
Proof.
  unfold getProvider, listed.
  destruct (lookup_type ProviderRegistry t) as [names | ]; [ | discriminate].
  destruct (existsb (String.eqb n) names) eqn:E; [ | discriminate].
  intros [= <-]. simpl. repeat split. exists names. split; [reflexivity | ].
  apply existsb_exists in E as (x & Hx & Heq).
  apply String.eqb_eq in Heq. now subst.
Qed.

(** *** The map and its invariants *)

Definition keys (ps : providers) : list string := List.map fst ps.

(** Every entry sits under the key of its own provider object, and that
    provider is one of the registry. *)
Definition well_keyed (ps : providers) : Prop :=
  forall k d, In (k, d) ps ->
    k = key_of (Providers.type (instance d)) (Providers.name (instance d))
    /\ listed (Providers.type (instance d)) (Providers.name (instance d)).

Definition is_default_of (t : string) (entry : string * data) : bool :=
  of_type t (fst entry) && isDefault (snd entry).

(** The entries of a type that are marked default. *)
Definition defaults_of (t : string) (ps : providers) : providers :=
  List.filter (is_default_of t) ps.

Definition at_most_one_default (t : string) (ps : providers) : Prop :=
  (length (defaults_of t ps) <= 1)%nat.

(** Whether a [setDefault] call gets through both statements, and
    whether some call of a sequence for type [t] does. *)
Definition call_succeeds (w : ProviderManager.world) (t n : string) : bool :=
  returns (ProviderManager.db_query w (ClearDefaults t))
  && returns (ProviderManager.db_query w (MarkDefault t n)).

Definition changed (w : ProviderManager.world) (calls : list (string * string))
  (t : string) : bool :=
  existsb (fun c => String.eqb (fst c) t && call_succeeds w (fst c) (snd c)) calls.

Lemma Map_set_In (key : string) (d : data) (ps : providers) (k' : string) (d' : data) :
  In (k', d') (Map_set key d ps) -> (k', d') = (key, d) \/ In (k', d') ps.
Proof.
  induction ps as [ | [k0 d0] ps IH]; simpl.
  - intros [H | []]; left; congruence.
  - destruct (String.eqb_spec k0 key) as [-> | Hne]; simpl.
    + intros [H | H]; [left; congruence | right; right; exact H].
    + intros [H | H]; [right; left; exact H | ].
      destruct (IH H) as [E | E]; [left; exact E | right; right; exact E].
Qed.

Lemma Map_set_keys (key : string) (d : data) (ps : providers) (k : string) :
  In k (keys (Map_set key d ps)) -> k = key \/ In k (keys ps).
Proof.
  unfold keys. intros H. apply in_map_iff in H as ([k' d'] & <- & H).
  apply Map_set_In in H as [[= -> ->] | H]; [left; reflexivity | right].
  apply in_map_iff. exists (k', d'). split; [reflexivity | exact H].
Qed.

Lemma Map_set_NoDup (key : string) (d : data) (ps : providers) :
  List.NoDup (keys ps) -> List.NoDup (keys (Map_set key d ps)).
Proof.
  induction ps as [ | [k0 d0] ps IH]; simpl; intros H.
  - constructor; [intros [] | constructor].
  - inversion H as [ | ? ? Hnot Hnd]; subst.
    destruct (String.eqb_spec k0 key) as [-> | Hne]; simpl.
    + constructor; assumption.
    + constructor; [ | apply IH, Hnd].
      intros Hin. apply Map_set_keys in Hin as [-> | Hin]; contradiction.
Qed.

Lemma initializeProvider_sound (w : ProviderManager.world) (cfg : configuration)
  (ps : providers) :
  List.NoDup (keys ps) -> well_keyed ps ->
  List.NoDup (keys (snd (initializeProvider w cfg ps)))
  /\ well_keyed (snd (initializeProvider w cfg ps)).
Proof.
  intros Hnd Hwk. unfold initializeProvider.
  destruct (getProvider _ _ _) as [provider | e] eqn:Eg; [ | split; assumption].
  destruct (provider_initialize w provider); [ | split; assumption].
  simpl. split; [apply Map_set_NoDup, Hnd | ].
  intros k d Hin. apply Map_set_In in Hin as [[= -> ->] | Hin]; [ | apply Hwk, Hin].
  apply getProvider_listed in Eg as (Ht & Hn & Hl). simpl.
  rewrite Ht, Hn. split; [reflexivity | exact Hl].
Qed.

(** The map that [initialize] builds satisfies both invariants. *)
Lemma initialize_sound (w : ProviderManager.world) (rows : list configuration)
  (ps : providers) :
  List.NoDup (keys ps) -> well_keyed ps ->
  List.NoDup (keys (initialize w rows ps)) /\ well_keyed (initialize w rows ps).
Proof.
  revert ps. induction rows as [ | cfg rows IH]; intros ps Hnd Hwk; simpl.
  - split; assumption.
  - destruct (initializeProvider_sound w cfg ps Hnd Hwk) as [Hnd' Hwk'].
    apply IH; assumption.
Qed.

Lemma mark_default_keys (t n : string) (ps : providers) :
  keys (mark_default t n ps) = keys ps.
Proof.
  induction ps as [ | [k d] ps IH]; simpl; [reflexivity | ].
  rewrite IH. destruct (of_type t k); reflexivity.
Qed.

Lemma mark_default_well_keyed (t n : string) (ps : providers) :
  well_keyed ps -> well_keyed (mark_default t n ps).
Proof.
  intros Hwk k d Hin.
  induction ps as [ | [k0 d0] ps IH]; simpl in Hin; [contradiction | ].
  destruct Hin as [Hin | Hin].
  - destruct (of_type t k0); injection Hin as <- <-;
      apply (Hwk k0 d0); left; reflexivity.
  - apply IH; [ | exact Hin]. intros k' d' H'. apply Hwk. right. exact H'.
Qed.

(** *** setDefault *)

Lemma setDefault_state (w : ProviderManager.world) (t n : string) (ps : providers) :
  snd (fst (setDefault w t n ps)) =
    if call_succeeds w t n then mark_default t n ps else ps.
Proof.
  unfold setDefault, call_succeeds.
  destruct (ProviderManager.db_query w (ClearDefaults t)); [ | reflexivity].
  destruct (ProviderManager.db_query w (MarkDefault t n)); reflexivity.
Qed.

(** After the loop of [setDefault] no entry other than the named key is
    a default of the type. *)
Lemma mark_default_none (t n : string) (ps : providers) :
  ~ In (key_of t n) (keys ps) -> defaults_of t (mark_default t n ps) = [].
Proof.
  induction ps as [ | [k d] ps IH]; simpl; intros Hnot; [reflexivity | ].
  assert (Hk : String.eqb k (key_of t n) = false).
  { apply String.eqb_neq. intros ->. apply Hnot. left. reflexivity. }
  unfold defaults_of in *. simpl.
  destruct (of_type t k) eqn:Et; unfold is_default_of; simpl;
    rewrite Et; [rewrite Hk | ]; simpl; apply IH; tauto.
Qed.

Lemma mark_default_one (t n : string) (ps : providers) :
  List.NoDup (keys ps) -> at_most_one_default t (mark_default t n ps).
Proof.
  unfold at_most_one_default.
  induction ps as [ | [k d] ps IH]; simpl; intros Hnd; [lia | ].
  inversion Hnd as [ | ? ? Hnot Hnd']; subst.
  unfold defaults_of in *. simpl.
  destruct (String.eqb_spec k (key_of t n)) as [-> | Hne].
  - rewrite of_type_key_of. unfold is_default_of at 1. simpl.
    rewrite of_type_key_of. simpl.
    fold (defaults_of t (mark_default t n ps)).
    rewrite (mark_default_none t n ps Hnot). simpl. lia.
  - destruct (of_type t k) eqn:Et; unfold is_default_of at 1; simpl; rewrite Et;
      simpl; apply IH, Hnd'.
Qed.

(** The loop for one type leaves the defaults of every other type as
    they were. *)
Lemma mark_default_other (t t' n : string) (ps : providers) :
  well_keyed ps -> t <> t' ->
  defaults_of t' (mark_default t n ps) = defaults_of t' ps.
Proof.
  intros Hwk Hne.
  induction ps as [ | [k d] ps IH]; simpl; [reflexivity | ].
  assert (Hwk' : well_keyed ps).
  { intros k' d' H'. apply Hwk. right. exact H'. }
  unfold defaults_of in *. simpl.
  destruct (of_type t k) eqn:Et; [ | rewrite (IH Hwk'); reflexivity].
  assert (Et' : of_type t' k = false).
  { destruct (of_type t' k) eqn:E; [ | reflexivity]. exfalso.
    destruct (Hwk k d (or_introl eq_refl)) as [Hk Hl].
    apply listed_colon_free in Hl as [Hct Hcn].
    rewrite Hk in Et, E.
    apply of_type_inv in Et; [ | assumption | assumption].
    apply of_type_inv in E; [ | assumption | assumption].
    congruence. }
  assert (Hmiss : forall x, is_default_of t' (k, x) = false).
  { intros x. unfold is_default_of. simpl. rewrite Et'. reflexivity. }
  rewrite !Hmiss. apply IH, Hwk'.
Qed.

Lemma setDefault_sound (w : ProviderManager.world) (t n : string) (ps : providers) :
  List.NoDup (keys ps) -> well_keyed ps ->
  List.NoDup (keys (snd (fst (setDefault w t n ps))))
  /\ well_keyed (snd (fst (setDefault w t n ps))).
Proof.
  intros Hnd Hwk. rewrite setDefault_state.
  destruct (call_succeeds w t n); [ | split; assumption].
  rewrite mark_default_keys. split; [exact Hnd | apply mark_default_well_keyed, Hwk].
Qed.

Lemma setDefault_at_most_one (w : ProviderManager.world) (t n : string)
  (ps : providers) (t' : string) :
  List.NoDup (keys ps) -> well_keyed ps ->
  at_most_one_default t' ps \/ (String.eqb t t' && call_succeeds w t n = true) ->
  at_most_one_default t' (snd (fst (setDefault w t n ps))).
Proof.
  intros Hnd Hwk H. rewrite setDefault_state.
  destruct (String.eqb_spec t t') as [<- | Hne].
  - destruct (call_succeeds w t n).
    + apply mark_default_one, Hnd.
    + destruct H as [H | H]; [exact H | discriminate H].
  - destruct H as [H | H]; [ | discriminate H].
    destruct (call_succeeds w t n); [ | exact H].
    unfold at_most_one_default. rewrite mark_default_other; assumption.
Qed.

Lemma setDefaults_at_most_one (w : ProviderManager.world)
  (calls : list (string * string)) (ps : providers) (t : string) :
  List.NoDup (keys ps) -> well_keyed ps ->
  at_most_one_default t ps \/ changed w calls t = true ->
  at_most_one_default t (setDefaults w calls ps).
Proof.
  revert ps. induction calls as [ | [t0 n0] calls IH]; intros ps Hnd Hwk H; simpl.
  - destruct H as [H | H]; [exact H | discriminate H].
  - destruct (setDefault_sound w t0 n0 ps Hnd Hwk) as [Hnd' Hwk'].
    apply IH; [assumption | assumption | ].
    simpl in H.
    destruct (String.eqb t0 t && call_succeeds w t0 n0) eqn:E.
    + left. apply setDefault_at_most_one; [assumption | assumption | ].
      right. exact E.
    + destruct H as [H | H].
      * left. apply setDefault_at_most_one; [assumption | assumption | ].
        left. exact H.
      * right. exact H.
Qed.

(** *** get after setDefault *)

(** The seed rows of [provider_configurations], a world in which every
    provider initialises and reports healthy and the database accepts
    every statement, and the map [initialize] builds there. *)
Definition seed_row (id t n : string) (default : bool) : configuration :=
  {| row_id := id; provider_type := t; provider_name := n;
     is_default := default; config_blob := Obj [] |}.

Definition seed_rows : list configuration :=
  [seed_row "1" "voice" "vapi" true;
   seed_row "2" "voice" "twilio" false;
   seed_row "3" "messaging" "whatsapp_business" true;
   seed_row "4" "messaging" "twilio_sms" false;
   seed_row "5" "email" "sendgrid" true;
   seed_row "6" "email" "resend" false;
   seed_row "7" "esignature" "docusign" true;
   seed_row "8" "esignature" "pandadoc" false;
   seed_row "9" "payment" "stripe" true;
   seed_row "10" "payment" "paypal" false].

Definition quiet_world : ProviderManager.world :=
  {| provider_initialize := fun _ => Return tt;
     healthCheck := fun _ => Return true;
     ProviderManager.db_query := fun _ => Return tt;
     date := fun n => 1700000000000 + Z.of_nat n |}.

Definition seeded : providers := initialize quiet_world seed_rows [].

Definition vapi_entry : data :=
  {| instance := {| Providers.type := "voice"; Providers.name := "vapi";
                    settings := Obj [] |};
     config := seed_row "1" "voice" "vapi" true;
     isDefault := true;
     lastHealthCheck := None;
     isHealthy := true |}.

Definition sendgrid_entry : data :=
  {| instance := {| Providers.type := "email"; Providers.name := "sendgrid";
                    settings := Obj [] |};
     config := seed_row "5" "email" "sendgrid" true;
     isDefault := true;
     lastHealthCheck := None;
     isHealthy := true |}.

Lemma Map_get_In (key : string) (ps : providers) (d : data) :
  Map_get key ps = Some d -> In (key, d) ps.
Proof.
  induction ps as [ | [k0 d0] ps IH]; simpl; [discriminate | ].
  destruct (String.eqb_spec k0 key) as [-> | Hne].
  - intros [= ->]. left. reflexivity.
  - intros H. right. apply IH, H.
Qed.

Lemma mark_default_get (t n key : string) (ps : providers) :
  Map_get key (mark_default t n ps) =
    (fun d => if of_type t key
              then with_default (String.eqb key (key_of t n)) d
              else d) <$> Map_get key ps.
Proof.
  induction ps as [ | [k0 d0] ps IH]; simpl; [reflexivity | ].
  destruct (of_type t k0) eqn:Et; simpl;
    destruct (String.eqb_spec k0 key) as [-> | Hne]; simpl;
    try rewrite Et; try reflexivity; exact IH.
Qed.

(** Once the named key is in the map, it is the one default of its type
    after the loop. *)
Lemma mark_default_named (t n : string) (ps : providers) (d : data) :
  List.NoDup (keys ps) -> Map_get (key_of t n) ps = Some d ->
  defaults_of t (mark_default t n ps) = [(key_of t n, with_default true d)].
Proof.
  induction ps as [ | [k0 d0] ps IH]; simpl; intros Hnd Hget; [discriminate | ].
  inversion Hnd as [ | ? ? Hnot Hnd']; subst.
  unfold defaults_of in *. simpl.
  revert Hget. destruct (String.eqb_spec k0 (key_of t n)) as [-> | Hne]; intros Hget.
  - injection Hget as ->.
    rewrite of_type_key_of. unfold is_default_of at 1. simpl.
    rewrite of_type_key_of. simpl.
    fold (defaults_of t (mark_default t n ps)).
    rewrite (mark_default_none t n ps Hnot). reflexivity.
  - destruct (of_type t k0) eqn:Et; unfold is_default_of at 1; simpl; rewrite Et;
      simpl; apply IH; assumption.
Qed.

Lemma first_of_type_defaults (t : string) (ps : providers) :
  first_of_type isDefault t ps = snd <$> List.hd_error (defaults_of t ps).
Proof.
  induction ps as [ | [k d] ps IH]; simpl; [reflexivity | ].
  unfold defaults_of in *. simpl. unfold is_default_of at 1. simpl.
  destruct (of_type t k && isDefault d); [reflexivity | exact IH].
Qed.

(** C4. From a map that satisfies the two invariants [initialize]
    establishes, after any sequence of [setDefault] calls a type has at
    most one default as soon as it had at most one before, or one of the
    calls for that type went through.  If "voice:vapi" is registered and
    the database accepts the statements, [setDefault("voice","twilio")]
    followed by [setDefault("voice","vapi")] leaves the vapi entry as the
    only voice default and [get("voice")] returns the vapi instance. *)
Theorem setDefault_single_default (w : ProviderManager.world) (ps : providers) :
  List.NoDup (keys ps) -> well_keyed ps ->
  (forall (calls : list (string * string)) (t : string),
      at_most_one_default t ps \/ changed w calls t = true ->
      at_most_one_default t (setDefaults w calls ps))
  /\ (forall d : data,
        Map_get "voice:vapi" ps = Some d ->
        call_succeeds w "voice" "twilio" = true ->
        call_succeeds w "voice" "vapi" = true ->
        defaults_of "voice"
          (setDefaults w [("voice", "twilio"); ("voice", "vapi")] ps)
          = [("voice:vapi", with_default true d)]
        /\ get "voice" None
             (setDefaults w [("voice", "twilio"); ("voice", "vapi")] ps)
           = Return (Found (instance d))).
Proof.
  intros Hnd Hwk. split.
  - intros calls t H. apply setDefaults_at_most_one; assumption.
  - intros d Hget H1 H2. simpl.
    rewrite !setDefault_state, H1, H2.
    assert (Hone : defaults_of "voice"
                     (mark_default "voice" "vapi" (mark_default "voice" "twilio" ps))
                   = [("voice:vapi", with_default true d)]).
    { change "voice:vapi" with (key_of "voice" "vapi").
      rewrite (mark_default_named "voice" "vapi" _ (with_default false d)).
      - reflexivity.
      - rewrite mark_default_keys. exact Hnd.
      - rewrite mark_default_get.
        change (key_of "voice" "vapi") with "voice:vapi". rewrite Hget.
        reflexivity. }
    split; [exact Hone | ].
    unfold get. cbn [from_option truthy].
    rewrite first_of_type_defaults, Hone. reflexivity.
Qed.

Lemma seeded_sound : List.NoDup (keys seeded) /\ well_keyed seeded.
Proof.
  apply initialize_sound; [constructor | intros k d []].
Qed.

(** The seed rows flag one provider per type, and so does the map built
    from them. *)
Example seeded_single_defaults :
  Forall (fun t => at_most_one_default t seeded)
         ["voice"; "messaging"; "email"; "esignature"; "payment"].
Proof. repeat constructor; vm_compute; lia. Qed.

Lemma setDefault_single_default_witness :
  (List.NoDup (keys seeded) /\ well_keyed seeded
   /\ changed quiet_world [("voice", "twilio"); ("email", "resend")] "voice" = true
   /\ Map_get "voice:vapi" seeded = Some vapi_entry
   /\ call_succeeds quiet_world "voice" "twilio" = true
   /\ call_succeeds quiet_world "voice" "vapi" = true)
  /\ at_most_one_default "voice"
       (setDefaults quiet_world [("voice", "twilio"); ("email", "resend")] seeded)
  /\ get "voice" None
       (setDefaults quiet_world [("voice", "twilio"); ("voice", "vapi")] seeded)
     = Return (Found (instance vapi_entry)).
Proof.
  destruct seeded_sound as [Hnd Hwk].
  destruct (setDefault_single_default quiet_world seeded Hnd Hwk) as [Hinv Hscenario].
  split; [split; [exact Hnd | split; [exact Hwk | repeat split]] | ].
  split.
  - apply Hinv. right. reflexivity.
  - apply (Hscenario vapi_entry); reflexivity.
Defined.

(** Rows in which two voice providers are flagged default: the table
    keeps (provider_type, provider_name) unique, not the flag. *)
Definition twin_rows : list configuration :=
  [seed_row "1" "voice" "vapi" true;
   seed_row "2" "voice" "twilio" true;
   seed_row "5" "email" "sendgrid" true;
   seed_row "6" "email" "resend" false].

Definition twin_defaults : providers := initialize quiet_world twin_rows [].

(** C4 (as stated) fails: [initialize] copies the flags of the rows, so
    from rows with two voice defaults the map holds two voice defaults,
    and it still does after no call at all, after a call for another
    type, and after a call for voice that the database refuses. *)
Lemma two_voice_defaults_kept :
  (List.NoDup (keys twin_defaults) /\ well_keyed twin_defaults)
  /\ List.map fst (defaults_of "voice" twin_defaults) = ["voice:vapi"; "voice:twilio"]
  /\ ~ at_most_one_default "voice" (setDefaults quiet_world [] twin_defaults)
  /\ ~ at_most_one_default "voice"
         (setDefaults quiet_world [("email", "resend")] twin_defaults)
  /\ ~ at_most_one_default "voice"
         (setDefaults
            {| provider_initialize := fun _ => Return tt;
               healthCheck := fun _ => Return true;
               ProviderManager.db_query :=
                 fun _ => Throw (Error "connection terminated");
               date := fun _ => 0 |}
            [("voice", "vapi")] twin_defaults).
Proof.
  split; [apply initialize_sound; [constructor | intros k d []] | ].
  split; [reflexivity | ].
  repeat split; intros H; vm_compute in H; lia.
Qed.

(** *** Lookups that find nothing *)

Definition signals_error {A} (c : completion A) : Prop :=
  exists e, c = Throw e.



(** The entry [get(type, name)] is documented to return: the one under
    the pair, or nothing. *)
Definition named_entry (t n : string) (ps : providers) : lookup :=
  match Map_get (key_of t n) ps with
  | Some d => Found (instance d)
  | None => NotFound_undefined
  end.



Lemma well_keyed_type (t k : string) (d : data) (ps : providers) :
  well_keyed ps -> In (k, d) ps -> of_type t k = true ->
  Providers.type (instance d) = t.
Proof.
  intros Hwk Hin Hk. destruct (Hwk k d Hin) as [-> Hl].
  apply listed_colon_free in Hl as [Ht Hn].
  symmetry. eapply of_type_inv; eassumption.
Qed.

Lemma get_named (t n : string) (ps : providers) :
  n <> "" -> get t (Some n) ps = Return (named_entry t n ps).
Proof.
  intros Hn. unfold get, named_entry. cbn [from_option truthy default].
  destruct (String.eqb_spec n "") as [-> | _]; [congruence | reflexivity].
Qed.




(** C10 (amended). For a non-empty name, [get(type, name)] returns the
    instance registered under exactly that pair, or nothing; defaults
    and other providers of the type play no part. *)
Theorem get_named_exact (t n : string) (ps : providers) :
  n <> "" ->
  get t (Some n) ps = Return (named_entry t n ps)
  /\ (forall d, Map_get (key_of t n) ps = Some d ->
        get t (Some n) ps = Return (Found (instance d)))
  /\ (Map_get (key_of t n) ps = None ->
        get t (Some n) ps = Return NotFound_undefined).
Proof.
  intros Hn. rewrite get_named by exact Hn. unfold named_entry.
  split; [reflexivity | ].
  split; [intros d -> | intros ->]; reflexivity.
Qed.

Lemma get_named_exact_witness :
  "resend" <> ""
  /\ get "email" (Some "resend") seeded = Return (named_entry "email" "resend" seeded)
  /\ named_entry "email" "resend" seeded
     = Found {| Providers.type := "email"; Providers.name := "resend";
                settings := Obj [] |}.
Proof.
  assert (Hn : "resend" <> "") by discriminate.
  split; [exact Hn | ].
  destruct (get_named_exact "email" "resend" seeded Hn) as [H _].
  split; [exact H | reflexivity].
Defined.

(** C10 (as stated) fails on the empty string: it is a supplied name,
    no provider is registered under it, and [get] returns the default
    of the type. *)
Lemma empty_name_falls_back :
  Map_get (key_of "voice" "") seeded = None
  /\ get "voice" (Some "") seeded = Return (Found (instance vapi_entry))
  /\ get "voice" (Some "") seeded <> Return (named_entry "voice" "" seeded).
Proof.
  split; [reflexivity | ]. split; [reflexivity | ].
  vm_compute. discriminate.
Qed.

(** *** Health rounds *)

(** The map after one round started with [reads] clock readings. *)
Definition after_round (w : ProviderManager.world) (ps : providers) (reads : nat)
  : providers :=
  snd (fst (runHealthChecks w ps reads)).

Definition health_of (key : string) (ps : providers) : option bool :=
  isHealthy <$> Map_get key ps.

(** Whether the status computed for the row of [d] gets stored. *)
Definition persisted (w : ProviderManager.world) (d : data) (healthy : bool) : bool :=
  returns (ProviderManager.db_query w
             (UpdateHealth (row_id (config d))
                           (if healthy then "healthy" else "unhealthy"))).

(** What a round records for an entry, from the entry's own probe and
    the storing of its own result. *)
Definition verdict (w : ProviderManager.world) (key : string) (d : data) : bool :=
  match healthCheck w key with
  | Return healthy => healthy && persisted w d healthy
  | Throw _ => false
  end.

(** The claim that the probe alone decides what is recorded. *)
Definition probe_decides (w : ProviderManager.world) (ps : providers) (reads : nat)
  : Prop :=
  forall key d healthy,
    Map_get key ps = Some d -> healthCheck w key = Return healthy ->
    health_of key (after_round w ps reads) = Some healthy.

(** The voice provider's probe throws while the database refuses every
    statement; the other probes report healthy. *)
Definition outage_world : ProviderManager.world :=
  {| provider_initialize := fun _ => Return tt;
     healthCheck := fun key =>
       if String.eqb key "voice:vapi"
       then Throw (Error "fetch failed")
       else Return true;
     ProviderManager.db_query := fun _ => Throw (Error "connection refused");
     date := fun n => 1700000000000 + Z.of_nat n |}.

(** Only the voice provider's probe throws; the database works. *)
Definition probe_failure_world : ProviderManager.world :=
  {| provider_initialize := fun _ => Return tt;
     healthCheck := fun key =>
       if String.eqb key "voice:vapi"
       then Throw (Error "fetch failed")
       else Return true;
     ProviderManager.db_query := fun _ => Return tt;
     date := fun n => 1700000000000 + Z.of_nat n |}.

Lemma check_one_spec (w : ProviderManager.world) (key : string) (d : data) (r : nat) :
  let d' := fst (fst (check_one w key d r)) in
  isHealthy d' = verdict w key d
  /\ (exists n, (r <= n)%nat /\ lastHealthCheck d' = Some (date w n))
  /\ instance d' = instance d /\ config d' = config d /\ isDefault d' = isDefault d
  /\ (r <= snd (fst (check_one w key d r)))%nat.
Proof.
  unfold check_one, verdict, persisted.
  destruct (healthCheck w key) as [healthy | e]; simpl.
  - destruct (ProviderManager.db_query w _); simpl.
    + rewrite andb_true_r. repeat split; try lia. exists r. split; [lia | reflexivity].
    + rewrite andb_false_r. repeat split; try lia.
      exists (S r). split; [lia | reflexivity].
  - repeat split; try lia. exists r. split; [lia | reflexivity].
Qed.

Lemma check_all_get (w : ProviderManager.world) (key : string) (d : data)
  (ps : providers) (reads : nat) :
  Map_get key ps = Some d ->
  exists r, (reads <= r)%nat
            /\ Map_get key (fst (fst (check_all w ps reads)))
               = Some (fst (fst (check_one w key d r))).
Proof.
  revert reads. induction ps as [ | [k0 d0] ps IH]; intros reads; simpl;
    [discriminate | ].
  pose proof (check_one_spec w k0 d0 reads) as (_ & _ & _ & _ & _ & Hr).
  destruct (check_one w k0 d0 reads) as [[d' reads'] log] eqn:E1.
  destruct (check_all w ps reads') as [[rest' reads''] log'] eqn:E2.
  simpl in *. destruct (String.eqb_spec k0 key) as [-> | Hne].
  - intros [= ->]. exists reads. split; [lia | ]. rewrite E1. reflexivity.
  - intros H. destruct (IH reads' H) as (r & Hle & Hget).
    rewrite E2 in Hget. exists r. split; [lia | exact Hget].
Qed.

(** C8 (amended). A round of health checks always returns.  An entry
    whose probe reports failure or throws is recorded unhealthy with a
    timestamp read during the round.  What is recorded for an entry
    depends on nothing but its own probe and the storing of its own
    result: a healthy probe is recorded healthy when its result is
    stored and unhealthy when the store throws, whatever the probes of
    the other entries do. *)
Theorem health_round_isolated
  (w : ProviderManager.world) (ps : providers) (reads : nat)
  (key : string) (d : data) :
  Map_get key ps = Some d ->
  fst (fst (runHealthChecks w ps reads)) = Return tt
  /\ (exists d',
        Map_get key (after_round w ps reads) = Some d'
        /\ isHealthy d' = verdict w key d
        /\ (exists n, (reads <= n)%nat /\ lastHealthCheck d' = Some (date w n))
        /\ instance d' = instance d /\ isDefault d' = isDefault d)
  /\ (healthCheck w key = Return false \/ signals_error (healthCheck w key) ->
      health_of key (after_round w ps reads) = Some false)
  /\ (forall healthy, healthCheck w key = Return healthy ->
        health_of key (after_round w ps reads)
        = Some (healthy && persisted w d healthy))
  /\ (forall w' ps' reads' d0,
        Map_get key ps' = Some d0 ->
        healthCheck w' key = healthCheck w key ->
        (forall healthy, persisted w' d0 healthy = persisted w d healthy) ->
        health_of key (after_round w' ps' reads')
        = health_of key (after_round w ps reads)).
Proof.
  intros Hget.
  assert (Hround : forall w0 ps0 reads0 d0,
             Map_get key ps0 = Some d0 ->
             exists d', Map_get key (after_round w0 ps0 reads0) = Some d'
                        /\ isHealthy d' = verdict w0 key d0
                        /\ (exists n, (reads0 <= n)%nat
                                      /\ lastHealthCheck d' = Some (date w0 n))
                        /\ instance d' = instance d0 /\ isDefault d' = isDefault d0).
  { intros w0 ps0 reads0 d0 H0.
    destruct (check_all_get w0 key d0 ps0 reads0 H0) as (r & Hle & Hr).
    pose proof (check_one_spec w0 key d0 r) as (Hh & (n & Hn & Ht) & Hi & _ & Hd & _).
    exists (fst (fst (check_one w0 key d0 r))).
    unfold after_round, runHealthChecks.
    destruct (check_all w0 ps0 reads0) as [[ps1 r1] log1]. simpl in *.
    split; [exact Hr | ]. split; [exact Hh | ].
    split; [exists n; split; [lia | exact Ht] | ].
    split; assumption. }
  assert (Hhealth : forall w0 ps0 reads0 d0,
             Map_get key ps0 = Some d0 ->
             health_of key (after_round w0 ps0 reads0) = Some (verdict w0 key d0)).
  { intros w0 ps0 reads0 d0 H0.
    destruct (Hround w0 ps0 reads0 d0 H0) as (d' & Hd' & Hv & _).
    unfold health_of. rewrite Hd'. simpl. rewrite Hv. reflexivity. }
  split.
  { unfold runHealthChecks. destruct (check_all w ps reads) as [[ps1 r1] log1].
    reflexivity. }
  split; [apply Hround, Hget | ].
  split.
  { intros Hfail. rewrite (Hhealth w ps reads d Hget). unfold verdict.
    destruct Hfail as [-> | [e ->]]; reflexivity. }
  split.
  { intros healthy Hp. rewrite (Hhealth w ps reads d Hget). unfold verdict.
    rewrite Hp. reflexivity. }
  intros w' ps' reads' d0 Hget' Hsame Hstore.
  rewrite (Hhealth w ps reads d Hget), (Hhealth w' ps' reads' d0 Hget').
  unfold verdict. rewrite Hsame.
  destruct (healthCheck w key) as [healthy | e]; [ | reflexivity].
  rewrite Hstore. reflexivity.
Qed.

Lemma health_round_isolated_witness :
  (Map_get "voice:vapi" seeded = Some vapi_entry
   /\ signals_error (healthCheck probe_failure_world "voice:vapi"))
  /\ fst (fst (runHealthChecks probe_failure_world seeded 0)) = Return tt
  /\ health_of "voice:vapi" (after_round probe_failure_world seeded 0) = Some false
  /\ health_of "email:sendgrid" (after_round probe_failure_world seeded 0) = Some true.
Proof.
  assert (Hget : Map_get "voice:vapi" seeded = Some vapi_entry) by reflexivity.
  assert (Hthrow : signals_error (healthCheck probe_failure_world "voice:vapi")).
  { exists (Error "fetch failed"). reflexivity. }
  split; [split; assumption | ].
  destruct (health_round_isolated probe_failure_world seeded 0
              "voice:vapi" vapi_entry Hget) as (Hret & _ & Hfail & _).
  split; [exact Hret | ].
  split; [apply Hfail; right; exact Hthrow | reflexivity].
Defined.

(** C8 (as stated) fails: while the voice probe throws, the probe of
    "email:sendgrid" reports healthy, but the statement that stores its
    result throws and the entry is recorded unhealthy. *)
Lemma unstored_result_recorded_unhealthy :
  healthCheck outage_world "email:sendgrid" = Return true
  /\ health_of "email:sendgrid" (after_round outage_world seeded 0) = Some false
  /\ ~ probe_decides outage_world seeded 0.
Proof.
  split; [reflexivity | ]. split; [reflexivity | ].
  intros claim.
  specialize (claim "email:sendgrid" sendgrid_entry true eq_refl eq_refl).
  vm_compute in claim. discriminate claim.
Qed.

(** *** What the manager registers and returns *)

(** The types of [ProviderRegistry]. *)
Definition registered_types : list string := fst <$> ProviderRegistry.

(** Whether the row yields a provider: the registry lists the pair and
    the provider's own [initialize()] completes. *)
Definition loads (w : ProviderManager.world) (cfg : configuration) : bool :=
  returns (fst (initializeProvider w cfg [])).

(** An entry as [initializeProvider] stores it for one of the rows. *)
Definition fresh_entry (w : ProviderManager.world) (rows : list configuration)
  (key : string) (d : data) : Prop :=
  In (config d) rows
  /\ loads w (config d) = true
  /\ key = key_of (provider_type (config d)) (provider_name (config d))
  /\ Providers.type (instance d) = provider_type (config d)
  /\ Providers.name (instance d) = provider_name (config d)
  /\ isDefault d = is_default (config d)
  /\ lastHealthCheck d = None
  /\ isHealthy d = true.

(** Two maps with the same keys in the same order, holding the same
    provider objects with the same default flags. *)
Definition same_providers (ps ps' : providers) : Prop :=
  Forall2 (fun e e' => fst e = fst e'
                       /\ instance (snd e) = instance (snd e')
                       /\ isDefault (snd e) = isDefault (snd e')) ps ps'.


(** *** Default providers of the registry *)

Lemma lookup_type_unlisted (t : string) :
  ~ In t registered_types -> lookup_type ProviderRegistry t = None.
Proof.
  unfold registered_types, ProviderRegistry. cbn [fmap list_fmap fst lookup_type In].
  intros H.
  repeat match goal with
         | |- (if String.eqb ?a t then _ else _) = _ =>
             destruct (String.eqb_spec a t); [exfalso; apply H; tauto | ]
         end.
  reflexivity.
Qed.

(** X13. [getDefaultProvider] returns a provider for each of the five
    types of the registry: an instance of the requested type whose name
    the registry lists for that type.  For any other type it throws, as
    [getProvider] does. *)
Theorem getDefaultProvider_registered (t : string) (cfg : value) :
  (In t registered_types ->
   exists i, getDefaultProvider t cfg = Return i
             /\ Providers.type i = t
             /\ listed t (Providers.name i))
  /\ (~ In t registered_types ->
      exists e, getDefaultProvider t cfg = Throw e).
Proof.
  split.
  - intros H. unfold registered_types, ProviderRegistry in H.
    cbn [fmap list_fmap fst In] in H.
    repeat (destruct H as [<- | H];
            [eexists; split; [reflexivity | ];
             split; [reflexivity | ];
             eexists; split; [reflexivity | ]; cbn [Providers.name In]; tauto | ]).
    contradiction.
  - intros H. unfold getDefaultProvider, getProvider.
    rewrite (lookup_type_unlisted t H). eexists. reflexivity.
Qed.

Lemma getDefaultProvider_registered_witness :
  (In "email" registered_types /\ ~ In "fax" registered_types)
  /\ (exists i, getDefaultProvider "email" (Obj []) = Return i
                /\ Providers.type i = "email"
                /\ listed "email" (Providers.name i))
  /\ exists e, getDefaultProvider "fax" (Obj []) = Throw e.
Proof.
  assert (H1 : In "email" registered_types) by (vm_compute; tauto).
  assert (H2 : ~ In "fax" registered_types).
  { intros H. vm_compute in H.
    repeat (destruct H as [H | H]; [discriminate H | ]). contradiction. }
  split; [split; assumption | ].
  destruct (getDefaultProvider_registered "email" (Obj [])) as [Hyes _].
  destruct (getDefaultProvider_registered "fax" (Obj [])) as [_ Hno].
  split; [exact (Hyes H1) | exact (Hno H2)].
Defined.

(** *** What initialize registers *)

Lemma Map_get_set_eq (key : string) (d : data) (ps : providers) :
  Map_get key (Map_set key d ps) = Some d.
Proof.
  induction ps as [ | [k0 d0] ps IH]; cbn [Map_set Map_get].
  - rewrite String.eqb_refl. reflexivity.
  - destruct (String.eqb k0 key) eqn:E; cbn [Map_get]; rewrite E; [reflexivity | exact IH].
Qed.

Lemma Map_get_set_ne (key key' : string) (d : data) (ps : providers) :
  key' <> key -> Map_get key' (Map_set key d ps) = Map_get key' ps.
Proof.
  intros Hne. induction ps as [ | [k0 d0] ps IH]; cbn [Map_set Map_get].
  - destruct (String.eqb_spec key key'); [congruence | reflexivity].
  - destruct (String.eqb_spec k0 key) as [-> | Hk]; cbn [Map_get].
    + destruct (String.eqb_spec key key'); [congruence | reflexivity].
    + destruct (String.eqb k0 key'); [reflexivity | exact IH].
Qed.

Lemma Map_set_keys_intro (key : string) (d : data) (ps : providers) (k : string) :
  k = key \/ In k (keys ps) -> In k (keys (Map_set key d ps)).
Proof.
  unfold keys. induction ps as [ | [k0 d0] ps IH]; cbn [Map_set map fst In].
  - intros [-> | []]. left. reflexivity.
  - destruct (String.eqb_spec k0 key) as [-> | Hk]; cbn [map fst In].
    + intros [-> | [H | H]]; auto.
    + intros [-> | [H | H]]; auto.
Qed.

Lemma Map_get_keys (key : string) (ps : providers) :
  In key (keys ps) <-> exists d, Map_get key ps = Some d.
Proof.
  unfold keys. induction ps as [ | [k0 d0] ps IH]; cbn [Map_get map fst In].
  - split; [intros [] | intros [d H]; discriminate H].
  - destruct (String.eqb_spec k0 key) as [-> | Hk].
    + split; [eauto | auto].
    + rewrite <- IH. split; [intros [H | H]; [congruence | exact H] | auto].
Qed.

Lemma initializeProvider_step (w : ProviderManager.world) (cfg : configuration)
  (ps : providers) :
  if loads w cfg
  then fst (initializeProvider w cfg ps) = Return tt
       /\ exists d,
            snd (initializeProvider w cfg ps)
              = Map_set (key_of (provider_type cfg) (provider_name cfg)) d ps
            /\ config d = cfg
            /\ Providers.type (instance d) = provider_type cfg
            /\ Providers.name (instance d) = provider_name cfg
            /\ listed (provider_type cfg) (provider_name cfg)
            /\ isDefault d = is_default cfg
            /\ lastHealthCheck d = None
            /\ isHealthy d = true
  else snd (initializeProvider w cfg ps) = ps
       /\ exists e, fst (initializeProvider w cfg ps) = Throw e.
Proof.
  unfold loads, initializeProvider.
  destruct (getProvider _ _ _) as [provider | e] eqn:Eg; cbn [fst snd returns];
    [ | eauto].
  destruct (provider_initialize w provider) as [[] | e]; cbn [fst snd returns];
    [ | eauto].
  split; [reflexivity | ]. eexists. split; [reflexivity | ].
  apply getProvider_listed in Eg as (Ht & Hn & Hl). cbn [config instance isDefault lastHealthCheck isHealthy].
  repeat split; assumption.
Qed.

Lemma fresh_entry_more (w : ProviderManager.world) (cfg : configuration)
  (rows : list configuration) (key : string) (d : data) :
  fresh_entry w rows key d -> fresh_entry w (cfg :: rows) key d.
Proof.
  unfold fresh_entry. intros (H & rest). split; [right; exact H | exact rest].
Qed.

Lemma initialize_entries (w : ProviderManager.world) (rows : list configuration)
  (ps : providers) (key : string) (d : data) :
  In (key, d) (initialize w rows ps) -> In (key, d) ps \/ fresh_entry w rows key d.
Proof.
  revert ps. induction rows as [ | cfg rows IH]; intros ps; cbn [initialize];
    [auto | ].
  intros H. destruct (IH _ H) as [Hin | Hf]; [ | right; apply fresh_entry_more, Hf].
  pose proof (initializeProvider_step w cfg ps) as Hstep.
  destruct (loads w cfg) eqn:El.
  - destruct Hstep as (_ & d0 & E & Hc & Ht & Hn & _ & Hd & Hl & Hh).
    rewrite E in Hin.
    apply Map_set_In in Hin as [[= -> ->] | Hin]; [right | left; exact Hin].
    unfold fresh_entry. rewrite Hc.
    repeat split; try assumption. left. reflexivity.
  - destruct Hstep as [E _]. rewrite E in Hin. left. exact Hin.
Qed.

Lemma initialize_keys (w : ProviderManager.world) (rows : list configuration)
  (ps : providers) (key : string) :
  In key (keys (initialize w rows ps)) <->
  In key (keys ps)
  \/ exists cfg, In cfg rows /\ loads w cfg = true
                 /\ key = key_of (provider_type cfg) (provider_name cfg).
Proof.
  revert ps. induction rows as [ | cfg rows IH]; intros ps; cbn [initialize].
  - split; [auto | intros [H | (cfg & [] & _)]; exact H].
  - rewrite IH. pose proof (initializeProvider_step w cfg ps) as Hstep.
    destruct (loads w cfg) eqn:El.
    + destruct Hstep as (_ & d0 & -> & _). split.
      * intros [H | (c & Hc & Hl & Hk)].
        -- apply Map_set_keys in H as [-> | H]; [right | left; exact H].
           exists cfg. split; [left; reflexivity | split; [exact El | reflexivity]].
        -- right. exists c. split; [right; exact Hc | split; assumption].
      * intros [H | (c & [<- | Hc] & Hl & Hk)].
        -- left. apply Map_set_keys_intro. right. exact H.
        -- left. apply Map_set_keys_intro. left. exact Hk.
        -- right. exists c. split; [exact Hc | split; assumption].
    + destruct Hstep as [-> _]. split.
      * intros [H | (c & Hc & Hl & Hk)]; [left; exact H | right].
        exists c. split; [right; exact Hc | split; assumption].
      * intros [H | (c & [<- | Hc] & Hl & Hk)]; [left; exact H | congruence | right].
        exists c. split; [exact Hc | split; assumption].
Qed.

(** X14. From an empty map, [initialize] registers exactly the rows
    whose provider the registry lists and whose own [initialize()]
    completes: a key is in the map if and only if such a row has that
    type and name, so a row that fails is skipped without affecting the
    others.  Every entry holds one of the rows, the provider built for
    it and that row's default flag, and starts healthy and unchecked. *)
Theorem initialize_registers (w : ProviderManager.world)
  (rows : list configuration) (key : string) :
  (In key (keys (initialize w rows [])) <->
   exists cfg, In cfg rows /\ loads w cfg = true
               /\ key = key_of (provider_type cfg) (provider_name cfg))
  /\ (forall d, In (key, d) (initialize w rows []) -> fresh_entry w rows key d).
Proof.
  split.
  - rewrite initialize_keys. cbn [keys map In]. tauto.
  - intros d H. destruct (initialize_entries w rows [] key d H) as [[] | Hf].
    exact Hf.
Qed.

Lemma listed_named (t n : string) : listed t n -> n <> "".
Proof.
  intros H. apply listed_colon_free in H as H'.
  destruct H as (names & Ht & Hn). intros ->.
  unfold ProviderRegistry in Ht. cbn [lookup_type] in Ht.
  repeat match type of Ht with
         | (if ?c then _ else _) = _ =>
             destruct c;
             [injection Ht as <-; cbn [In] in Hn;
              repeat (destruct Hn as [Hn | Hn]; [discriminate Hn | ]);
              contradiction
             | ]
         end.
  discriminate Ht.
Qed.

(** X15. A provider that [initializeProvider] has loaded is found at
    once by [get] under its type and name, as an instance of that type
    and name; the entries under every other key are what they were. *)
Theorem initialized_provider_found (w : ProviderManager.world)
  (cfg : configuration) (ps : providers) :
  loads w cfg = true ->
  fst (initializeProvider w cfg ps) = Return tt
  /\ (exists i,
        get (provider_type cfg) (Some (provider_name cfg))
            (snd (initializeProvider w cfg ps)) = Return (Found i)
        /\ Providers.type i = provider_type cfg
        /\ Providers.name i = provider_name cfg)
  /\ (forall key,
        key <> key_of (provider_type cfg) (provider_name cfg) ->
        Map_get key (snd (initializeProvider w cfg ps)) = Map_get key ps).
Proof.
  intros Hl. pose proof (initializeProvider_step w cfg ps) as Hstep.
  rewrite Hl in Hstep.
  destruct Hstep as (Hret & d & E & _ & Ht & Hn & Hlisted & _).
  split; [exact Hret | ]. rewrite E. split.
  - exists (instance d). split; [ | split; assumption].
    rewrite get_named by (eapply listed_named, Hlisted).
    unfold named_entry. rewrite Map_get_set_eq. reflexivity.
  - intros key Hne. apply Map_get_set_ne, Hne.
Qed.

Lemma initialized_provider_found_witness :
  loads quiet_world (seed_row "6" "email" "resend" false) = true
  /\ exists i,
       get "email" (Some "resend")
           (snd (initializeProvider quiet_world (seed_row "6" "email" "resend" false) []))
         = Return (Found i)
       /\ Providers.type i = "email"
       /\ Providers.name i = "resend".
Proof.
  assert (H : loads quiet_world (seed_row "6" "email" "resend" false) = true)
    by reflexivity.
  split; [exact H | ].
  exact (proj1 (proj2 (initialized_provider_found quiet_world
                         (seed_row "6" "email" "resend" false) [] H))).
Defined.

(** *** Providers of one type *)

Lemma getAllOfType_In (t : string) (ps : providers) (d : data) :
  In d (getAllOfType t ps) <-> exists k, In (k, d) ps /\ of_type t k = true.
Proof.
  unfold getAllOfType, providers in *.
  induction ps as [ | [k0 d0] ps IH].
  - split; [intros [] | intros (k & [] & _)].
  - destruct (of_type t k0) eqn:E.
    + rewrite filter_cons_True by exact E. cbn [fmap list_fmap snd In].
      fold (@fmap list _ _ _ (@snd string data) (filter (fun entry => of_type t (fst entry) = true) ps)).
      rewrite IH. split.
      * intros [<- | (k & Hin & Hk)]; [exists k0 | exists k]; split;
          first [assumption | left; reflexivity | right; assumption].
      * intros (k & [[= <- <-] | Hin] & Hk); [left; reflexivity | right].
        exists k. split; assumption.
    + rewrite filter_cons_False by (cbn [fst]; rewrite E; discriminate).
      rewrite IH. split.
      * intros (k & Hin & Hk). exists k. split; [right; exact Hin | exact Hk].
      * intros (k & [[= <- <-] | Hin] & Hk); [congruence | ].
        exists k. split; assumption.
Qed.

(** X16. In a map where every entry sits under the key of its own
    registered provider, as [initialize] builds it, [getAllOfType(type)]
    returns exactly the entries whose provider object is of that type:
    the prefix test on the key neither misses nor adds one. *)
Theorem getAllOfType_by_type (t : string) (ps : providers) (d : data) :
  well_keyed ps ->
  (In d (getAllOfType t ps) <->
   exists k, In (k, d) ps /\ Providers.type (instance d) = t).
Proof.
  intros Hwk. rewrite getAllOfType_In. split.
  - intros (k & Hin & Hk). exists k. split; [exact Hin | ].
    eapply well_keyed_type; eassumption.
  - intros (k & Hin & <-). exists k. split; [exact Hin | ].
    destruct (Hwk k d Hin) as [-> _]. apply of_type_key_of.
Qed.

Lemma getAllOfType_by_type_witness :
  well_keyed seeded
  /\ (In sendgrid_entry (getAllOfType "email" seeded)
      /\ ~ In vapi_entry (getAllOfType "email" seeded)).
Proof.
  destruct seeded_sound as [_ Hwk].
  split; [exact Hwk | ]. split.
  - apply (getAllOfType_by_type "email" seeded sendgrid_entry Hwk).
    exists "email:sendgrid". split; [ | reflexivity].
    vm_compute. do 4 right. left. reflexivity.
  - intros H. apply (getAllOfType_by_type "email" seeded vapi_entry Hwk) in H.
    destruct H as (k & _ & H). discriminate H.
Defined.

Lemma first_of_type_head (pick : data -> bool) (t : string) (ps : providers) :
  first_of_type pick t ps
  = head (filter (fun d => pick d = true) (getAllOfType t ps)).
Proof.
  unfold getAllOfType, providers in *.
  induction ps as [ | [k0 d0] ps IH]; [reflexivity | ].
  cbn [first_of_type]. destruct (of_type t k0) eqn:E; cbn [andb].
  - rewrite filter_cons_True by exact E. cbn [fmap list_fmap snd].
    destruct (pick d0) eqn:Ep.
    + rewrite filter_cons_True by exact Ep. reflexivity.
    + rewrite filter_cons_False by (rewrite Ep; discriminate). exact IH.
  - rewrite filter_cons_False by (cbn [fst]; rewrite E; discriminate). exact IH.
Qed.

(** X17. [get(type)] without a name returns the first entry of
    [getAllOfType(type)] that is marked default, else the first entry of
    the type, else [null]; so it returns [null] only when no provider of
    the type is registered. *)
Theorem get_prefers_default (t : string) (ps : providers) :
  get t None ps
  = Return (match (filter (fun d => isDefault d = true) (getAllOfType t ps)
                   ++ getAllOfType t ps)%list with
            | d :: _ => Found (instance d)
            | [] => NotFound_null
            end).
Proof.
  unfold get. cbn [from_option truthy].
  rewrite !first_of_type_head.
  destruct (filter (fun d => isDefault d = true) (getAllOfType t ps)) as [ | d ds];
    [ | reflexivity].
  cbn [head app].
  destruct (getAllOfType t ps) as [ | d ds]; [reflexivity | ].
  rewrite filter_cons_True by reflexivity. reflexivity.
Qed.

(** *** Health rounds and lookups *)

Lemma same_providers_Map_get (ps ps' : providers) (key : string) :
  same_providers ps ps' ->
  instance <$> Map_get key ps = instance <$> Map_get key ps'.
Proof.
  induction 1 as [ | [k d] [k' d'] ps ps' (Hk & Hi & _) _ IH]; [reflexivity | ].
  cbn [fst snd] in *. subst k'. cbn [Map_get].
  destruct (String.eqb k key); [cbn; f_equal; exact Hi | exact IH].
Qed.

Lemma same_providers_first (pick : data -> bool) (t : string) (ps ps' : providers) :
  (forall d d', isDefault d = isDefault d' -> pick d = pick d') ->
  same_providers ps ps' ->
  instance <$> first_of_type pick t ps = instance <$> first_of_type pick t ps'.
Proof.
  intros Hp.
  induction 1 as [ | [k d] [k' d'] ps ps' (Hk & Hi & Hd) _ IH]; [reflexivity | ].
  cbn [fst snd] in *. subst k'. cbn [first_of_type].
  rewrite (Hp d d' Hd).
  destruct (of_type t k && pick d'); [cbn; f_equal; exact Hi | exact IH].
Qed.

Lemma same_providers_get (ps ps' : providers) (t : string) (n : option string) :
  same_providers ps ps' -> get t n ps = get t n ps'.
Proof.
  intros H.
  pose proof (same_providers_Map_get ps ps' (key_of t (default "" n)) H) as Hm.
  pose proof (same_providers_first isDefault t ps ps' (fun d d' E => E) H) as H1.
  pose proof (same_providers_first (fun _ => true) t ps ps'
                (fun _ _ _ => eq_refl) H) as H2.
  unfold get. destruct (truthy (from_option Str Null n)).
  - destruct (Map_get _ ps), (Map_get _ ps'); cbn in Hm; congruence.
  - destruct (first_of_type isDefault t ps), (first_of_type isDefault t ps');
      cbn in H1; try congruence.
    destruct (first_of_type (fun _ => true) t ps),
             (first_of_type (fun _ => true) t ps'); cbn in H2; congruence.
Qed.

Lemma check_all_same (w : ProviderManager.world) (ps : providers) (reads : nat) :
  same_providers ps (fst (fst (check_all w ps reads))).
Proof.
  revert reads. induction ps as [ | [k d] ps IH]; intros reads; cbn [check_all].
  - constructor.
  - pose proof (check_one_spec w k d reads) as (_ & _ & Hi & _ & Hd & _).
    destruct (check_one w k d reads) as [[d' reads'] log].
    specialize (IH reads').
    destruct (check_all w ps reads') as [[rest' reads''] log'].
    cbn [fst snd] in *. constructor; [ | exact IH].
    cbn [fst snd]. auto.
Qed.

(** X18. A round of health checks changes no lookup: [get] returns
    the same provider for every type and name as before the round, also
    for a provider the round recorded unhealthy, and the keys keep their
    order. *)
Theorem health_round_keeps_lookups (w : ProviderManager.world) (ps : providers)
  (reads : nat) (t : string) (n : option string) :
  get t n (after_round w ps reads) = get t n ps
  /\ keys (after_round w ps reads) = keys ps.
Proof.
  assert (H : same_providers ps (after_round w ps reads)).
  { unfold after_round, runHealthChecks.
    pose proof (check_all_same w ps reads) as H.
    destruct (check_all w ps reads) as [[ps' r] log]. exact H. }
  split; [symmetry; apply same_providers_get, H | ].
  unfold keys. induction H as [ | e e' l l' (Hk & _) _ IH]; [reflexivity | ].
  cbn [map]. rewrite IH, Hk. reflexivity.
Qed.

(** During the outage the voice default is recorded unhealthy and
    [get] still returns it. *)
Example unhealthy_default_still_returned :
  health_of "voice:vapi" (after_round outage_world seeded 0) = Some false
  /\ get "voice" None (after_round outage_world seeded 0)
     = Return (Found (instance vapi_entry)).
Proof. split; reflexivity. Qed.

(** *** What setDefault leaves alone *)



(** *** The health report *)

(** [status[type][name]], when both properties exist. *)
Definition report_at (st : status) (t n : string) : option health_report :=
  st !! t ≫= fun inner => inner !! n.

Lemma split_colon_key_of (t n : string) :
  colon_free t = true -> colon_free n = true ->
  split_colon (key_of t n) = (t, [n]).
Proof.
  unfold key_of. intros Ht Hn.
  assert (Hn' : split_colon n = (n, [])).
  { clear Ht. induction n as [ | c n IH]; [reflexivity | ].
    cbn [colon_free] in Hn. apply andb_true_iff in Hn as [Hc Hn].
    cbn [split_colon]. rewrite (IH Hn).
    apply negb_true_iff in Hc. rewrite Hc. reflexivity. }
  induction t as [ | c t IH].
  - strings. cbn [split_colon]. rewrite Hn'. reflexivity.
  - cbn [colon_free] in Ht. apply andb_true_iff in Ht as [Hc Ht].
    rewrite append_cons. cbn [split_colon]. rewrite (IH Ht).
    apply negb_true_iff in Hc. rewrite Hc. reflexivity.
Qed.

Lemma key_of_inj (t n t' n' : string) :
  colon_free t = true -> colon_free n = true ->
  colon_free t' = true -> colon_free n' = true ->
  key_of t n = key_of t' n' -> t = t' /\ n = n'.
Proof.
  intros Ht Hn Ht' Hn' E.
  pose proof (split_colon_key_of t n Ht Hn) as H1.
  pose proof (split_colon_key_of t' n' Ht' Hn') as H2.
  rewrite E in H1. rewrite H1 in H2. injection H2 as -> ->. split; reflexivity.
Qed.

Lemma listed_not_inherited (t n : string) :
  listed t n ->
  existsb (String.eqb t) Object_prototype = false /\ String.eqb n "__proto__" = false.
Proof.
  intros (names & Ht & Hn). unfold ProviderRegistry in Ht.
  cbn [lookup_type] in Ht.
  repeat match type of Ht with
         | (if ?c then _ else _) = _ =>
             let E := fresh "E" in
             destruct c eqn:E;
             [apply String.eqb_eq in E; subst t; injection Ht as <-;
              cbn [In] in Hn;
              repeat (destruct Hn as [<- | Hn]; [split; reflexivity | ]);
              contradiction
             | clear E]
         end.
  discriminate Ht.
Qed.

Lemma record_health_listed (st : status) (k : string) (d : data) (t n : string) :
  k = key_of t n -> listed t n ->
  record_health st (k, d)
  = Some (<[t := <[n := report_of d]> (default ∅ (st !! t))]> st).
Proof.
  intros -> Hl. unfold record_health. cbn [fst snd].
  destruct (listed_colon_free t n Hl) as [Ht Hn].
  rewrite (split_colon_key_of t n Ht Hn).
  destruct (listed_not_inherited t n Hl) as [-> ->]. reflexivity.
Qed.

Lemma report_at_insert (st : status) (t n t' n' : string) (r : health_report) :
  report_at (<[t := <[n := r]> (default ∅ (st !! t))]> st) t' n'
  = if decide (t = t' /\ n = n') then Some r else report_at st t' n'.
Proof.
  unfold report_at, status in *.
  destruct (decide (t = t')) as [<- | Ht].
  - rewrite lookup_insert_eq. cbn.
    destruct (decide (n = n')) as [<- | Hn].
    + rewrite lookup_insert_eq. rewrite decide_True by auto. reflexivity.
    + rewrite lookup_insert_ne by exact Hn.
      rewrite decide_False by (intros [_ H]; contradiction).
      destruct (st !! t); reflexivity.
  - rewrite lookup_insert_ne by exact Ht.
    rewrite decide_False by (intros [H _]; contradiction). reflexivity.
Qed.

Lemma fold_record_health (ps : providers) (st : status) :
  List.NoDup (keys ps) -> well_keyed ps ->
  exists st',
    fold_left (fun acc entry => acc ≫= fun st => record_health st entry) ps (Some st)
    = Some st'
    /\ forall t n,
         colon_free t = true -> colon_free n = true ->
         report_at st' t n
         = match Map_get (key_of t n) ps with
           | Some d => Some (report_of d)
           | None => report_at st t n
           end.
Proof.
  revert st. induction ps as [ | [k d] ps IH]; intros st Hnd Hwk.
  - exists st. split; reflexivity.
  - cbn [fold_left].
    inversion Hnd as [ | ? ? Hnot Hnd']; subst.
    assert (Hwk' : well_keyed ps) by (intros k' d' H'; apply Hwk; right; exact H').
    destruct (Hwk k d (or_introl eq_refl)) as [Hk Hl].
    cbn [mbind option_bind].
    rewrite (record_health_listed st k d _ _ Hk Hl).
    destruct (IH (<[Providers.type (instance d) :=
                     <[Providers.name (instance d) := report_of d]>
                       (default ∅ (st !! Providers.type (instance d)))]> st)
                 Hnd' Hwk') as (st' & E & Hst').
    exists st'. split; [exact E | ].
    intros t n Ht Hn. rewrite (Hst' t n Ht Hn), report_at_insert.
    destruct (listed_colon_free _ _ Hl) as [Ht' Hn'].
    cbn [Map_get].
    destruct (String.eqb_spec k (key_of t n)) as [Ek | Hne].
    + rewrite Hk in Ek. apply key_of_inj in Ek as [E1 E2]; try assumption.
      rewrite decide_True by (split; assumption).
      destruct (Map_get (key_of t n) ps) as [d' | ] eqn:Eg; [ | reflexivity].
      exfalso. apply Hnot. apply Map_get_In in Eg.
      rewrite Hk, E1, E2. unfold keys. apply in_map_iff.
      exists (key_of t n, d'). split; [reflexivity | exact Eg].
    + rewrite decide_False; [reflexivity | ].
      intros [E1 E2]. apply Hne. rewrite Hk, E1, E2. reflexivity.
Qed.

(** X21. In a map with distinct keys where every entry sits under the
    key of its own registered provider, as [initialize] builds it,
    [getHealthStatus] never writes outside the object it returns, and it
    reports each provider once, under its type and name, with its current
    health flag, default flag and last check; under a type and name that
    no entry has it reports nothing. *)
Theorem getHealthStatus_reports (ps : providers) :
  List.NoDup (keys ps) -> well_keyed ps ->
  exists st,
    getHealthStatus ps = Some st
    /\ forall t n,
         colon_free t = true -> colon_free n = true ->
         report_at st t n = report_of <$> Map_get (key_of t n) ps.
Proof.
  intros Hnd Hwk. unfold getHealthStatus.
  destruct (fold_record_health ps ∅ Hnd Hwk) as (st & E & Hst).
  exists st. split; [exact E | ].
  intros t n Ht Hn. rewrite (Hst t n Ht Hn).
  destruct (Map_get (key_of t n) ps); reflexivity.
Qed.

Lemma getHealthStatus_reports_witness :
  (List.NoDup (keys seeded) /\ well_keyed seeded)
  /\ exists st,
       getHealthStatus seeded = Some st
       /\ report_at st "email" "sendgrid"
          = Some {| healthy := true; default_provider := true; lastCheck := None |}
       /\ report_at st "email" "mailgun" = None.
Proof.
  destruct seeded_sound as [Hnd Hwk].
  split; [split; [exact Hnd | exact Hwk] | ].
  destruct (getHealthStatus_reports seeded Hnd Hwk) as (st & E & Hst).
  exists st. split; [exact E | ].
  split; [exact (Hst "email" "sendgrid" eq_refl eq_refl)
         | exact (Hst "email" "mailgun" eq_refl eq_refl)].
Defined.

(** ** Transactions of the database service *)

Import Database.

(** Whether the three steps of the [try] block complete. *)
Definition goes_through {A} (s : session A) : bool :=
  returns (begin s) && returns (callback s) && returns (commit s).

Definition action_eqb (a b : action) : bool :=
  match a, b with
  | Connect, Connect | Begin, Begin | Callback, Callback
  | Commit, Commit | Rollback, Rollback | Release, Release => true
  | _, _ => false
  end.

(** How often a step occurs in a log. *)
Definition times (a : action) (log : list action) : nat :=
  length (List.filter (action_eqb a) log).

(** A callback that fails after the transaction has begun, on a
    connection whose rollback works. *)
Definition failing_callback : session value :=
  {| connect := Return tt;
     begin := Return tt;
     callback := Throw (Error "duplicate key value");
     commit := Return tt;
     rollback := Return tt;
     release := Return tt |}.

(** X22. Once [pool.connect()] has given a client, [transaction]
    releases it exactly once, as its last step, whatever fails on the
    way, and takes no step twice.  COMMIT is sent only after BEGIN and
    the callback completed; ROLLBACK is sent exactly when BEGIN, the
    callback or COMMIT threw.  The call returns the callback's result
    exactly when those three steps and the release completed. *)
Theorem transaction_discipline {A} (s : session A) :
  returns (connect s) = true ->
  (forall a, (times a (snd (transaction s)) <= 1)%nat)
  /\ times Release (snd (transaction s)) = 1%nat
  /\ List.last (snd (transaction s)) Connect = Release
  /\ (In Commit (snd (transaction s)) ->
      returns (begin s) && returns (callback s) = true)
  /\ (In Rollback (snd (transaction s)) <-> goes_through s = false)
  /\ (forall result,
        fst (transaction s) = Return result <->
        goes_through s = true /\ callback s = Return result
        /\ returns (release s) = true).
Proof.
  unfold transaction, attempt, goes_through, times.
  destruct (connect s) as [[] | e0]; [intros _ | discriminate].
  destruct (begin s) as [[] | e1], (callback s) as [a | e2], (commit s) as [[] | e3],
    (rollback s) as [[] | e4], (release s) as [[] | e5];
    cbn [fst snd returns andb app List.last In].
  all: split; [intros []; cbn [List.filter action_eqb length]; lia | ].
  all: split; [reflexivity | ].
  all: split; [reflexivity | ].
  all: split; [intros H; first [reflexivity | intuition discriminate] | ].
  all: split; [split; [intros H; first [reflexivity | intuition discriminate]
                      | intros H; first [discriminate H | tauto]] | ].
  all: intros result; split;
    [intros H; first [discriminate H | injection H as <-; repeat split]
    | intros (H1 & H2 & H3); first [discriminate | congruence]].
Qed.

Lemma transaction_discipline_witness :
  returns (connect failing_callback) = true
  /\ snd (transaction failing_callback) = [Connect; Begin; Callback; Rollback; Release]
  /\ times Release (snd (transaction failing_callback)) = 1%nat
  /\ In Rollback (snd (transaction failing_callback)).
Proof.
  split; [reflexivity | ]. split; [reflexivity | ].
  destruct (transaction_discipline failing_callback eq_refl)
    as (_ & Hrelease & _ & _ & Hrollback & _).
  split; [exact Hrelease | ].
  apply Hrollback. reflexivity.
Defined.

(** ** The lead routes *)

Import Leads.

(** *** Status changes *)

Definition lead_responses (t : list effect) : list (Z * value) :=
  flat_map (fun e => match e with Responded st j => [(st, j)] | _ => [] end) t.

Definition lead_events (t : list effect) : list (string * value) :=
  flat_map (fun e => match e with Emitted ev p => [(ev, p)] | _ => [] end) t.

Definition lead_queries (t : list effect) : list (statement * bool) :=
  flat_map (fun e => match e with Queried q ok => [(q, ok)] | _ => [] end) t.

Lemma flat_map_bus_effects {A} (f : effect -> list A) (l : list EventBus.effect) :
  (forall x, f (Bus x) = []) -> flat_map f (map Bus l) = [].
Proof.
  intros H. induction l as [ | x l IH]; simpl; [reflexivity | ].
  rewrite H, IH. reflexivity.
Qed.

Ltac patch_unfold :=
  cbv beta iota zeta delta [patch_status failed trace bus pending negb].

Ltac patch_cases :=
  patch_unfold;
  repeat (match goal with
          | |- context [match ?c with Return _ => _ | Throw _ => _ end] =>
              destruct c eqn:?
          | |- context [if includes ?l ?c then _ else _] =>
              destruct (includes l c) eqn:?
          | |- context [if is_zero ?c then _ else _] => destruct (is_zero c) eqn:?
          end; patch_unfold).

Ltac patch_observe :=
  unfold lead_responses, lead_events, lead_queries;
  rewrite ?flat_map_app; cbn [flat_map app];
  rewrite ?flat_map_bus_effects by reflexivity;
  cbn [app].

Lemma body_status (body status reason : value) :
  (status <- JS.get body "status" ;; reason <- JS.get body "reason" ;; Return (status, reason))
  = Return (status, reason) ->
  get_opt body "status" = status.
Proof.
  destruct body; cbn [JS.get bind get_opt]; intros H; try discriminate H;
    injection H as <- <-; reflexivity.
Qed.

Lemma body_broken (body : value) (e : error) :
  (status <- JS.get body "status" ;; reason <- JS.get body "reason" ;; Return (status, reason))
  = Throw e ->
  get_opt body "status" = Undefined.
Proof.
  destruct body; cbn [JS.get bind get_opt]; intros H; try discriminate H; reflexivity.
Qed.

(** X23. PATCH /:id/status sends exactly one response, with status
    200, 400, 404 or 500.  It publishes at most one event, always
    "lead:status_changed", and only after an update that succeeded and
    reported a row, for a status of the valid list; the event carries the
    lead id of the route and the status of the body.  A 200 answer means
    the event was published.  A status outside the list (or a missing
    one) never reaches the database or the bus. *)
Theorem status_change_published (w : world) (id body : value) (b : EventBus.bus) :
  (exists status json,
     lead_responses (trace (patch_status w id body b)) = [(status, json)]
     /\ (status = 200 \/ status = 400 \/ status = 404 \/ status = 500))
  /\ (forall ev p, In (ev, p) (lead_events (trace (patch_status w id body b))) ->
        lead_events (trace (patch_status w id body b)) = [(ev, p)]
        /\ ev = "lead:status_changed"
        /\ get_opt p "leadId" = id
        /\ get_opt p "status" = get_opt body "status"
        /\ (exists s, get_opt body "status" = Str s /\ In s validStatuses)
        /\ exists reason result rowCount,
             lead_queries (trace (patch_status w id body b))
               = [(UpdateStatus id (get_opt body "status") reason, true)]
             /\ db_query w (UpdateStatus id (get_opt body "status") reason)
                = Return result
             /\ JS.get result "rowCount" = Return rowCount
             /\ is_zero rowCount = false)
  /\ (forall json, lead_responses (trace (patch_status w id body b)) = [(200, json)] ->
        exists p, lead_events (trace (patch_status w id body b))
                  = [("lead:status_changed", p)])
  /\ (includes validStatuses (get_opt body "status") = false ->
      lead_queries (trace (patch_status w id body b)) = []
      /\ lead_events (trace (patch_status w id body b)) = []
      /\ bus (patch_status w id body b) = b).
Proof.
  patch_unfold.
  destruct (status <- JS.get body "status" ;;
            reason <- JS.get body "reason" ;;
            Return (status, reason)) as [[status reason] | e] eqn:Hbody;
    [apply body_status in Hbody | apply body_broken in Hbody]; rewrite Hbody.
  all: patch_cases.
  all: patch_observe.
  all: (split; [eexists _, _; split; [reflexivity | tauto] | ]).
  all: (split; [intros ev p H; cbn [In] in H; try contradiction | ]).
  all: try (destruct H as [H | []]; injection H as <- <-).
  all: try (split; [reflexivity | ]; split; [reflexivity | ];
                 split; [reflexivity | ]; split; [reflexivity | ];
                 split; [apply includes_one_of; assumption | ];
                 eexists _, _, _; split; [reflexivity | ];
                 split; [eassumption | ]; split; eassumption).
  all: (split; [intros json H; first [discriminate H | eexists; reflexivity] | ]).
  all: intros H; first [discriminate H | repeat split].
Qed.

(** *** The search statement *)

(** What each placeholder of a statement stands for: the text before
    it, and the parameter it refers to ([$n] is the [n]-th one). *)
Fixpoint bindings (q : list piece) (ps : list value) : list (string * option value) :=
  match q with
  | Text t :: rest =>
      match rest with
      | Placeholder n :: _ => (t, nth_error ps (n - 1)) :: bindings rest ps
      | _ => bindings rest ps
      end
  | _ :: rest => bindings rest ps
  | [] => []
  end.

(** A filter that is present, with the value it compares to. *)
Definition constraint (v : value) (text : string) (param : value)
  : list (string * option value) :=
  if truthy v then [(text, Some param)] else [].

Definition test_filters : filters :=
  {| status := Str "paid"; vertical := Undefined; persona := Undefined;
     language := Str "he"; minUrgency := Str "7"; search := Str "cohen";
     limit := Undefined; offset := Str "20" |}.

Definition test_statement : builder :=
  {| query :=
       [Text "SELECT * FROM universal_leads_ledger WHERE 1=1";
        Text " AND status = "; Placeholder 1;
        Text " AND primary_language = "; Placeholder 2;
        Text " AND detected_urgency >= "; Placeholder 3;
        Text " AND (contact_name ILIKE "; Placeholder 4;
        Text " OR contact_phone ILIKE "; Placeholder 4;
        Text " OR contact_email ILIKE "; Placeholder 4;
        Text ")";
        Text " ORDER BY created_at DESC LIMIT "; Placeholder 5;
        Text " OFFSET "; Placeholder 6];
     params :=
       [Str "paid"; Str "he"; Num (Fin 7 0); Str "%cohen%";
        Num (Fin 50 0); Num (Fin 20 0)];
     paramIndex := 6 |}.

Lemma filter_by_step (v : value) (text : string) (param : value)
  (q : list piece) (ps : list value) (k : nat) :
  filter_by v text param {| query := q; params := ps; paramIndex := k |}
  = if truthy v
    then {| query := (q ++ [Text text; Placeholder k])%list;
            params := (ps ++ [param])%list;
            paramIndex := S k |}
    else {| query := q; params := ps; paramIndex := k |}.
Proof. reflexivity. Qed.

Lemma search_by_step (v pattern : value)
  (q : list piece) (ps : list value) (k : nat) :
  search_by v pattern {| query := q; params := ps; paramIndex := k |}
  = if truthy v
    then {| query := (q ++ [Text " AND (contact_name ILIKE "; Placeholder k;
                            Text " OR contact_phone ILIKE "; Placeholder k;
                            Text " OR contact_email ILIKE "; Placeholder k;
                            Text ")"])%list;
            params := (ps ++ [pattern])%list;
            paramIndex := S k |}
    else {| query := q; params := ps; paramIndex := k |}.
Proof. reflexivity. Qed.

(** Runs the builder one block at a time, innermost first, splitting on
    whether the block's filter is present. *)
Ltac built :=
  repeat (first [rewrite filter_by_step | rewrite search_by_step];
          match goal with
          | |- context [if truthy ?v then _ else _] => destruct (truthy v)
          end;
          cbn [app]);
  unfold paginate; cbn [app query params paramIndex].

(** X24. In the statement GET / builds, every placeholder refers to
    the parameter of its own filter: resolving the placeholders against
    the parameter list gives, in order, each present filter with the
    value it compares to (the search pattern for all three ILIKE
    conditions), then the limit and the offset; and [paramIndex] ends as
    the number of parameters. *)
Theorem search_placeholders_bound (f : filters) (s : builder) :
  search_statement f = Return s ->
  exists p_minUrgency pattern p_limit p_offset,
    bindings (query s) (params s)
    = (constraint (status f) " AND status = " (status f)
       ++ constraint (vertical f) " AND business_vertical = " (vertical f)
       ++ constraint (persona f) " AND required_persona = " (persona f)
       ++ constraint (language f) " AND primary_language = " (language f)
       ++ constraint (minUrgency f) " AND detected_urgency >= " (Num p_minUrgency)
       ++ constraint (search f) " AND (contact_name ILIKE " (Str pattern)
       ++ constraint (search f) " OR contact_phone ILIKE " (Str pattern)
       ++ constraint (search f) " OR contact_email ILIKE " (Str pattern)
       ++ [(" ORDER BY created_at DESC LIMIT ", Some (Num p_limit));
           (" OFFSET ", Some (Num p_offset))])%list
    /\ (truthy (minUrgency f) = true -> parseInt (minUrgency f) = Return p_minUrgency)
    /\ (truthy (search f) = true ->
          exists text, ToString (search f) = Return text
                       /\ pattern = "%" ++ text ++ "%")
    /\ parseInt (or_default (limit f) 50) = Return p_limit
    /\ parseInt (or_default (offset f) 0) = Return p_offset
    /\ paramIndex s = length (params s).
Proof.
  unfold search_statement. intros H.
  apply bind_returns in H as (p_minUrgency & E1 & H).
  apply bind_returns in H as (pattern & E2 & H).
  apply bind_returns in H as (p_limit & E3 & H).
  apply bind_returns in H as (p_offset & E4 & H).
  injection H as <-.
  exists p_minUrgency, pattern, p_limit, p_offset.
  split; [ | split; [ | split; [ | split; [exact E3 | split; [exact E4 | ]]]]].
  - unfold constraint. built; reflexivity.
  - intros Ht. rewrite Ht in E1. exact E1.
  - intros Ht. rewrite Ht in E2.
    apply bind_returns in E2 as (text & Et & E2). injection E2 as <-.
    exists text. split; [exact Et | reflexivity].
  - built; reflexivity.
Qed.

Lemma search_placeholders_bound_witness :
  search_statement test_filters = Return test_statement
  /\ paramIndex test_statement = length (params test_statement)
  /\ exists urgency_param pattern limit_param offset_param,
       bindings (query test_statement) (params test_statement)
       = [(" AND status = ", Some (Str "paid"));
          (" AND primary_language = ", Some (Str "he"));
          (" AND detected_urgency >= ", Some (Num urgency_param));
          (" AND (contact_name ILIKE ", Some (Str pattern));
          (" OR contact_phone ILIKE ", Some (Str pattern));
          (" OR contact_email ILIKE ", Some (Str pattern));
          (" ORDER BY created_at DESC LIMIT ", Some (Num limit_param));
          (" OFFSET ", Some (Num offset_param))].
Proof.
  assert (H : search_statement test_filters = Return test_statement) by reflexivity.
  split; [exact H | ].
  destruct (search_placeholders_bound test_filters test_statement H)
    as (u & p & l & o & Hb & _ & _ & _ & _ & Hk).
  split; [exact Hk | ].
  exists u, p, l, o. exact Hb.
Defined.

(** The text the pieces of the sample statement stand for. *)
Example test_statement_text :
  render (query test_statement)
  = "SELECT * FROM universal_leads_ledger WHERE 1=1 AND status = $1 AND primary_language = $2 AND detected_urgency >= $3 AND (contact_name ILIKE $4 OR contact_phone ILIKE $4 OR contact_email ILIKE $4) ORDER BY created_at DESC LIMIT $5 OFFSET $6".
Proof. reflexivity. Qed.
